(** * PBA-CSV: password-based encryption of the CSV export

    A shallow embedding of [encryption/encryption.js] and of the CSV helper
    of [backend/server.js], together with a model of the parts of the
    Node.js platform they call: [Buffer] (UTF-8 and base64 codecs),
    [JSON.stringify] / [JSON.parse], [crypto.randomBytes], [crypto.pbkdf2]
    (PBKDF2-HMAC-SHA-256, RFC 8018) and the [aes-256-gcm] cipher
    (FIPS 197, NIST SP 800-38D).

    Conventions:
    - a [Buffer] is a [list byte];
    - a JavaScript string is the list of its UTF-16 code units ([list N]);
    - [crypto.randomBytes] reads from an entropy stream carried by the
      [world]; every call to the platform's crypto is recorded in the
      world's [trace];
    - a JavaScript exception is the [Threw] outcome, carrying the
      [message] of the error object. *)

From Stdlib Require Import NArith ZArith List String Ascii Bool Lia DecimalString.
From Stdlib.Strings Require Import Byte.
Import ListNotations.

#[local] Set Warnings "-register-all".
Local Open Scope N_scope.

(** ** Bytes *)

Module Bytes.

(** The byte whose value is the low eight bits of [n]. *)
Definition of_N (n : N) : byte :=
  match Byte.of_N (n mod 256) with
  | Some b => b
  | None => x00
  end.

Definition xor (a b : byte) : byte :=
  of_N (N.lxor (Byte.to_N a) (Byte.to_N b)).

Definition eqb (a b : byte) : bool := Byte.to_N a =? Byte.to_N b.

(** Equality of two buffers, byte by byte. *)
Fixpoint equal (x y : list byte) : bool :=
  match x, y with
  | [], [] => true
  | a :: x', b :: y' => eqb a b && equal x' y'
  | _, _ => false
  end.

(** Pointwise exclusive or, as long as the shorter buffer. *)
Fixpoint xor_with (x y : list byte) : list byte :=
  match x, y with
  | a :: x', b :: y' => xor a b :: xor_with x' y'
  | _, _ => []
  end.

(** Big-endian value of a buffer and its inverse on [len] bytes. *)
Definition to_num (bs : list byte) : N :=
  fold_left (fun acc b => acc * 256 + Byte.to_N b) bs 0.

Fixpoint of_num (len : nat) (n : N) : list byte :=
  match len with
  | O => []
  | S k => of_num k (n / 256) ++ [of_N n]
  end.

Definition zeros (n : nat) : list byte := repeat x00 n.

End Bytes.

(** ** JavaScript strings *)

(** A string literal of the source, as code units. *)
Definition lit (s : string) : list N :=
  map N_of_ascii (list_ascii_of_string s).

Fixpoint units_eqb (x y : list N) : bool :=
  match x, y with
  | [], [] => true
  | a :: x', b :: y' => (a =? b) && units_eqb x' y'
  | _, _ => false
  end.

(** ** UTF-8: [Buffer.from(s, 'utf-8')] and [buf.toString('utf-8')] *)

Module Utf8.

Definition is_high (c : N) : bool := (0xD800 <=? c) && (c <=? 0xDBFF).
Definition is_low (c : N) : bool := (0xDC00 <=? c) && (c <=? 0xDFFF).

(** U+FFFD, written for an unpaired surrogate. *)
Definition replacement : list byte := [xef; xbf; xbd].

Definition enc2 (c : N) : list byte :=
  [Bytes.of_N (0xC0 + c / 64); Bytes.of_N (0x80 + c mod 64)].

Definition enc3 (c : N) : list byte :=
  [Bytes.of_N (0xE0 + c / 4096); Bytes.of_N (0x80 + (c / 64) mod 64);
   Bytes.of_N (0x80 + c mod 64)].

Definition enc4 (cp : N) : list byte :=
  [Bytes.of_N (0xF0 + cp / 262144); Bytes.of_N (0x80 + (cp / 4096) mod 64);
   Bytes.of_N (0x80 + (cp / 64) mod 64); Bytes.of_N (0x80 + cp mod 64)].

(** The code point of a surrogate pair. *)
Definition pair_value (hi lo : N) : N :=
  0x10000 + (hi - 0xD800) * 1024 + (lo - 0xDC00).

Fixpoint encode (s : list N) : list byte :=
  match s with
  | [] => []
  | c :: r =>
      if c <? 0x80 then Bytes.of_N c :: encode r
      else if c <? 0x800 then enc2 c ++ encode r
      else if is_high c then
        match r with
        | d :: r' =>
            if is_low d then enc4 (pair_value c d) ++ encode r'
            else replacement ++ encode r
        | [] => replacement
        end
      else if is_low c then replacement ++ encode r
      else enc3 c ++ encode r
  end.

Definition within (lo hi x : N) : bool := (lo <=? x) && (x <=? hi).

(** Decoding replaces every ill-formed sequence by U+FFFD and resumes at
    the first byte that cannot continue it. *)
Fixpoint decode (bs : list byte) : list N :=
  match bs with
  | [] => []
  | b0 :: r0 =>
      let x0 := Byte.to_N b0 in
      if x0 <? 0x80 then x0 :: decode r0
      else if within 0xC2 0xDF x0 then
        match r0 with
        | [] => [0xFFFD]
        | b1 :: r1 =>
            let x1 := Byte.to_N b1 in
            if within 0x80 0xBF x1
            then ((x0 - 0xC0) * 64 + (x1 - 0x80)) :: decode r1
            else 0xFFFD :: decode r0
        end
      else if within 0xE0 0xEF x0 then
        let lo := if x0 =? 0xE0 then 0xA0 else 0x80 in
        let hi := if x0 =? 0xED then 0x9F else 0xBF in
        match r0 with
        | [] => [0xFFFD]
        | b1 :: r1 =>
            let x1 := Byte.to_N b1 in
            if within lo hi x1 then
              match r1 with
              | [] => [0xFFFD]
              | b2 :: r2 =>
                  let x2 := Byte.to_N b2 in
                  if within 0x80 0xBF x2
                  then ((x0 - 0xE0) * 4096 + (x1 - 0x80) * 64 + (x2 - 0x80))
                         :: decode r2
                  else 0xFFFD :: decode r1
              end
            else 0xFFFD :: decode r0
        end
      else if within 0xF0 0xF4 x0 then
        let lo := if x0 =? 0xF0 then 0x90 else 0x80 in
        let hi := if x0 =? 0xF4 then 0x8F else 0xBF in
        match r0 with
        | [] => [0xFFFD]
        | b1 :: r1 =>
            let x1 := Byte.to_N b1 in
            if within lo hi x1 then
              match r1 with
              | [] => [0xFFFD]
              | b2 :: r2 =>
                  let x2 := Byte.to_N b2 in
                  if within 0x80 0xBF x2 then
                    match r2 with
                    | [] => [0xFFFD]
                    | b3 :: r3 =>
                        let x3 := Byte.to_N b3 in
                        if within 0x80 0xBF x3 then
                          let v := (x0 - 0xF0) * 262144 + (x1 - 0x80) * 4096
                                   + (x2 - 0x80) * 64 + (x3 - 0x80) - 0x10000 in
                          (0xD800 + v / 1024) :: (0xDC00 + v mod 1024)
                            :: decode r3
                        else 0xFFFD :: decode r2
                    end
                  else 0xFFFD :: decode r1
              end
            else 0xFFFD :: decode r0
        end
      else 0xFFFD :: decode r0
  end.

(** A string is well formed when its code units fit sixteen bits and
    every surrogate is half of a pair. *)
Fixpoint well_formed (s : list N) : bool :=
  match s with
  | [] => true
  | c :: r =>
      if is_high c then
        match r with
        | d :: r' => is_low d && well_formed r'
        | [] => false
        end
      else negb (is_low c) && (c <? 0x10000) && well_formed r
  end.

End Utf8.

(** ** Base64: [buf.toString('base64')] and [Buffer.from(s, 'base64')] *)

Module Base64.

(** The character of a six-bit value in the standard alphabet. *)
Definition digit (v : N) : N :=
  if v <? 26 then 65 + v
  else if v <? 52 then 97 + (v - 26)
  else if v <? 62 then 48 + (v - 52)
  else if v =? 62 then 43
  else 47.

Definition pad : N := 61.

Fixpoint encode (bs : list byte) : list N :=
  match bs with
  | [] => []
  | [a] =>
      let x := Byte.to_N a in
      [digit (x / 4); digit ((x mod 4) * 16); pad; pad]
  | [a; b] =>
      let x := Byte.to_N a in
      let y := Byte.to_N b in
      [digit (x / 4); digit ((x mod 4) * 16 + y / 16);
       digit ((y mod 16) * 4); pad]
  | a :: b :: c :: r =>
      let x := Byte.to_N a in
      let y := Byte.to_N b in
      let z := Byte.to_N c in
      digit (x / 4) :: digit ((x mod 4) * 16 + y / 16)
        :: digit ((y mod 16) * 4 + z / 64) :: digit (z mod 64) :: encode r
  end.

(** The six-bit value of a character; the URL-safe [-] and [_] are
    accepted as well. *)
Definition value (c : N) : option N :=
  if (65 <=? c) && (c <=? 90) then Some (c - 65)
  else if (97 <=? c) && (c <=? 122) then Some (c - 97 + 26)
  else if (48 <=? c) && (c <=? 57) then Some (c - 48 + 52)
  else if (c =? 43) || (c =? 45) then Some 62
  else if (c =? 47) || (c =? 95) then Some 63
  else None.

(** Decoding never fails: of every code unit the low byte is read;
    characters outside the alphabet are skipped, and the first [=] ends
    the input. *)
Fixpoint values (s : list N) : list N :=
  match s with
  | [] => []
  | c :: r =>
      let c := c mod 256 in
      if c =? pad then []
      else match value c with
           | Some v => v :: values r
           | None => values r
           end
  end.

Fixpoint pack (vs : list N) : list byte :=
  match vs with
  | a :: b :: c :: d :: r =>
      Bytes.of_N (a * 4 + b / 16) :: Bytes.of_N ((b mod 16) * 16 + c / 4)
        :: Bytes.of_N ((c mod 4) * 64 + d) :: pack r
  | [a; b; c] =>
      [Bytes.of_N (a * 4 + b / 16); Bytes.of_N ((b mod 16) * 16 + c / 4)]
  | [a; b] => [Bytes.of_N (a * 4 + b / 16)]
  | _ => []
  end.

Definition decode (s : list N) : list byte := pack (values s).

End Base64.

(** ** Hexadecimal: [buf.toString('hex')] *)

Module Hex.

(** The lower-case digit of a four-bit value. *)
Definition digit (v : N) : N := if v <? 10 then 48 + v else 87 + v.

(** Two digits for each byte, the high half first. *)
Fixpoint encode (bs : list byte) : list N :=
  match bs with
  | [] => []
  | b :: r =>
      digit (Byte.to_N b / 16) :: digit (Byte.to_N b mod 16) :: encode r
  end.

End Hex.

(** ** JSON *)

Module Json.

Inductive value : Type :=
| Null
| Bool (b : bool)
| Number (lexeme : list N)
| String (s : list N)
| Array (items : list value)
| Object (members : list (list N * value)).

Definition quote_mark : N := 34.
Definition backslash : N := 92.

Definition hex_digit (v : N) : N := if v <? 10 then 48 + v else 87 + v.

(** The escape [\uXXXX] of a code unit. *)
Definition u_escape (c : N) : list N :=
  [backslash; 117; hex_digit ((c / 4096) mod 16); hex_digit ((c / 256) mod 16);
   hex_digit ((c / 16) mod 16); hex_digit (c mod 16)].

Definition control_escape (c : N) : list N :=
  if c =? 8 then [backslash; 98]
  else if c =? 9 then [backslash; 116]
  else if c =? 10 then [backslash; 110]
  else if c =? 12 then [backslash; 102]
  else if c =? 13 then [backslash; 114]
  else u_escape c.

(** The characters between the quotes of a string as [JSON.stringify]
    writes it. *)
Fixpoint quote_body (s : list N) : list N :=
  match s with
  | [] => []
  | c :: r =>
      if c =? quote_mark then backslash :: quote_mark :: quote_body r
      else if c =? backslash then backslash :: backslash :: quote_body r
      else if c <? 32 then control_escape c ++ quote_body r
      else if Utf8.is_high c then
        match r with
        | d :: r' =>
            if Utf8.is_low d then c :: d :: quote_body r'
            else u_escape c ++ quote_body r
        | [] => u_escape c
        end
      else if Utf8.is_low c then u_escape c ++ quote_body r
      else c :: quote_body r
  end.

Definition quote (s : list N) : list N :=
  quote_mark :: quote_body s ++ [quote_mark].

(** [JSON.stringify] without indentation. *)
Fixpoint stringify (v : value) : list N :=
  match v with
  | Null => lit "null"
  | Bool true => lit "true"
  | Bool false => lit "false"
  | Number lexeme => lexeme
  | String s => quote s
  | Array items =>
      let fix go (l : list value) : list N :=
        match l with
        | [] => []
        | [x] => stringify x
        | x :: r => stringify x ++ 44 :: go r
        end in
      91 :: go items ++ [93]
  | Object members =>
      let fix go (l : list (list N * value)) : list N :=
        match l with
        | [] => []
        | [(k, x)] => quote k ++ 58 :: stringify x
        | (k, x) :: r => quote k ++ 58 :: stringify x ++ 44 :: go r
        end in
      123 :: go members ++ [125]
  end.

(** The characters [JSON.stringify] writes as they are, none of which
    ends a string. *)
Definition plain (c : N) : Prop :=
  32 <= c /\ c < 0xD800 /\ c <> quote_mark /\ c <> backslash.

(** *** [JSON.parse] *)

Definition is_ws (c : N) : bool :=
  (c =? 32) || (c =? 9) || (c =? 10) || (c =? 13).

Fixpoint skip_ws (s : list N) : list N :=
  match s with
  | c :: r => if is_ws c then skip_ws r else s
  | [] => []
  end.

Definition hex_value (c : N) : option N :=
  if (48 <=? c) && (c <=? 57) then Some (c - 48)
  else if (97 <=? c) && (c <=? 102) then Some (c - 87)
  else if (65 <=? c) && (c <=? 70) then Some (c - 55)
  else None.

Definition simple_escape (e : N) : option N :=
  if e =? quote_mark then Some quote_mark
  else if e =? backslash then Some backslash
  else if e =? 47 then Some 47
  else if e =? 98 then Some 8
  else if e =? 102 then Some 12
  else if e =? 110 then Some 10
  else if e =? 114 then Some 13
  else if e =? 116 then Some 9
  else None.

Definition hex4 (a b c d : N) : option N :=
  match hex_value a, hex_value b, hex_value c, hex_value d with
  | Some x, Some y, Some z, Some t => Some (x * 4096 + y * 256 + z * 16 + t)
  | _, _, _, _ => None
  end.

(** The content of a string whose opening quote has been read, and the
    input left after its closing quote. *)
Fixpoint string_body (s : list N) : option (list N * list N) :=
  let keep (c : N) (k : option (list N * list N)) :=
    match k with
    | Some (t, rest) => Some (c :: t, rest)
    | None => None
    end in
  match s with
  | [] => None
  | c :: r =>
      if c =? quote_mark then Some ([], r)
      else if c =? backslash then
        match r with
        | [] => None
        | e :: r1 =>
            if e =? 117 then
              match r1 with
              | h1 :: h2 :: h3 :: h4 :: r2 =>
                  match hex4 h1 h2 h3 h4 with
                  | Some u => keep u (string_body r2)
                  | None => None
                  end
              | _ => None
              end
            else
              match simple_escape e with
              | Some u => keep u (string_body r1)
              | None => None
              end
        end
      else if c <? 32 then None
      else keep c (string_body r)
  end.

Definition is_digit (c : N) : bool := (48 <=? c) && (c <=? 57).

(** The longest run of decimal digits at the head of the input. *)
Fixpoint digits (s : list N) : list N * list N :=
  match s with
  | c :: r =>
      if is_digit c then let (d, rest) := digits r in (c :: d, rest)
      else ([], s)
  | [] => ([], [])
  end.

(** The integer part of a number: [0], or a non-zero digit and digits. *)
Definition int_part (s : list N) : option (list N * list N) :=
  match s with
  | c :: r =>
      if c =? 48 then Some ([c], r)
      else if is_digit c then let (d, rest) := digits r in Some (c :: d, rest)
      else None
  | [] => None
  end.

Definition frac_part (s : list N) : option (list N * list N) :=
  match s with
  | c :: r =>
      if c =? 46 then
        match digits r with
        | ([], _) => None
        | (d, rest) => Some (c :: d, rest)
        end
      else Some ([], s)
  | [] => Some ([], s)
  end.

Definition exp_part (s : list N) : option (list N * list N) :=
  match s with
  | e :: r =>
      if (e =? 101) || (e =? 69) then
        let (sign, r1) :=
          match r with
          | g :: r' => if (g =? 43) || (g =? 45) then ([g], r') else ([], r)
          | [] => ([], r)
          end in
        match digits r1 with
        | ([], _) => None
        | (d, rest) => Some (e :: sign ++ d, rest)
        end
      else Some ([], s)
  | [] => Some ([], s)
  end.

(** A number token, kept as written. *)
Definition number (s : list N) : option (list N * list N) :=
  let (minus, s1) :=
    match s with
    | c :: r => if c =? 45 then ([c], r) else ([], s)
    | [] => ([], s)
    end in
  match int_part s1 with
  | None => None
  | Some (i, s2) =>
      match frac_part s2 with
      | None => None
      | Some (f, s3) =>
          match exp_part s3 with
          | None => None
          | Some (e, s4) => Some (minus ++ i ++ f ++ e, s4)
          end
      end
  end.

(** [expect w s]: the input after the word [w], when [s] starts with it. *)
Fixpoint expect (w s : list N) : option (list N) :=
  match w, s with
  | [], _ => Some s
  | a :: w', b :: s' => if a =? b then expect w' s' else None
  | _ :: _, [] => None
  end.

Fixpoint parse_value (fuel : nat) (s : list N) : option (value * list N) :=
  match fuel with
  | O => None
  | S f =>
      match skip_ws s with
      | [] => None
      | c :: r =>
          if c =? 123 then
            match skip_ws r with
            | d :: r' =>
                if d =? 125 then Some (Object [], r')
                else
                  match parse_members f (d :: r') with
                  | Some (ms, rest) => Some (Object ms, rest)
                  | None => None
                  end
            | [] => None
            end
          else if c =? 91 then
            match skip_ws r with
            | d :: r' =>
                if d =? 93 then Some (Array [], r')
                else
                  match parse_elements f (d :: r') with
                  | Some (vs, rest) => Some (Array vs, rest)
                  | None => None
                  end
            | [] => None
            end
          else if c =? quote_mark then
            match string_body r with
            | Some (t, rest) => Some (String t, rest)
            | None => None
            end
          else if c =? 116 then
            option_map (fun rest => (Bool true, rest)) (expect (lit "rue") r)
          else if c =? 102 then
            option_map (fun rest => (Bool false, rest)) (expect (lit "alse") r)
          else if c =? 110 then
            option_map (fun rest => (Null, rest)) (expect (lit "ull") r)
          else
            match number (c :: r) with
            | Some (lexeme, rest) => Some (Number lexeme, rest)
            | None => None
            end
      end
  end

with parse_members (fuel : nat) (s : list N)
  : option (list (list N * value) * list N) :=
  match fuel with
  | O => None
  | S f =>
      match skip_ws s with
      | c :: r =>
          if c =? quote_mark then
            match string_body r with
            | Some (k, r1) =>
                match skip_ws r1 with
                | colon :: r2 =>
                    if colon =? 58 then
                      match parse_value f r2 with
                      | Some (v, r3) =>
                          match skip_ws r3 with
                          | sep :: r4 =>
                              if sep =? 44 then
                                match parse_members f r4 with
                                | Some (ms, rest) => Some ((k, v) :: ms, rest)
                                | None => None
                                end
                              else if sep =? 125 then Some ([(k, v)], r4)
                              else None
                          | [] => None
                          end
                      | None => None
                      end
                    else None
                | [] => None
                end
            | None => None
            end
          else None
      | [] => None
      end
  end

with parse_elements (fuel : nat) (s : list N)
  : option (list value * list N) :=
  match fuel with
  | O => None
  | S f =>
      match parse_value f s with
      | Some (v, r1) =>
          match skip_ws r1 with
          | sep :: r2 =>
              if sep =? 44 then
                match parse_elements f r2 with
                | Some (vs, rest) => Some (v :: vs, rest)
                | None => None
                end
              else if sep =? 93 then Some ([v], r2)
              else None
          | [] => None
          end
      | None => None
      end
  end.

(** [JSON.parse]: one value, with nothing but white space after it.
    [None] stands for the [SyntaxError]. Every nested value and every
    further member starts after at least one character of the input, so
    the length of the text bounds the depth of the recursion. *)
Definition parse (text : list N) : option value :=
  match parse_value (2 * List.length text + 2) text with
  | Some (v, rest) =>
      match skip_ws rest with
      | [] => Some v
      | _ :: _ => None
      end
  | None => None
  end.

(** The own property [k] of an object: the last member so named. *)
Fixpoint member (k : list N) (ms : list (list N * value)) : option value :=
  match ms with
  | [] => None
  | (k', v) :: r =>
      match member k r with
      | Some v' => Some v'
      | None => if units_eqb k k' then Some v else None
      end
  end.

End Json.

(** ** Strings: [split] and [trim] *)

Module Text.

Definition line_feed : N := 10.

(** [s.split(sep)] for a separator of one character: the pieces between
    its occurrences, a single empty piece for the empty string. *)
Fixpoint split (sep : N) (s : list N) : list (list N) :=
  match s with
  | [] => [[]]
  | c :: r =>
      if c =? sep then [] :: split sep r
      else
        match split sep r with
        | piece :: pieces => (c :: piece) :: pieces
        | [] => [[c]]
        end
  end.

(** White space and line terminators, the characters [trim] removes. *)
Definition is_space (c : N) : bool :=
  ((9 <=? c) && (c <=? 13)) || (c =? 32) || (c =? 0xA0) || (c =? 0x1680)
  || ((0x2000 <=? c) && (c <=? 0x200A)) || (c =? 0x2028) || (c =? 0x2029)
  || (c =? 0x202F) || (c =? 0x205F) || (c =? 0x3000) || (c =? 0xFEFF).

Fixpoint trim_start (s : list N) : list N :=
  match s with
  | c :: r => if is_space c then trim_start r else s
  | [] => []
  end.

Definition trim (s : list N) : list N :=
  rev (trim_start (rev (trim_start s))).

End Text.

(** ** Numbers: the double a literal denotes *)

Module Double.

(** A double: plus or minus [m] times two to the [e], an infinity, or not
    a number. *)
Inductive number : Type :=
| Finite (negative : bool) (m : N) (e : Z)
| Infinite (negative : bool)
| NaN.

Definition zero : number := Finite false 0 0.
Definition one : number := Finite false 1 0.

(** [x] times two to the [k] when [k] is positive, [x] otherwise. *)
Definition scale (x k : Z) : Z := if (0 <? k)%Z then (x * 2 ^ k)%Z else x.

(** The double nearest to [p / q], ties to the even mantissa, for positive
    [p] and [q]: 53 bits, exponents from -1074, infinite from two to the
    1024. *)
Definition nearest (negative : bool) (p q : Z) : number :=
  let g := (Z.log2 p - Z.log2 q)%Z in
  let e := if (scale q g <=? scale p (- g))%Z then g else (g - 1)%Z in
  let k := Z.max (e - 52) (-1074) in
  let n := scale p (- k) in
  let d := scale q k in
  let m := (n / d)%Z in
  let r := (n mod d)%Z in
  let m := if ((d <? 2 * r) || ((d =? 2 * r) && Z.odd m))%Z
           then (m + 1)%Z else m in
  if ((0 <? m) && (1024 <=? Z.log2 m + k))%Z then Infinite negative
  else Finite negative (Z.to_N m) k.

(** The double of [digits] times ten to the [exponent]; exponents far
    outside the range of doubles are settled without computing the power. *)
Definition of_decimal (negative : bool) (digits : N) (exponent : Z) : number :=
  if digits =? 0 then Finite negative 0 0
  else if (400 <? exponent)%Z then Infinite negative
  else if (exponent <? - (401 + Z.of_N (N.log2 digits)))%Z
  then Finite negative 0 0
  else if (0 <=? exponent)%Z
  then nearest negative (Z.of_N digits * 10 ^ exponent) 1
  else nearest negative (Z.of_N digits) (10 ^ (- exponent)).

(** The integer part, rounding towards zero. *)
Definition truncate (negative : bool) (m : N) (e : Z) : Z :=
  let a := if (0 <=? e)%Z then (Z.of_N m * 2 ^ e)%Z
           else (Z.of_N m / 2 ^ (- e))%Z in
  if negative then (- a)%Z else a.

Definition is_zero (x : number) : bool :=
  match x with
  | Finite _ m _ => m =? 0
  | _ => false
  end.

(** [x <= 0] *)
Definition not_positive (x : number) : bool :=
  match x with
  | Finite negative m _ => negative || (m =? 0)
  | Infinite negative => negative
  | NaN => false
  end.

(** [x < n] for a positive integer [n]. *)
Definition below (n : Z) (x : number) : bool :=
  match x with
  | Finite negative m e => (truncate negative m e <? n)%Z
  | Infinite negative => negative
  | NaN => false
  end.

(** [ToUint8]: the integer part modulo 256; zero for what is not finite. *)
Definition to_uint8 (x : number) : N :=
  match x with
  | Finite negative m e => Z.to_N (truncate negative m e mod 256)
  | _ => 0
  end.

Definition digits_value (ds : list N) : N :=
  fold_left (fun a c => a * 10 + (c - 48)) ds 0.

(** A literal after its sign: digits, a point, digits, an exponent, with
    at least one digit before the exponent. *)
Definition unsigned_literal (negative : bool) (s : list N) : number :=
  let (i, r1) := Json.digits s in
  let (f, r2) :=
    match r1 with
    | c :: r => if c =? 46 then Json.digits r else ([], r1)
    | [] => ([], r1)
    end in
  match i ++ f with
  | [] => NaN
  | _ =>
      match r2 with
      | [] => of_decimal negative (digits_value (i ++ f))
                         (- Z.of_nat (List.length f))
      | c :: r =>
          if (c =? 101) || (c =? 69) then
            let (minus, r3) :=
              match r with
              | g :: r' =>
                  if g =? 45 then (true, r')
                  else if g =? 43 then (false, r') else (false, r)
              | [] => (false, r)
              end in
            match Json.digits r3 with
            | ([], _) => NaN
            | (x, []) =>
                let x := Z.of_N (digits_value x) in
                of_decimal negative (digits_value (i ++ f))
                           ((if minus then - x else x)
                            - Z.of_nat (List.length f))
            | (_, _ :: _) => NaN
            end
          else NaN
      end
  end.

(** A decimal literal with its sign: the number [JSON.parse] makes of a
    number token, and more generally of the decimal literals of
    [ToNumber]. *)
Definition decimal_literal (s : list N) : number :=
  let (negative, r) :=
    match s with
    | c :: r' =>
        if c =? 45 then (true, r')
        else if c =? 43 then (false, r') else (false, s)
    | [] => (false, s)
    end in
  if units_eqb r (lit "Infinity") then Infinite negative
  else unsigned_literal negative r.

Definition radix_digit (radix c : N) : option N :=
  let v := if (48 <=? c) && (c <=? 57) then c - 48
           else if (97 <=? c) && (c <=? 102) then c - 87
           else if (65 <=? c) && (c <=? 70) then c - 55
           else radix in
  if v <? radix then Some v else None.

Fixpoint radix_value (radix acc : N) (s : list N) : option N :=
  match s with
  | [] => Some acc
  | c :: r =>
      match radix_digit radix c with
      | Some v => radix_value radix (acc * radix + v) r
      | None => None
      end
  end.

(** [0x], [0o] and [0b] literals, which take no sign. *)
Definition non_decimal (s : list N) : option number :=
  match s with
  | 48 :: p :: (_ :: _) as ds =>
      let radix :=
        if (p =? 120) || (p =? 88) then 16
        else if (p =? 111) || (p =? 79) then 8
        else if (p =? 98) || (p =? 66) then 2
        else 0 in
      if radix =? 0 then None
      else match radix_value radix 0 ds with
           | Some n => Some (of_decimal false n 0)
           | None => Some NaN
           end
  | _ => None
  end.

(** [ToNumber] of a string. *)
Definition of_string (s : list N) : number :=
  match Text.trim s with
  | [] => zero
  | t =>
      match non_decimal t with
      | Some x => x
      | None => decimal_literal t
      end
  end.

End Double.

(** ** SHA-256 (FIPS 180-4) *)

Module Sha256.

Definition wrap (x : N) : N := x mod 2 ^ 32.
Definition add (x y : N) : N := wrap (x + y).
Definition rotr (n x : N) : N :=
  N.lor (N.shiftr x n) (wrap (N.shiftl x (32 - n))).
Definition shr (n x : N) : N := N.shiftr x n.
Definition complement (x : N) : N := N.lxor x (2 ^ 32 - 1).

Definition ch (x y z : N) : N :=
  N.lxor (N.land x y) (N.land (complement x) z).
Definition maj (x y z : N) : N :=
  N.lxor (N.lxor (N.land x y) (N.land x z)) (N.land y z).
Definition big_sigma0 (x : N) : N :=
  N.lxor (N.lxor (rotr 2 x) (rotr 13 x)) (rotr 22 x).
Definition big_sigma1 (x : N) : N :=
  N.lxor (N.lxor (rotr 6 x) (rotr 11 x)) (rotr 25 x).
Definition small_sigma0 (x : N) : N :=
  N.lxor (N.lxor (rotr 7 x) (rotr 18 x)) (shr 3 x).
Definition small_sigma1 (x : N) : N :=
  N.lxor (N.lxor (rotr 17 x) (rotr 19 x)) (shr 10 x).

(** The primes below [bound], in order. *)
Definition is_prime (n : nat) : bool :=
  forallb (fun d => negb (n mod d =? 0)%nat) (seq 2 (n - 2)).

Definition primes (bound : nat) : list N :=
  map N.of_nat (filter is_prime (seq 2 (bound - 2))).

(** The largest [r] below [2 ^ bits] with [r ^ k <= n]. *)
Fixpoint root (k : N) (bits : nat) (n r : N) : N :=
  match bits with
  | O => r
  | S b =>
      let c := r + 2 ^ N.of_nat b in
      if c ^ k <=? n then root k b n c else root k b n r
  end.

(** The first 32 bits of the fractional part of the [k]-th root of [p]. *)
Definition fraction_of_root (k p : N) : N :=
  wrap (root k 40 (p * 2 ^ (32 * k)) 0).

(** The cube roots of the first sixty-four primes. *)
Definition round_constants : list N :=
  Eval vm_compute in map (fraction_of_root 3) (primes 312).

(** The eight working words. *)
Record state : Type := mk_state
  { sa : N; sb : N; sc : N; sd : N; se : N; sf : N; sg : N; sh : N }.

(** The square roots of the first eight primes. *)
Definition initial : state :=
  Eval vm_compute in
    match map (fraction_of_root 2) (primes 20) with
    | [a; b; c; d; e; f; g; h] => mk_state a b c d e f g h
    | _ => mk_state 0 0 0 0 0 0 0 0
    end.

(** Padding: a one bit, zeros up to 56 modulo 64 bytes, and the length of
    the message in bits on eight bytes. *)
Definition padding (len : nat) : list byte :=
  let zeros := ((64 - (len + 9) mod 64) mod 64)%nat in
  x80 :: Bytes.zeros zeros ++ Bytes.of_num 8 (N.of_nat len * 8).

(** The big-endian words of a buffer, four bytes each. *)
Fixpoint words (bs : list byte) : list N :=
  match bs with
  | a :: b :: c :: d :: r => Bytes.to_num [a; b; c; d] :: words r
  | _ => []
  end.

(** Extends the sixteen words of a block by [n] more; the schedule is
    kept latest word first. *)
Fixpoint extend (n : nat) (rev_w : list N) : list N :=
  match n with
  | O => rev_w
  | S k =>
      let w := add (add (small_sigma1 (nth 1 rev_w 0)) (nth 6 rev_w 0))
                   (add (small_sigma0 (nth 14 rev_w 0)) (nth 15 rev_w 0)) in
      extend k (w :: rev_w)
  end.

Definition schedule (block : list N) : list N :=
  rev (extend 48 (rev block)).

Definition round (s : state) (kw : N * N) : state :=
  let (k, w) := kw in
  let t1 := add (add (add (add (sh s) (big_sigma1 (se s)))
                           (ch (se s) (sf s) (sg s))) k) w in
  let t2 := add (big_sigma0 (sa s)) (maj (sa s) (sb s) (sc s)) in
  mk_state (add t1 t2) (sa s) (sb s) (sc s) (add (sd s) t1)
           (se s) (sf s) (sg s).

Definition compress (h : state) (block : list N) : state :=
  let s := fold_left round (combine round_constants (schedule block)) h in
  mk_state (add (sa h) (sa s)) (add (sb h) (sb s)) (add (sc h) (sc s))
           (add (sd h) (sd s)) (add (se h) (se s)) (add (sf h) (sf s))
           (add (sg h) (sg s)) (add (sh h) (sh s)).

(** The blocks of sixteen words of a padded message. *)
Fixpoint blocks (n : nat) (ws : list N) : list (list N) :=
  match n with
  | O => []
  | S k => firstn 16 ws :: blocks k (skipn 16 ws)
  end.

Definition digest_bytes (s : state) : list byte :=
  flat_map (Bytes.of_num 4)
    [sa s; sb s; sc s; sd s; se s; sf s; sg s; sh s].

Definition hash (msg : list byte) : list byte :=
  let padded := msg ++ padding (List.length msg) in
  let ws := words padded in
  digest_bytes
    (fold_left compress (blocks (List.length ws / 16)%nat ws) initial).

End Sha256.

(** ** HMAC-SHA-256 (RFC 2104) and PBKDF2 (RFC 8018) *)

Module Hmac.

Definition block_size : nat := 64.

(** The key of one block: a longer key is hashed first, a shorter one is
    filled with zero bytes on the right. *)
Definition block_key (key : list byte) : list byte :=
  let k := if (block_size <? List.length key)%nat then Sha256.hash key else key in
  k ++ Bytes.zeros (block_size - List.length k).

Definition mask (m : byte) (k : list byte) : list byte :=
  map (Bytes.xor m) k.

Definition hmac (key msg : list byte) : list byte :=
  let k := block_key key in
  Sha256.hash (mask x5c k ++ Sha256.hash (mask x36 k ++ msg)).

End Hmac.

Module Pbkdf2.

Definition hash_length : nat := 32.

(** One more application of the pseudo-random function: the pair holds
    the last value [U_j] and the running exclusive or [U_1 ^ ... ^ U_j]. *)
Definition step (password : list byte) (ut : list byte * list byte)
  : list byte * list byte :=
  let u := Hmac.hmac password (fst ut) in
  (u, Bytes.xor_with (snd ut) u).

(** The block [T_i = F(P, S, c, i)]. *)
Definition block (password salt : list byte) (c : N) (i : N) : list byte :=
  let u1 := Hmac.hmac password (salt ++ Bytes.of_num 4 i) in
  snd (N.iter (c - 1) (step password) (u1, u1)).

(** The first [dk_len] bytes of [T_1 || T_2 || ...]. *)
Definition derive (password salt : list byte) (c : N) (dk_len : nat)
  : list byte :=
  let count := ((dk_len + hash_length - 1) / hash_length)%nat in
  firstn dk_len
    (flat_map (fun i => block password salt c (N.of_nat i)) (seq 1 count)).

(** The same function behind a seal: a run of the program carries the
    derived key along without ever unfolding its hundred thousand
    iterations; [derive_key_eq] is the only way in. *)
Lemma sealed_derive :
  { f : list byte -> list byte -> N -> nat -> list byte
  | forall password salt c dk_len,
      f password salt c dk_len = derive password salt c dk_len }.
Proof. exists derive. reflexivity. Qed.

Definition derive_key : list byte -> list byte -> N -> nat -> list byte :=
  proj1_sig sealed_derive.

Lemma derive_key_eq (password salt : list byte) (c : N) (dk_len : nat) :
  derive_key password salt c dk_len = derive password salt c dk_len.
Proof. exact (proj2_sig sealed_derive password salt c dk_len). Qed.

End Pbkdf2.

(** ** AES-256 (FIPS 197) *)

Module Aes.

(** Multiplication by [x] in GF(2^8), modulo [x^8 + x^4 + x^3 + x + 1]. *)
Definition xtime (a : N) : N :=
  let d := 2 * a in if d <? 256 then d else N.lxor d 0x11B.

Fixpoint gf_mul_bits (n : nat) (a b : N) : N :=
  match n with
  | O => 0
  | S k =>
      N.lxor (if N.testbit b 0 then a else 0)
             (gf_mul_bits k (xtime a) (N.shiftr b 1))
  end.

Definition gf_mul (a b : N) : N := gf_mul_bits 8 a b.

Fixpoint gf_pow (a : N) (n : nat) : N :=
  match n with
  | O => 1
  | S k => gf_mul a (gf_pow a k)
  end.

(** The multiplicative inverse, with zero mapped to zero. *)
Definition gf_inv (a : N) : N := gf_pow a 254.

Definition rotl8 (a n : N) : N :=
  N.lor ((N.shiftl a n) mod 256) (N.shiftr a (8 - n)).

Definition sbox (a : N) : N :=
  let s := gf_inv a in
  N.lxor (N.lxor (N.lxor (N.lxor (N.lxor s (rotl8 s 1)) (rotl8 s 2))
                         (rotl8 s 3)) (rotl8 s 4)) 0x63.

Definition xor_words (u v : list N) : list N :=
  map (fun i => N.lxor (nth i u 0) (nth i v 0)) (seq 0 4).

Definition rot_word (w : list N) : list N :=
  [nth 1 w 0; nth 2 w 0; nth 3 w 0; nth 0 w 0].

Definition sub_word (w : list N) : list N := map sbox w.

Definition rcon (j : nat) : list N := [gf_pow 2 (j - 1); 0; 0; 0].

(** The words of a 32-byte key. *)
Fixpoint key_words (bs : list N) : list (list N) :=
  match bs with
  | a :: b :: c :: d :: r => [a; b; c; d] :: key_words r
  | _ => []
  end.

(** Extends the schedule, kept latest word first, by the words
    [i, i+1, ..., i+n-1]. *)
Fixpoint expand (n i : nat) (rev_w : list (list N)) : list (list N) :=
  match n with
  | O => rev_w
  | S k =>
      let prev := nth 0 rev_w [] in
      let temp :=
        if (i mod 8 =? 0)%nat then xor_words (sub_word (rot_word prev)) (rcon (i / 8))
        else if (i mod 8 =? 4)%nat then sub_word prev
        else prev in
      expand k (S i) (xor_words (nth 7 rev_w []) temp :: rev_w)
  end.

Definition key_schedule (key : list byte) : list (list N) :=
  rev (expand 52 8 (rev (key_words (map Byte.to_N key)))).

Definition round_key (w : list (list N)) (r : nat) : list N :=
  List.concat (firstn 4 (skipn (4 * r)%nat w)).

Definition add_round_key (s k : list N) : list N :=
  map (fun i => N.lxor (nth i s 0) (nth i k 0)) (seq 0 16).

Definition sub_bytes (s : list N) : list N := map sbox s.

(** The state is held column by column; row [r] moves left by [r]. *)
Definition shift_rows (s : list N) : list N :=
  map (fun i => nth (i mod 4 + 4 * ((i / 4 + i mod 4) mod 4))%nat s 0)
      (seq 0 16).

Definition mix_column (c : list N) : list N :=
  let a0 := nth 0 c 0 in
  let a1 := nth 1 c 0 in
  let a2 := nth 2 c 0 in
  let a3 := nth 3 c 0 in
  [N.lxor (N.lxor (gf_mul 2 a0) (gf_mul 3 a1)) (N.lxor a2 a3);
   N.lxor (N.lxor a0 (gf_mul 2 a1)) (N.lxor (gf_mul 3 a2) a3);
   N.lxor (N.lxor a0 a1) (N.lxor (gf_mul 2 a2) (gf_mul 3 a3));
   N.lxor (N.lxor (gf_mul 3 a0) a1) (N.lxor a2 (gf_mul 2 a3))].

Definition mix_columns (s : list N) : list N :=
  flat_map (fun c => mix_column (firstn 4 (skipn (4 * c)%nat s))) (seq 0 4).

Definition middle_round (w : list (list N)) (s : list N) (r : nat) : list N :=
  add_round_key (mix_columns (shift_rows (sub_bytes s))) (round_key w r).

(** The cipher on one block of sixteen bytes, fourteen rounds. *)
Definition encrypt (key block : list byte) : list byte :=
  let w := key_schedule key in
  let s0 := add_round_key (map Byte.to_N block) (round_key w 0) in
  let s13 := fold_left (middle_round w) (seq 1 13) s0 in
  map Bytes.of_N
      (add_round_key (shift_rows (sub_bytes s13)) (round_key w 14)).

End Aes.

(** ** Galois/Counter Mode (NIST SP 800-38D), no associated data,
       sixteen-byte tag *)

Module Gcm.

(** Multiplication in GF(2^128); the leftmost bit of a block is the
    coefficient of degree zero. *)
Fixpoint mul_bits (n : nat) (x v z : N) : N :=
  match n with
  | O => z
  | S k =>
      let z' := if N.testbit x (N.of_nat k) then N.lxor z v else z in
      let v' := if N.testbit v 0
                then N.lxor (N.shiftr v 1) (N.shiftl 0xE1 120)
                else N.shiftr v 1 in
      mul_bits k x v' z'
  end.

Definition mul (x y : N) : N := mul_bits 128 x y 0.

Definition ghash (h : N) (xs : list N) : N :=
  fold_left (fun y x => mul (N.lxor y x) h) xs 0.

(** The blocks of a buffer, the last one filled with zero bytes. *)
Fixpoint chunks (n : nat) (bs : list byte) : list N :=
  match n with
  | O => []
  | S k =>
      let b := firstn 16 bs in
      Bytes.to_num (b ++ Bytes.zeros (16 - List.length b))
        :: chunks k (skipn 16 bs)
  end.

Definition block_count (bs : list byte) : nat :=
  ((List.length bs + 15) / 16)%nat.

Definition blocks_of (bs : list byte) : list N := chunks (block_count bs) bs.

Definition bit_length (bs : list byte) : N := N.of_nat (List.length bs) * 8.

Definition hash_key (key : list byte) : N :=
  Bytes.to_num (Aes.encrypt key (Bytes.zeros 16)).

(** The pre-counter block [J0]. *)
Definition j0 (key iv : list byte) : N :=
  if (List.length iv =? 12)%nat then Bytes.to_num iv * 2 ^ 32 + 1
  else ghash (hash_key key) (blocks_of iv ++ [bit_length iv]).

(** Adds [i] to the rightmost 32 bits of a block, modulo [2^32]. *)
Definition inc32 (i x : N) : N :=
  (x / 2 ^ 32) * 2 ^ 32 + (x mod 2 ^ 32 + i) mod 2 ^ 32.

Definition keystream (key : list byte) (icb : N) (n : nat) : list byte :=
  flat_map (fun i => Aes.encrypt key (Bytes.of_num 16 (inc32 (N.of_nat i) icb)))
           (seq 0 n).

Definition gctr (key : list byte) (icb : N) (data : list byte) : list byte :=
  Bytes.xor_with data (keystream key icb (block_count data)).

(** Encryption and decryption are the same counter-mode pass. *)
Definition crypt (key iv data : list byte) : list byte :=
  gctr key (inc32 1 (j0 key iv)) data.

Definition tag (key iv ciphertext : list byte) : list byte :=
  let s := ghash (hash_key key)
                 (blocks_of ciphertext ++ [bit_length ciphertext]) in
  gctr key (j0 key iv) (Bytes.of_num 16 s).

End Gcm.

(** ** Running JavaScript: outcomes, error messages, the world *)

(** The errors the platform raises by itself. *)
Inductive node_error : Type :=
| SyntaxError_json               (* [JSON.parse]: the text is not JSON *)
| TypeError_null_property        (* a property of [null] is read *)
| TypeError_buffer_argument      (* [Buffer.from]: neither string nor bytes *)
| TypeError_not_a_function       (* a value that is not callable is called *)
| TypeError_undefined_receiver   (* a method needs an object as [this] *)
| TypeError_to_primitive         (* an object has no callable [toString] *)
| RangeError_out_of_range        (* a numeric argument is out of range *)
| Error_string_too_long          (* a string beyond the longest the platform makes *)
| RangeError_invalid_key_length
| Error_invalid_iv
| Error_invalid_tag_length
| Error_unable_to_authenticate.  (* [decipher.final]: the tag does not match *)

(** The [message] of an error object: a text written in the source, the
    text the platform gives to one of its errors, or a template
    [`${prefix}${error.message}`]. *)
Inductive message : Type :=
| Text (s : string)
| Raised (e : node_error)
| Prefixed (prefix : string) (m : message).

(** [Unmodelled] marks a run that leaves the part of the platform described
    here ([Buffer.from] applied to an array or an object). *)
Inductive outcome (A : Type) : Type :=
| Returned (a : A)
| Threw (m : message)
| Unmodelled.

Arguments Returned {A} a.
Arguments Threw {A} m.
Arguments Unmodelled {A}.

Inductive cipher_name : Type := aes_256_gcm.
Inductive digest_name : Type := sha256.

Definition cipher_text (c : cipher_name) : string :=
  match c with aes_256_gcm => "aes-256-gcm" end.

(** The calls made to the [crypto] module, in order. *)
Inductive event : Type :=
| RandomBytes (size : Z)
| Pbkdf2Call (password salt : list byte) (iterations keylen : Z)
             (digest : digest_name)
| CipherCreated (algorithm : cipher_name) (key iv : list byte)
| DecipherCreated (algorithm : cipher_name) (key iv : list byte).

Record world : Type := mk_world
  { entropy : nat -> byte;   (* the bytes the random generator will give *)
    drawn : nat;             (* how many of them have been taken *)
    trace : list event }.

Definition M (A : Type) : Type := world -> outcome A * world.

Definition ret {A : Type} (a : A) : M A := fun w => (Returned a, w).

Definition throw {A : Type} (m : message) : M A := fun w => (Threw m, w).

Definition unmodelled {A : Type} : M A := fun w => (Unmodelled, w).

Definition bind {A B : Type} (m : M A) (k : A -> M B) : M B :=
  fun w =>
    match m w with
    | (Returned a, w') => k a w'
    | (Threw e, w') => (Threw e, w')
    | (Unmodelled, w') => (Unmodelled, w')
    end.

(** [try { body } catch (error) { handler error }] *)
Definition try_catch {A : Type} (body : M A) (handler : message -> M A) : M A :=
  fun w =>
    match body w with
    | (Threw e, w') => handler e w'
    | other => other
    end.

Definition emit (e : event) : M unit :=
  fun w => (Returned tt, mk_world (entropy w) (drawn w) (trace w ++ [e])).

Declare Scope js_scope.
Delimit Scope js_scope with js.
Notation "'let*' x ':=' m 'in' k" := (bind m (fun x => k))
  (at level 10, x pattern, m at level 100, k at level 200) : js_scope.
Notation "m ';;' k" := (bind m (fun _ => k))
  (at level 100, k at level 200, right associativity) : js_scope.

Definition decimal (z : Z) : string := NilZero.string_of_int (Z.to_int z).

Definition byte_length (b : list byte) : Z := Z.of_nat (List.length b).

(** ** The platform: [Buffer], property access, [crypto] *)

Module Node.

Local Open Scope js_scope.

(** [obj.name] for a value read by [JSON.parse] and a name that no
    prototype defines ([ciphertext], [salt], [iv], [tag]): the own
    property, or [undefined]. *)
Definition property (obj : Json.value) (name : list N)
  : M (option Json.value) :=
  match obj with
  | Json.Null => throw (Raised TypeError_null_property)
  | Json.Object members => ret (Json.member name members)
  | _ => ret None
  end.

(** [ToString] and [ToNumber] throw on an object that has a [toString] of
    its own - what [JSON.parse] reads is never callable - and on an array
    that holds such an object. *)
Fixpoint unprintable (v : Json.value) : bool :=
  match v with
  | Json.Object ms =>
      match Json.member (lit "toString") ms with
      | Some _ => true
      | None => false
      end
  | Json.Array items => existsb unprintable items
  | _ => false
  end.

(** [ToNumber] of the string that stands for [v] in the [join] of an
    array: nothing for [null], [join] again for an array. A number comes
    back from its string as it was. *)
Fixpoint text_number (v : Json.value) : Double.number :=
  match v with
  | Json.Null => Double.zero
  | Json.Bool _ => Double.NaN
  | Json.Number lexeme => Double.decimal_literal lexeme
  | Json.String s => Double.of_string s
  | Json.Array [] => Double.zero
  | Json.Array [x] => text_number x
  | Json.Array _ => Double.NaN
  | Json.Object _ => Double.NaN
  end.

(** [ToNumber(v)] where it does not throw. *)
Definition as_number (v : Json.value) : Double.number :=
  match v with
  | Json.Bool true => Double.one
  | Json.Bool false => Double.zero
  | _ => text_number v
  end.

(** The bytes a [Uint8Array] takes from a list of values. *)
Fixpoint elements (l : list Json.value) : outcome (list byte) :=
  match l with
  | [] => Returned []
  | v :: r =>
      if unprintable v then Threw (Raised TypeError_to_primitive)
      else
        match elements r with
        | Returned bs =>
            Returned (Bytes.of_N (Double.to_uint8 (as_number v)) :: bs)
        | other => other
        end
  end.

(** The values at the indices below [n] of an object; [null] gives the
    byte that [undefined] gives. *)
Definition indexed (ms : list (list N * Json.value)) (n : nat)
  : list Json.value :=
  map (fun k =>
         match Json.member (lit (decimal (Z.of_nat k))) ms with
         | Some v => v
         | None => Json.Null
         end)
      (seq 0 n).

Definition truthy (v : Json.value) : bool :=
  match v with
  | Json.Null => false
  | Json.Bool b => b
  | Json.Number lexeme =>
      match Double.decimal_literal lexeme with
      | Double.NaN => false
      | x => negb (Double.is_zero x)
      end
  | Json.String s => negb (units_eqb s [])
  | Json.Array _ | Json.Object _ => true
  end.

(** [fromObject(obj)], and the [TypeError] of [Buffer.from] when it gives
    nothing: an object with a [length] is read as an array, one with
    [type: 'Buffer'] and an array [data] as that array. For a [length] of
    4096 or more the platform allocates outside its pool, with an outcome
    that depends on the memory it can take: not described here. *)
Definition from_object (ms : list (list N * Json.value))
  : outcome (list byte) :=
  match Json.member (lit "length") ms with
  | Some (Json.Number lexeme) =>
      let n := Double.decimal_literal lexeme in
      if Double.not_positive n then Returned []
      else if Double.below 4096 n
      then match n with
           | Double.Finite negative m e =>
               elements (indexed ms (Z.to_nat (Double.truncate negative m e)))
           | _ => Returned []
           end
      else Unmodelled
  | Some _ => Returned []
  | None =>
      match Json.member (lit "type") ms, Json.member (lit "data") ms with
      | Some (Json.String t), Some (Json.Array items) =>
          if units_eqb t (lit "Buffer") then elements items
          else Threw (Raised TypeError_buffer_argument)
      | _, _ => Threw (Raised TypeError_buffer_argument)
      end
  end.

(** [Buffer.from(x, 'base64')] for [x] read by [JSON.parse], or
    [undefined]. A string is decoded; an array gives its elements as
    bytes; an object is asked for its [valueOf] first - which throws when
    the object has one of its own that is not falsy - and then read by
    [fromObject]; anything else is refused. *)
Definition buffer_from (x : option Json.value) : outcome (list byte) :=
  match x with
  | Some (Json.String s) => Returned (Base64.decode s)
  | Some (Json.Array items) => elements items
  | Some (Json.Object ms) =>
      match Json.member (lit "valueOf") ms with
      | Some v =>
          if truthy v then Threw (Raised TypeError_not_a_function)
          else
            match v with
            | Json.String _ => Returned []
            | _ => from_object ms
            end
      | None => from_object ms
      end
  | Some Json.Null | Some (Json.Bool _) | Some (Json.Number _) | None =>
      Threw (Raised TypeError_buffer_argument)
  end.

Definition Buffer_from_base64 (x : option Json.value) : M (list byte) :=
  fun w => (buffer_from x, w).

(** The longest string of the platform, [buffer.constants.MAX_STRING_LENGTH]. *)
Definition max_string_length : N := 536870888.

(** [buf.toString('hex')] *)
Definition toString_hex (b : list byte) : M (list N) :=
  if (max_string_length <? 2 * N.of_nat (List.length b))%N
  then throw (Raised Error_string_too_long)
  else ret (Hex.encode b).

(** [crypto.randomBytes(size)] *)
Definition randomBytes (size : Z) : M (list byte) :=
  fun w =>
    let w' := mk_world (entropy w) (drawn w) (trace w ++ [RandomBytes size]) in
    if ((size <? 0) || (2147483647 <? size))%Z
    then (Threw (Raised RangeError_out_of_range), w')
    else
      let n := Z.to_nat size in
      (Returned (map (entropy w) (seq (drawn w) n)),
       mk_world (entropy w) (drawn w + n) (trace w'))%nat.

Definition int32_from (low x : Z) : bool :=
  ((low <=? x) && (x <=? 2147483647))%Z.

(** [crypto.pbkdf2(password, salt, iterations, keylen, digest, callback)]:
    what the callback receives. A string password is taken in UTF-8. *)
Definition pbkdf2 (password : list N) (salt : list byte)
           (iterations keylen : Z) (digest : digest_name) : M (list byte) :=
  let pw := Utf8.encode password in
  emit (Pbkdf2Call pw salt iterations keylen digest) ;;
  if int32_from 1 iterations && int32_from 0 keylen
  then ret (Pbkdf2.derive_key pw salt (Z.to_N iterations) (Z.to_nat keylen))
  else throw (Raised RangeError_out_of_range).

(** A [Cipher] object of [aes-256-gcm]: its key, its nonce and the bytes
    given to [update] so far. The cipher takes a key of 32 bytes and a
    nonce of 1 to 128 bytes. *)
Record cipher : Type := mk_cipher
  { c_key : list byte; c_iv : list byte; c_fed : list byte }.

Definition createCipheriv (algorithm : cipher_name) (key iv : list byte)
  : M cipher :=
  emit (CipherCreated algorithm key iv) ;;
  if negb (List.length key =? 32)%nat
  then throw (Raised RangeError_invalid_key_length)
  else if ((List.length iv =? 0) || (128 <? List.length iv))%nat
  then throw (Raised Error_invalid_iv)
  else ret (mk_cipher key iv []).

(** [cipher.update(data)]: the bytes produced, and the object after. *)
Definition cipher_update (c : cipher) (data : list byte)
  : list byte * cipher :=
  let fed := c_fed c ++ data in
  (skipn (List.length (c_fed c)) (Gcm.crypt (c_key c) (c_iv c) fed),
   mk_cipher (c_key c) (c_iv c) fed).

(** [cipher.final()]: counter mode holds nothing back. *)
Definition cipher_final (c : cipher) : list byte := [].

(** [cipher.getAuthTag()], after [final]. *)
Definition cipher_getAuthTag (c : cipher) : list byte :=
  Gcm.tag (c_key c) (c_iv c) (Gcm.crypt (c_key c) (c_iv c) (c_fed c)).

(** A [Decipher] object: also the expected tag, once set. *)
Record decipher : Type := mk_decipher
  { d_key : list byte; d_iv : list byte; d_tag : option (list byte);
    d_fed : list byte }.

Definition createDecipheriv (algorithm : cipher_name) (key iv : list byte)
  : M decipher :=
  emit (DecipherCreated algorithm key iv) ;;
  if negb (List.length key =? 32)%nat
  then throw (Raised RangeError_invalid_key_length)
  else if ((List.length iv =? 0) || (128 <? List.length iv))%nat
  then throw (Raised Error_invalid_iv)
  else ret (mk_decipher key iv None []).

Definition valid_tag_length (n : nat) : bool :=
  existsb (Nat.eqb n) [4; 8; 12; 13; 14; 15; 16]%nat.

(** [decipher.setAuthTag(tag)] *)
Definition decipher_setAuthTag (d : decipher) (tag : list byte) : M decipher :=
  if valid_tag_length (List.length tag)
  then ret (mk_decipher (d_key d) (d_iv d) (Some tag) (d_fed d))
  else throw (Raised Error_invalid_tag_length).

(** [decipher.update(data)]: the bytes are deciphered at once, before the
    tag is checked. *)
Definition decipher_update (d : decipher) (data : list byte)
  : list byte * decipher :=
  let fed := d_fed d ++ data in
  (skipn (List.length (d_fed d)) (Gcm.crypt (d_key d) (d_iv d) fed),
   mk_decipher (d_key d) (d_iv d) (d_tag d) fed).

(** [decipher.final()]: recomputes the tag of the bytes received and
    raises when it differs from the expected one. *)
Definition decipher_final (d : decipher) : M (list byte) :=
  match d_tag d with
  | Some t =>
      if Bytes.equal (firstn (List.length t) (Gcm.tag (d_key d) (d_iv d) (d_fed d))) t
      then ret []
      else throw (Raised Error_unable_to_authenticate)
  | None => throw (Raised Error_unable_to_authenticate)
  end.

End Node.

(** ** [encryption/encryption.js] *)

Module Encryption.

Local Open Scope js_scope.

Record config : Type := mk_config
  { algorithm : cipher_name;
    keyLength : Z;
    ivLength : Z;
    tagLength : Z;
    saltLength : Z;
    pbkdf2Iterations : Z;
    pbkdf2Digest : digest_name }.

Definition ENCRYPTION_CONFIG : config :=
  {| algorithm := aes_256_gcm;
     keyLength := 32;
     ivLength := 16;
     tagLength := 16;
     saltLength := 32;
     pbkdf2Iterations := 100000;
     pbkdf2Digest := sha256 |}.

(** [{ key, salt }] *)
Record derived : Type := mk_derived
  { dk_key : list byte; dk_salt : list byte }.

(** [salt = null] is [None]; a [Buffer], even an empty one, is truthy. *)
Definition deriveKeyFromPassword (password : list N)
           (salt : option (list byte)) : M derived :=
  let* salt :=
    match salt with
    | None => Node.randomBytes (saltLength ENCRYPTION_CONFIG)
    | Some s => ret s
    end in
  let* derivedKey :=
    Node.pbkdf2 password salt
                (pbkdf2Iterations ENCRYPTION_CONFIG)
                (keyLength ENCRYPTION_CONFIG)
                (pbkdf2Digest ENCRYPTION_CONFIG) in
  ret (mk_derived derivedKey salt).

(** [data] is a string or a [Buffer]. *)
Inductive payload_data : Type :=
| StringData (s : list N)
| BufferData (b : list byte).

(** [{ ciphertext, iv, tag, algorithm }] *)
Record encrypted : Type := mk_encrypted
  { e_ciphertext : list byte; e_iv : list byte; e_tag : list byte;
    e_algorithm : cipher_name }.

(** [!x || x.length !== n] *)
Definition missing_or_not (n : Z) (x : option (list byte)) : bool :=
  match x with
  | None => true
  | Some b => negb (byte_length b =? n)%Z
  end.

Definition bytes_of (x : option (list byte)) : list byte :=
  match x with
  | Some b => b
  | None => []
  end.

Definition encryptData (data : payload_data) (key : option (list byte))
           (iv : option (list byte)) : M encrypted :=
  if missing_or_not (keyLength ENCRYPTION_CONFIG) key
  then throw (Text ("Key must be " ++ decimal (keyLength ENCRYPTION_CONFIG)
                  ++ " bytes")%string)
  else
    let key := bytes_of key in
    let* iv :=
      match iv with
      | None => Node.randomBytes (ivLength ENCRYPTION_CONFIG)
      | Some v => ret v
      end in
    let* cipher := Node.createCipheriv (algorithm ENCRYPTION_CONFIG) key iv in
    let dataBuffer :=
      match data with
      | StringData s => Utf8.encode s
      | BufferData b => b
      end in
    let (ciphertext, cipher) := Node.cipher_update cipher dataBuffer in
    let ciphertext := ciphertext ++ Node.cipher_final cipher in
    let tag := Node.cipher_getAuthTag cipher in
    ret (mk_encrypted ciphertext iv tag (algorithm ENCRYPTION_CONFIG)).

Definition decryptData (ciphertext : list byte) (key iv tag : option (list byte))
  : M (list N) :=
  if missing_or_not (keyLength ENCRYPTION_CONFIG) key
  then throw (Text ("Key must be " ++ decimal (keyLength ENCRYPTION_CONFIG)
                  ++ " bytes")%string)
  else if missing_or_not (ivLength ENCRYPTION_CONFIG) iv
  then throw (Text ("IV must be " ++ decimal (ivLength ENCRYPTION_CONFIG)
                  ++ " bytes")%string)
  else if missing_or_not (tagLength ENCRYPTION_CONFIG) tag
  then throw (Text ("Tag must be " ++ decimal (tagLength ENCRYPTION_CONFIG)
                  ++ " bytes")%string)
  else
    let* decipher :=
      Node.createDecipheriv (algorithm ENCRYPTION_CONFIG)
                            (bytes_of key) (bytes_of iv) in
    let* decipher := Node.decipher_setAuthTag decipher (bytes_of tag) in
    let (plaintext, decipher) := Node.decipher_update decipher ciphertext in
    let* last := Node.decipher_final decipher in
    let plaintext := plaintext ++ last in
    ret (Utf8.decode plaintext).

(** [{ encrypted, iv, tag, salt, algorithm }] *)
Record sealed : Type := mk_sealed
  { s_encrypted : list byte; s_iv : list byte; s_tag : list byte;
    s_salt : list byte; s_algorithm : cipher_name }.

Definition encryptWithPassword (data : payload_data) (password : list N)
  : M sealed :=
  try_catch
    (let* d := deriveKeyFromPassword password None in
     let* e := encryptData data (Some (dk_key d)) None in
     ret (mk_sealed (e_ciphertext e) (e_iv e) (e_tag e) (dk_salt d)
                    (algorithm ENCRYPTION_CONFIG)))
    (fun error => throw (Prefixed "Encryption failed: "%string error)).

Definition decryptWithPassword (ciphertext : list byte) (password : list N)
           (salt iv tag : list byte) : M (list N) :=
  try_catch
    (let* d := deriveKeyFromPassword password (Some salt) in
     let* plaintext :=
       decryptData ciphertext (Some (dk_key d)) (Some iv) (Some tag) in
     ret plaintext)
    (fun error => throw (Prefixed "Decryption failed: "%string error)).

(** [{ payload, metadata: { algorithm, iterations } }] *)
Record export : Type := mk_export
  { payload : list N; meta_algorithm : cipher_name; meta_iterations : Z }.

(** The object given to [JSON.stringify]. *)
Definition envelope (salt iv tag ciphertext : list byte)
           (alg : cipher_name) (iterations : Z) : Json.value :=
  Json.Object
    [(lit "salt", Json.String (Base64.encode salt));
     (lit "iv", Json.String (Base64.encode iv));
     (lit "tag", Json.String (Base64.encode tag));
     (lit "ciphertext", Json.String (Base64.encode ciphertext));
     (lit "algorithm", Json.String (lit (cipher_text alg)));
     (lit "iterations", Json.Number (lit (decimal iterations)))].

Definition encryptCSVData (csvData : list N) (password : list N) : M export :=
  try_catch
    (let* s := encryptWithPassword (StringData csvData) password in
     let payload :=
       Json.stringify
         (envelope (s_salt s) (s_iv s) (s_tag s) (s_encrypted s)
                   (algorithm ENCRYPTION_CONFIG)
                   (pbkdf2Iterations ENCRYPTION_CONFIG)) in
     ret (mk_export payload (algorithm ENCRYPTION_CONFIG)
                    (pbkdf2Iterations ENCRYPTION_CONFIG)))
    (fun error => throw (Prefixed "CSV encryption failed: "%string error)).

Definition JSON_parse (text : list N) : M Json.value :=
  match Json.parse text with
  | Some v => ret v
  | None => throw (Raised SyntaxError_json)
  end.

Definition decryptCSVData (payload : list N) (password : list N) : M (list N) :=
  try_catch
    (let* data := JSON_parse payload in
     let* ciphertext :=
       (let* x := Node.property data (lit "ciphertext") in
        Node.Buffer_from_base64 x) in
     let* salt :=
       (let* x := Node.property data (lit "salt") in
        Node.Buffer_from_base64 x) in
     let* iv :=
       (let* x := Node.property data (lit "iv") in
        Node.Buffer_from_base64 x) in
     let* tag :=
       (let* x := Node.property data (lit "tag") in
        Node.Buffer_from_base64 x) in
     let* csvData := decryptWithPassword ciphertext password salt iv tag in
     ret csvData)
    (fun error => throw (Prefixed "CSV decryption failed: "%string error)).

(** [length = 32] is [None]. *)
Definition generateSecurePassword (length : option Z) : M (list N) :=
  let length :=
    match length with
    | None => 32%Z
    | Some n => n
    end in
  let* bytes := Node.randomBytes length in
  Node.toString_hex bytes.

(** [open(seal(P, W1), W2)]: the text sealed under [W1], opened with [W2]. *)
Definition seal_then_open (csvData W1 W2 : list N) : M (list N) :=
  let* sealed := encryptCSVData csvData W1 in
  decryptCSVData (payload sealed) W2.

End Encryption.

(** A world to run examples in: nothing drawn, nothing called yet, and a
    generator that counts. *)
Definition initial_world : world :=
  mk_world (fun n => Bytes.of_N (N.of_nat n)) 0 [].

(** ** [backend/server.js] *)

Module Server.

Local Open Scope js_scope.

Record address_data : Type := mk_address
  { apt_unit : list N;
    address_line_1 : list N;
    address_line_2 : list N;
    street : list N;
    city : list N;
    state_province : list N;
    country : list N;
    postal_code : list N }.

Record billing : Type := mk_billing
  { card_number : list N;
    expiry_date : list N;
    cvv : list N;
    address : address_data }.

Definition mockBillingData : billing :=
  {| card_number := lit "4532-1111-2222-3333";
     expiry_date := lit "12/25";
     cvv := lit "***";
     address :=
       {| apt_unit := lit "Suite 100";
          address_line_1 := lit "123 Main Street";
          address_line_2 := lit "Building A";
          street := lit "Main Street";
          city := lit "San Francisco";
          state_province := lit "CA";
          country := lit "United States";
          postal_code := lit "94105" |} |}.

(** The own properties of [fieldMap]. *)
Definition fieldMap (data : billing) : list (string * (unit -> list N)) :=
  [("apt_unit", fun _ => apt_unit (address data));
   ("address_line_1", fun _ => address_line_1 (address data));
   ("address_line_2", fun _ => address_line_2 (address data));
   ("street", fun _ => street (address data));
   ("city", fun _ => city (address data));
   ("state_province", fun _ => state_province (address data));
   ("country", fun _ => country (address data));
   ("postal_code", fun _ => postal_code (address data));
   ("card_number", fun _ => card_number data);
   ("expiry_date", fun _ => expiry_date data);
   ("cvv", fun _ => lit "***")]%string.

(** What an object literal inherits from [Object.prototype]. *)
Inductive inherited : Type :=
| proto_constructor
| proto_proto                 (* [__proto__]: the prototype object itself *)
| proto_toString
| proto_toLocaleString
| proto_valueOf
| proto_hasOwnProperty
| proto_isPrototypeOf
| proto_propertyIsEnumerable
| proto_defineGetter
| proto_defineSetter
| proto_lookupGetter
| proto_lookupSetter.

Definition Object_prototype : list (string * inherited) :=
  [("constructor", proto_constructor);
   ("__proto__", proto_proto);
   ("toString", proto_toString);
   ("toLocaleString", proto_toLocaleString);
   ("valueOf", proto_valueOf);
   ("hasOwnProperty", proto_hasOwnProperty);
   ("isPrototypeOf", proto_isPrototypeOf);
   ("propertyIsEnumerable", proto_propertyIsEnumerable);
   ("__defineGetter__", proto_defineGetter);
   ("__defineSetter__", proto_defineSetter);
   ("__lookupGetter__", proto_lookupGetter);
   ("__lookupSetter__", proto_lookupSetter)]%string.

(** The result of [fieldMap[field]]. *)
Inductive slot : Type :=
| Own (getter : unit -> list N)
| Inherited (p : inherited)
| Undefined.

Fixpoint find {A : Type} (name : list N) (l : list (string * A)) : option A :=
  match l with
  | [] => None
  | (k, v) :: r => if units_eqb name (lit k) then Some v else find name r
  end.

Definition lookup (data : billing) (field : list N) : slot :=
  match find field (fieldMap data) with
  | Some g => Own g
  | None =>
      match find field Object_prototype with
      | Some p => Inherited p
      | None => Undefined
      end
  end.

(** The values an entry of the data row can be. *)
Inductive cell : Type :=
| StringCell (s : list N)
| BooleanCell (b : bool)
| ObjectCell.                 (* a plain object *)

(** [getter()] for an inherited member, called without receiver and
    without argument. *)
Definition call_inherited (p : inherited) : outcome cell :=
  match p with
  | proto_constructor => Returned ObjectCell
  | proto_proto => Threw (Raised TypeError_not_a_function)
  | proto_toString => Returned (StringCell (lit "[object Undefined]"))
  | proto_isPrototypeOf => Returned (BooleanCell false)
  | proto_toLocaleString | proto_valueOf | proto_hasOwnProperty
  | proto_propertyIsEnumerable | proto_defineGetter | proto_defineSetter
  | proto_lookupGetter | proto_lookupSetter =>
      Threw (Raised TypeError_undefined_receiver)
  end.

Definition comma : N := 44.

Definition includes (c : N) (s : list N) : bool := existsb (N.eqb c) s.

(** The [replace] of the source: every quote mark is written twice. *)
Definition double_quotes (s : list N) : list N :=
  flat_map (fun c => if c =? Json.quote_mark then [c; c] else [c]) s.

Definition escape (v : cell) : cell :=
  match v with
  | StringCell s =>
      if includes comma s || includes Json.quote_mark s
      then StringCell (Json.quote_mark :: double_quotes s ++ [Json.quote_mark])
      else v
  | _ => v
  end.

(** The entry of one selected field. *)
Definition entry (data : billing) (field : list N) : outcome cell :=
  match lookup data field with
  | Undefined => Returned (StringCell [])
  | Own getter => Returned (escape (StringCell (getter tt)))
  | Inherited p =>
      match call_inherited p with
      | Returned v => Returned (escape v)
      | other => other
      end
  end.

(** How [join] writes an entry. *)
Definition to_string (v : cell) : list N :=
  match v with
  | StringCell s => s
  | BooleanCell true => lit "true"
  | BooleanCell false => lit "false"
  | ObjectCell => lit "[object Object]"
  end.

(** [array.join(',')] *)
Fixpoint join (l : list (list N)) : list N :=
  match l with
  | [] => []
  | [x] => x
  | x :: r => x ++ comma :: join r
  end.

(** [fields.map(...)]: the first entry that throws ends the loop. *)
Fixpoint entries (data : billing) (fields : list (list N))
  : outcome (list cell) :=
  match fields with
  | [] => Returned []
  | f :: r =>
      match entry data f with
      | Returned v =>
          match entries data r with
          | Returned vs => Returned (v :: vs)
          | other => other
          end
      | Threw m => Threw m
      | Unmodelled => Unmodelled
      end
  end.

Definition buildCSVData (data : billing) (fields : list (list N))
  : outcome (list N) :=
  let headers := join fields in
  match entries data fields with
  | Returned vs => Returned (headers ++ 10 :: join (map to_string vs))
  | Threw m => Threw m
  | Unmodelled => Unmodelled
  end.

(** The response of a route: its status and the part of its body that
    does not depend on the clock. *)
Inductive response : Type :=
| Exported (encrypted : list N) (algorithm : cipher_name) (iterations : Z)
| Decrypted (data : list N)
| Status400 (error : string)
| Status500 (error : string).

Definition lift {A : Type} (o : outcome A) : M A := fun w => (o, w).

(** [POST /api/billing/export-encrypted-csv] with a string [password] and
    an array of strings [fields]. *)
Definition export_encrypted_csv (password : list N) (fields : list (list N))
  : M response :=
  try_catch
    (if (units_eqb password [] || (List.length password <? 8)%nat)
     then ret (Status400 "Password must be at least 8 characters")
     else if (List.length fields =? 0)%nat
     then ret (Status400 "At least one field must be selected for export")
     else
       let* csvData := lift (buildCSVData mockBillingData fields) in
       let* e := Encryption.encryptCSVData csvData password in
       ret (Exported (Encryption.payload e) (Encryption.meta_algorithm e)
                     (Encryption.meta_iterations e)))
    (fun _ => ret (Status500 "Failed to encrypt CSV data")).

(** [POST /api/billing/decrypt-csv] with strings [payload] and [password]. *)
Definition decrypt_csv (payload password : list N) : M response :=
  try_catch
    (if units_eqb payload [] || units_eqb password []
     then ret (Status400 "Payload and password are required")
     else
       let* csvData := Encryption.decryptCSVData payload password in
       ret (Decrypted csvData))
    (fun _ =>
       ret (Status400 "Decryption failed - invalid password or corrupted data")).

End Server.

(** ** [frontend/vanilla/pba-script.js] *)

Module Script.

(** [lines[1].split] when [lines[1]] is [undefined]. *)
Inductive failure : Type :=
| TypeError_undefined_split.

(** The arrays [headers] and [values] of [displayDecryptedCSV]. *)
Definition rows (csvData : list N)
  : failure + list (list N) * list (list N) :=
  let lines := Text.split Text.line_feed csvData in
  match lines with
  | first :: second :: _ =>
      inr (Text.split Server.comma first, Text.split Server.comma second)
  | _ => inl TypeError_undefined_split
  end.

Definition th (h : list N) : list N :=
  lit "<th>" ++ Text.trim h ++ lit "</th>".

Definition td (v : list N) : list N :=
  lit "<td>" ++ Text.trim v ++ lit "</td>".

(** [displayDecryptedCSV(csvData)]: the [innerHTML] of the element added to
    the page. *)
Definition displayDecryptedCSV (csvData : list N) : failure + list N :=
  match rows csvData with
  | inl e => inl e
  | inr (headers, values) =>
      let html :=
        lit "<div class=" ++ Json.quote_mark :: lit "decrypted-data"
        ++ Json.quote_mark :: lit "><table><tr>" in
      let html := fold_left (fun html h => html ++ th h) headers html in
      let html := html ++ lit "</tr><tr>" in
      let html := fold_left (fun html v => html ++ td v) values html in
      inr (html ++ lit "</tr></table></div>")
  end.

(** [downloadEncryptedCSV(payload, fields)]: the text [dataStr] of the file
    offered, [JSON.stringify(payload, null, 2)] of the string the export
    route answered in [encrypted]. *)
Definition downloadEncryptedCSV (payload : list N) : list N :=
  Json.stringify (Json.String payload).

End Script.

(** ** [frontend/react/PBAComponent.tsx] *)

Module Component.

(** The first value of [selectedFields]. *)
Definition selectedFields : list (list N) :=
  [lit "address_line_1"; lit "city"; lit "state_province";
   lit "postal_code"].

(** The update [toggleFieldSelection(field)] applies to [prev]. *)
Definition toggleFieldSelection (field : list N) (prev : list (list N))
  : list (list N) :=
  if existsb (units_eqb field) prev
  then filter (fun f => negb (units_eqb f field)) prev
  else prev ++ [field].

End Component.

(** ** Vocabulary of the properties

    Names for what the functions above compute, in which the properties
    below are stated. *)

Module Terms.

Import Encryption Server.

(** The bytes [Buffer.from(s, 'utf-8')] gives for a literal. *)
Definition ascii_bytes (s : string) : list byte := Utf8.encode (lit s).

(** The bytes 0, 1, 2, ... used as key and nonce in the examples. *)
Definition counting_key : list byte :=
  Bytes.of_num 32
    0x000102030405060708090a0b0c0d0e0f101112131415161718191a1b1c1d1e1f.

Definition counting_iv : list byte :=
  Bytes.of_num 16 0x000102030405060708090a0b0c0d0e0f.

(** The world after [n] more random bytes and the calls [events]. *)
Definition after (w : world) (n : nat) (events : list event) : world :=
  mk_world (entropy w) (drawn w + n) (trace w ++ events).

(** The next [n] bytes of the generator, [skip] bytes ahead. *)
Definition fresh (w : world) (skip n : nat) : list byte :=
  map (entropy w) (seq (drawn w + skip) n).

(** The key [deriveKeyFromPassword] computes for a password and a salt. *)
Definition key_of (password : list N) (salt : list byte) : list byte :=
  Pbkdf2.derive_key (Utf8.encode password) salt 100000 32.

(** The record that call leaves in the trace. *)
Definition derivation (password : list N) (salt : list byte) : event :=
  Pbkdf2Call (Utf8.encode password) salt 100000 32 sha256.

(** What [encryptData] returns for a key and a nonce. *)
Definition sealed_with (key iv data : list byte) : encrypted :=
  mk_encrypted (Gcm.crypt key iv data) iv
               (Gcm.tag key iv (Gcm.crypt key iv data)) aes_256_gcm.

(** The bytes [cipher.update(data, 'utf-8')] enciphers. *)
Definition data_bytes (data : payload_data) : list byte :=
  match data with
  | StringData s => Utf8.encode s
  | BufferData b => b
  end.

(** The outcome of [decryptData] once the three lengths are right. *)
Definition opened_with (key iv tag ciphertext : list byte)
  : outcome (list N) :=
  if Bytes.equal (Gcm.tag key iv ciphertext) tag
  then Returned (Utf8.decode (Gcm.crypt key iv ciphertext))
  else Threw (Raised Error_unable_to_authenticate).

(** [catch (error) { throw new Error(prefix + error.message) }] on an
    outcome. *)
Definition rethrow {A : Type} (prefix : string) (o : outcome A) : outcome A :=
  match o with
  | Threw m => Threw (Prefixed prefix m)
  | other => other
  end.

(** The salt and the nonce [encryptWithPassword] draws in the world [w]. *)
Definition salt_in (w : world) : list byte := fresh w 0 32.
Definition iv_in (w : world) : list byte := fresh w 32 16.

(** The crypto calls of one [encryptWithPassword], in order. *)
Definition sealing_trace (password : list N) (w : world) : list event :=
  [RandomBytes 32; derivation password (salt_in w); RandomBytes 16;
   CipherCreated aes_256_gcm (key_of password (salt_in w)) (iv_in w)].

(** The text [encryptCSVData] produces in the world [w]. *)
Definition sealed_text (csvData password : list N) (w : world) : list N :=
  let key := key_of password (salt_in w) in
  let e := sealed_with key (iv_in w) (Utf8.encode csvData) in
  Json.stringify
    (envelope (salt_in w) (e_iv e) (e_tag e) (e_ciphertext e)
              aes_256_gcm 100000).

(** [Buffer.from(data[name], 'base64')], which leaves the world as it is. *)
Definition buffer_of (x : option Json.value) : outcome (list byte) :=
  Node.buffer_from x.

(** [Buffer.from(data.name, 'base64')] for the parsed [data]. *)
Definition read_field (data : Json.value) (name : string)
  : outcome (list byte) :=
  match data with
  | Json.Null => Threw (Raised TypeError_null_property)
  | Json.Object members => buffer_of (Json.member (lit name) members)
  | _ => buffer_of None
  end.

(** The four buffers of an envelope, read in the order of the source. *)
Record fields : Type := mk_fields
  { f_ciphertext : list byte; f_salt : list byte; f_iv : list byte;
    f_tag : list byte }.

(** The four reads of [decryptCSVData]; the first that throws wins. *)
Definition read_fields (data : Json.value) : outcome fields :=
  match read_field data "ciphertext" with
  | Returned c =>
      match read_field data "salt" with
      | Returned s =>
          match read_field data "iv" with
          | Returned i =>
              match read_field data "tag" with
              | Returned t => Returned (mk_fields c s i t)
              | Threw m => Threw m
              | Unmodelled => Unmodelled
              end
          | Threw m => Threw m
          | Unmodelled => Unmodelled
          end
      | Threw m => Threw m
      | Unmodelled => Unmodelled
      end
  | Threw m => Threw m
  | Unmodelled => Unmodelled
  end.

(** The error with which [decryptCSVData] reports a tag that does not
    verify: the spec's [AuthenticationError]. *)
Definition authentication_failure : message :=
  Prefixed "CSV decryption failed: "
    (Prefixed "Decryption failed: " (Raised Error_unable_to_authenticate)).

(** The outcome of opening a well-shaped envelope with a key. *)
Definition verdict (key iv tag ciphertext : list byte) : outcome (list N) :=
  if Bytes.equal (Gcm.tag key iv ciphertext) tag
  then Returned (Utf8.decode (Gcm.crypt key iv ciphertext))
  else Threw authentication_failure.

(** An envelope that records one iteration. *)
Definition one_iteration : Json.value :=
  envelope (Bytes.zeros 32) (Bytes.zeros 16) (Bytes.zeros 16) []
           aes_256_gcm 1.

(** The names of the fields [decryptCSVData] reads. *)
Definition byte_fields : list string := ["ciphertext"; "salt"; "iv"; "tag"]%string.

(** The field is there and is a string. *)
Definition is_text (x : option Json.value) : bool :=
  match x with
  | Some (Json.String _) => true
  | _ => false
  end.

(** The field is missing, or is [null], a boolean or a number. *)
Definition is_refused (x : option Json.value) : bool :=
  match x with
  | None | Some Json.Null | Some (Json.Bool _) | Some (Json.Number _) => true
  | _ => false
  end.

(** Of the fields [names], in this order, the first that is not a string
    is missing, [null], a boolean or a number. *)
Fixpoint first_other_refused (ms : list (list N * Json.value))
         (names : list string) : bool :=
  match names with
  | [] => false
  | n :: r =>
      if is_text (Json.member (lit n) ms) then first_other_refused ms r
      else is_refused (Json.member (lit n) ms)
  end.

(** A text is malformed when it is not JSON, or is JSON but not an object
    - [null], a boolean, a number, a string, an array: every field is
    missing then - or is an object in which the first of the four byte
    fields, in the order they are read, that is not a string is missing or
    is [null], a boolean or a number. *)
Definition malformed (payload : list N) : bool :=
  match Json.parse payload with
  | None => true
  | Some (Json.Object ms) => first_other_refused ms byte_fields
  | Some _ => true
  end.

(** The four byte fields are strings. *)
Definition all_text (ms : list (list N * Json.value)) : bool :=
  forallb (fun n => is_text (Json.member (lit n) ms)) byte_fields.

(** An envelope without its [iv], [tag] and [ciphertext]. *)
Definition salt_only : Json.value :=
  Json.Object [(lit "salt", Json.String (lit "AAAA"))].

(** An envelope whose [iv] is not base64: [@] is outside the alphabet. *)
Definition bad_base64 : Json.value :=
  Json.Object
    [(lit "salt", Json.String (lit "AAAA"));
     (lit "iv", Json.String (lit "@@@@"));
     (lit "tag", Json.String (lit "AAAA"));
     (lit "ciphertext", Json.String (lit "AAAA"))].

(** The record [data] with another stored CVV. *)
Definition with_cvv (data : billing) (v : list N) : billing :=
  mk_billing (card_number data) (expiry_date data) v (address data).

(** *** Further vocabulary *)

(** The four buffers [decryptCSVData] reads from a text, when the text
    parses and the four can be read. *)
Definition fields_of (payload : list N) : option fields :=
  match Json.parse payload with
  | Some data =>
      match read_fields data with
      | Returned f => Some f
      | _ => None
      end
  | None => None
  end.

(** An object whose own [length] is a number of 4096 or more: the one
    argument of [Buffer.from] that is read outside the pool. *)
Definition oversized (x : option Json.value) : bool :=
  match x with
  | Some (Json.Object ms) =>
      match Json.member (lit "length") ms with
      | Some (Json.Number lexeme) =>
          negb (Double.below 4096 (Double.decimal_literal lexeme))
      | _ => false
      end
  | _ => false
  end.

(** A buffer with its bit [i] flipped; bit 0 is the lowest bit of the
    first byte. *)
Fixpoint flip_bit (i : nat) (bs : list byte) : list byte :=
  match bs with
  | [] => []
  | b :: r =>
      if (i <? 8)%nat then Bytes.xor b (Bytes.of_N (2 ^ N.of_nat i)) :: r
      else b :: flip_bit (i - 8) r
  end.

(** A lower-case hexadecimal digit. *)
Definition is_hex (c : N) : bool :=
  ((48 <=? c) && (c <=? 57)) || ((97 <=? c) && (c <=? 102)).

(** A printable ASCII character. *)
Definition printable (c : N) : bool := (32 <=? c) && (c <=? 126).

(** The calls of [crypto] that draw random bytes or set up encryption. *)
Definition draws_or_enciphers (e : event) : bool :=
  match e with
  | RandomBytes _ | CipherCreated _ _ _ => true
  | Pbkdf2Call _ _ _ _ _ | DecipherCreated _ _ _ => false
  end.

(** The bytes of [one_iteration] in an object of another shape: a member
    more, another order, another [algorithm], no [iterations]. *)
Definition relabelled : Json.value :=
  Json.Object
    [(lit "note", Json.String (lit "moved"));
     (lit "tag", Json.String (Base64.encode (Bytes.zeros 16)));
     (lit "ciphertext", Json.String []);
     (lit "algorithm", Json.String (lit "rot13"));
     (lit "iv", Json.String (Base64.encode (Bytes.zeros 16)));
     (lit "salt", Json.String (Base64.encode (Bytes.zeros 32)))].

(** What [buildCSVData] writes in the data row for a field that is a key
    of [fieldMap]; the empty string for any other. *)
Definition cell_text (data : billing) (field : list N) : list N :=
  match find field (fieldMap data) with
  | Some getter => to_string (escape (StringCell (getter tt)))
  | None => []
  end.

(** How often a character occurs in a string. *)
Definition occurrences (c : N) (s : list N) : nat :=
  List.length (filter (N.eqb c) s).

End Terms.

(** * Properties *)

(** Linear arithmetic with quotients and remainders by constants. *)
Ltac dlia := zify; Z.to_euclidean_division_equations; lia.

Ltac to_props :=
  unfold Utf8.within, Utf8.is_high, Utf8.is_low in *;
  repeat match goal with
    | H : _ && _ = true |- _ => apply andb_true_iff in H; destruct H
    | H : _ || _ = false |- _ => apply orb_false_iff in H; destruct H
    | H : negb _ = true |- _ => apply negb_true_iff in H
    | H : negb _ = false |- _ => apply negb_false_iff in H
    | H : (_ <=? _) = true |- _ => apply N.leb_le in H
    | H : (_ <=? _) = false |- _ => apply N.leb_gt in H
    | H : (_ <? _) = true |- _ => apply N.ltb_lt in H
    | H : (_ <? _) = false |- _ => apply N.ltb_ge in H
    | H : (_ =? _) = true |- _ => apply N.eqb_eq in H
    | H : (_ =? _) = false |- _ => apply N.eqb_neq in H
    end.


(** Decides the tests of the goal one after the other. *)
Ltac split_tests :=
  repeat match goal with
    | |- context [if ?b then _ else _] =>
        let E := fresh "E" in destruct b eqn:E; to_props; try lia
    end.

(** ** Bytes *)

Module BytesFacts.

Lemma to_N_lt (b : byte) : Byte.to_N b < 256.
Proof. pose proof (Byte.to_N_bounded b). lia. Qed.

Lemma to_N_of_N (n : N) : n < 256 -> Byte.to_N (Bytes.of_N n) = n.
Proof.
  intro H. unfold Bytes.of_N. rewrite N.mod_small by exact H.
  destruct (Byte.of_N n) as [b|] eqn:E.
  - apply Byte.to_of_N in E. exact E.
  - apply Byte.of_N_None_iff in E. lia.
Qed.

Lemma of_N_to_N (b : byte) : Bytes.of_N (Byte.to_N b) = b.
Proof.
  unfold Bytes.of_N. rewrite N.mod_small by apply to_N_lt.
  now rewrite Byte.of_to_N.
Qed.

Lemma to_N_inj (a b : byte) : Byte.to_N a = Byte.to_N b -> a = b.
Proof.
  intro H. rewrite <- (of_N_to_N a), <- (of_N_to_N b). now rewrite H.
Qed.

Lemma lxor_lt_256 (x y : N) : x < 256 -> y < 256 -> N.lxor x y < 256.
Proof.
  intros Hx Hy.
  destruct (N.eq_dec (N.lxor x y) 0) as [E|E]; [rewrite E; lia|].
  change 256 with (2 ^ 8). apply N.log2_lt_pow2; [lia|].
  eapply N.le_lt_trans; [apply N.log2_lxor|].
  apply N.max_lub_lt.
  - destruct (N.eq_dec x 0) as [->|]; [reflexivity|].
    apply N.log2_lt_pow2; [lia|exact Hx].
  - destruct (N.eq_dec y 0) as [->|]; [reflexivity|].
    apply N.log2_lt_pow2; [lia|exact Hy].
Qed.

Lemma xor_cancel (a b : byte) : Bytes.xor (Bytes.xor a b) b = a.
Proof.
  unfold Bytes.xor.
  rewrite to_N_of_N by (apply lxor_lt_256; apply to_N_lt).
  rewrite N.lxor_assoc, N.lxor_nilpotent, N.lxor_0_r.
  apply of_N_to_N.
Qed.

Lemma eqb_eq (a b : byte) : Bytes.eqb a b = true <-> a = b.
Proof.
  unfold Bytes.eqb. rewrite N.eqb_eq. split.
  - apply to_N_inj.
  - now intros ->.
Qed.

Lemma equal_eq (x y : list byte) : Bytes.equal x y = true <-> x = y.
Proof.
  revert y. induction x as [|a x IH]; intros [|b y]; simpl;
    try (split; [discriminate|discriminate]); [tauto|].
  rewrite andb_true_iff, eqb_eq, IH. split.
  - now intros [-> ->].
  - intro H; inversion H; auto.
Qed.

Lemma equal_refl (x : list byte) : Bytes.equal x x = true.
Proof. now apply equal_eq. Qed.

Lemma equal_neq (x y : list byte) : x <> y -> Bytes.equal x y = false.
Proof.
  intro H. destruct (Bytes.equal x y) eqn:E; [|reflexivity].
  apply equal_eq in E. contradiction.
Qed.

Lemma xor_with_length (x y : list byte) :
  List.length (Bytes.xor_with x y) = Nat.min (List.length x) (List.length y).
Proof.
  revert y. induction x as [|a x IH]; intros [|b y]; simpl; auto.
Qed.

Lemma xor_with_cancel (x k : list byte) :
  (List.length x <= List.length k)%nat ->
  Bytes.xor_with (Bytes.xor_with x k) k = x.
Proof.
  revert k. induction x as [|a x IH]; intros [|b k] H; simpl in *;
    try reflexivity; try lia.
  rewrite xor_cancel, IH by lia. reflexivity.
Qed.

Lemma of_num_length (len : nat) (n : N) :
  List.length (Bytes.of_num len n) = len.
Proof.
  revert n. induction len as [|k IH]; intro n; simpl; [reflexivity|].
  rewrite length_app, IH. simpl. lia.
Qed.

Lemma zeros_length (n : nat) : List.length (Bytes.zeros n) = n.
Proof. apply repeat_length. Qed.

End BytesFacts.

(** ** UTF-8 *)

Module Utf8Facts.

Import Utf8.

Lemma within_true (lo hi x : N) : lo <= x -> x <= hi -> within lo hi x = true.
Proof.
  intros. unfold within. apply andb_true_iff. split; now apply N.leb_le.
Qed.

Lemma cancel_l (a b : N) : a + b - a = b.
Proof. lia. Qed.

Lemma split3 (c : N) :
  c / 4096 * 4096 + (c / 64) mod 64 * 64 + c mod 64 = c.
Proof.
  replace (c / 4096) with (c / 64 / 64)
    by (rewrite N.Div0.div_div; reflexivity).
  pose proof (N.div_mod c 64 ltac:(discriminate)).
  pose proof (N.div_mod (c / 64) 64 ltac:(discriminate)).
  lia.
Qed.

Lemma split4 (c : N) :
  c / 262144 * 262144 + (c / 4096) mod 64 * 4096 + (c / 64) mod 64 * 64
  + c mod 64 = c.
Proof.
  replace (c / 262144) with (c / 4096 / 64)
    by (rewrite N.Div0.div_div; reflexivity).
  pose proof (N.div_mod (c / 4096) 64 ltac:(discriminate)).
  pose proof (split3 c). lia.
Qed.

Lemma utf8_decode_cons (b0 : byte) (r0 : list byte) :
  decode (b0 :: r0) =
  let x0 := Byte.to_N b0 in
  if x0 <? 0x80 then x0 :: decode r0
  else if within 0xC2 0xDF x0 then
    match r0 with
    | [] => [0xFFFD]
    | b1 :: r1 =>
        let x1 := Byte.to_N b1 in
        if within 0x80 0xBF x1
        then ((x0 - 0xC0) * 64 + (x1 - 0x80)) :: decode r1
        else 0xFFFD :: decode r0
    end
  else if within 0xE0 0xEF x0 then
    let lo := if x0 =? 0xE0 then 0xA0 else 0x80 in
    let hi := if x0 =? 0xED then 0x9F else 0xBF in
    match r0 with
    | [] => [0xFFFD]
    | b1 :: r1 =>
        let x1 := Byte.to_N b1 in
        if within lo hi x1 then
          match r1 with
          | [] => [0xFFFD]
          | b2 :: r2 =>
              let x2 := Byte.to_N b2 in
              if within 0x80 0xBF x2
              then ((x0 - 0xE0) * 4096 + (x1 - 0x80) * 64 + (x2 - 0x80))
                     :: decode r2
              else 0xFFFD :: decode r1
          end
        else 0xFFFD :: decode r0
    end
  else if within 0xF0 0xF4 x0 then
    let lo := if x0 =? 0xF0 then 0x90 else 0x80 in
    let hi := if x0 =? 0xF4 then 0x8F else 0xBF in
    match r0 with
    | [] => [0xFFFD]
    | b1 :: r1 =>
        let x1 := Byte.to_N b1 in
        if within lo hi x1 then
          match r1 with
          | [] => [0xFFFD]
          | b2 :: r2 =>
              let x2 := Byte.to_N b2 in
              if within 0x80 0xBF x2 then
                match r2 with
                | [] => [0xFFFD]
                | b3 :: r3 =>
                    let x3 := Byte.to_N b3 in
                    if within 0x80 0xBF x3 then
                      let v := (x0 - 0xF0) * 262144 + (x1 - 0x80) * 4096
                               + (x2 - 0x80) * 64 + (x3 - 0x80) - 0x10000 in
                      (0xD800 + v / 1024) :: (0xDC00 + v mod 1024)
                        :: decode r3
                    else 0xFFFD :: decode r2
                end
              else 0xFFFD :: decode r1
          end
        else 0xFFFD :: decode r0
    end
  else 0xFFFD :: decode r0.
Proof. reflexivity. Qed.

Lemma decode_one (c : N) (bs : list byte) :
  c < 0x80 -> decode (Bytes.of_N c :: bs) = c :: decode bs.
Proof.
  intro H. rewrite utf8_decode_cons. cbv beta iota zeta.
  rewrite BytesFacts.to_N_of_N by lia.
  destruct (c <? 0x80) eqn:E; [reflexivity|to_props; lia].
Qed.

Lemma decode_two (c : N) (bs : list byte) :
  0x80 <= c -> c < 0x800 -> decode (enc2 c ++ bs) = c :: decode bs.
Proof.
  intros H1 H2. unfold enc2. cbn [app].
  rewrite utf8_decode_cons. cbv beta iota zeta.
  rewrite !BytesFacts.to_N_of_N by dlia.
  replace (_ <? 0x80) with false by (symmetry; apply N.ltb_ge; dlia).
  rewrite !within_true by dlia.
  f_equal. rewrite !cancel_l. dlia.
Qed.

Lemma decode_three (c : N) (bs : list byte) :
  0x800 <= c -> c < 0x10000 -> is_high c = false -> is_low c = false ->
  decode (enc3 c ++ bs) = c :: decode bs.
Proof.
  intros H1 H2 H3 H4. unfold enc3. cbn [app].
  rewrite utf8_decode_cons. cbv beta iota zeta.
  pose proof (split3 c) as S.
  pose proof (N.mod_lt (c / 64) 64 ltac:(discriminate)).
  pose proof (N.mod_lt c 64 ltac:(discriminate)).
  assert (Hq : c / 4096 < 16) by dlia.
  assert (Hs : ~ (0xD800 <= c <= 0xDFFF)).
  { unfold is_high, is_low in *.
    apply andb_false_iff in H3, H4. rewrite !N.leb_gt in H3, H4. lia. }
  clear H3 H4.
  set (q1 := c / 4096) in *. set (q2 := (c / 64) mod 64) in *.
  set (q3 := c mod 64) in *. clearbody q1 q2 q3.
  rewrite !BytesFacts.to_N_of_N by lia.
  replace (_ <? 0x80) with false by (symmetry; apply N.ltb_ge; lia).
  replace (within 0xC2 0xDF _) with false
    by (symmetry; unfold within; apply andb_false_iff; right;
        apply N.leb_gt; lia).
  rewrite (within_true 0xE0 0xEF) by lia.
  rewrite (within_true 0x80 0xBF) by lia.
  rewrite within_true.
  - f_equal. rewrite !cancel_l. exact S.
  - destruct (_ =? 0xE0) eqn:E; to_props; lia.
  - destruct (_ =? 0xED) eqn:E; to_props; lia.
Qed.

Lemma decode_four (c d : N) (bs : list byte) :
  is_high c = true -> is_low d = true ->
  decode (enc4 (pair_value c d) ++ bs) = c :: d :: decode bs.
Proof.
  intros H1 H2. to_props.
  assert (E : exists h l, h < 1024 /\ l < 1024 /\
                          pair_value c d = 0x10000 + h * 1024 + l /\
                          c = 0xD800 + h /\ d = 0xDC00 + l).
  { exists (c - 0xD800), (d - 0xDC00). unfold pair_value. repeat split; lia. }
  destruct E as (h & l & Hh & Hl & -> & -> & ->).
  set (cp := 0x10000 + h * 1024 + l).
  assert (Hcp : cp = 0x10000 + h * 1024 + l) by reflexivity.
  clearbody cp.
  unfold enc4. cbn [app].
  rewrite utf8_decode_cons. cbv beta iota zeta.
  pose proof (split4 cp) as S.
  pose proof (N.mod_lt (cp / 4096) 64 ltac:(discriminate)).
  pose proof (N.mod_lt (cp / 64) 64 ltac:(discriminate)).
  pose proof (N.mod_lt cp 64 ltac:(discriminate)).
  assert (Hq : cp / 262144 < 5) by dlia.
  set (q1 := cp / 262144) in *. set (q2 := (cp / 4096) mod 64) in *.
  set (q3 := (cp / 64) mod 64) in *. set (q4 := cp mod 64) in *.
  clearbody q1 q2 q3 q4.
  rewrite !BytesFacts.to_N_of_N by lia.
  replace (_ <? 0x80) with false by (symmetry; apply N.ltb_ge; lia).
  replace (within 0xC2 0xDF _) with false
    by (symmetry; unfold within; apply andb_false_iff; right;
        apply N.leb_gt; lia).
  replace (within 0xE0 0xEF _) with false
    by (symmetry; unfold within; apply andb_false_iff; right;
        apply N.leb_gt; lia).
  rewrite (within_true 0xF0 0xF4) by lia.
  rewrite !(within_true 0x80 0xBF) by lia.
  rewrite within_true.
  - rewrite !cancel_l, S, Hcp.
    replace (0x10000 + h * 1024 + l - 0x10000) with (h * 1024 + l) by lia.
    f_equal; [|f_equal]; dlia.
  - destruct (_ =? 0xF0) eqn:E; to_props; lia.
  - destruct (_ =? 0xF4) eqn:E; to_props; lia.
Qed.

(** Decoding undoes encoding on well-formed strings. *)
Lemma utf8_decode_encode (s : list N) :
  well_formed s = true -> decode (encode s) = s.
Proof.
  remember (List.length s) as n eqn:Hn.
  revert s Hn. induction n as [n IH] using lt_wf_ind. intros s Hn W.
  destruct s as [|c r]; [reflexivity|].
  cbn [encode well_formed] in *.
  destruct (c <? 0x80) eqn:E1.
  { assert (is_high c = false) as Hh
        by (unfold is_high; to_props; apply andb_false_iff; left;
            apply N.leb_gt; lia).
    rewrite Hh in W. to_props.
    rewrite decode_one by assumption. f_equal.
    apply (IH (List.length r)); subst; simpl; auto. }
  destruct (c <? 0x800) eqn:E2.
  { assert (is_high c = false) as Hh
        by (unfold is_high; to_props; apply andb_false_iff; left;
            apply N.leb_gt; lia).
    rewrite Hh in W. to_props.
    rewrite decode_two by lia. f_equal.
    apply (IH (List.length r)); subst; simpl; auto. }
  destruct (is_high c) eqn:E3.
  { destruct r as [|d r']; [discriminate|].
    apply andb_true_iff in W. destruct W as [W1 W2].
    rewrite W1. rewrite decode_four by assumption. do 2 f_equal.
    apply (IH (List.length r')); subst; simpl; auto. }
  apply andb_true_iff in W. destruct W as [W W2].
  apply andb_true_iff in W. destruct W as [W0 W1].
  apply negb_true_iff in W0. rewrite W0.
  apply N.ltb_lt in W1. apply N.ltb_ge in E1, E2.
  rewrite decode_three by assumption. f_equal.
  apply (IH (List.length r)); subst; simpl; auto.
Qed.

End Utf8Facts.

(** ** Base64 *)

Module Base64Facts.

Import Base64.

Lemma value_digit (v : N) : v < 64 -> value (digit v) = Some v.
Proof.
  intro H. unfold digit.
  destruct (v <? 26) eqn:E1; [|destruct (v <? 52) eqn:E2;
    [|destruct (v <? 62) eqn:E3; [|destruct (v =? 62) eqn:E4]]];
    to_props; unfold value.
  - rewrite (proj2 (N.leb_le 65 (65 + v))), (proj2 (N.leb_le (65 + v) 90)) by lia.
    cbn [andb]. f_equal. lia.
  - replace ((65 <=? 97 + (v - 26)) && (97 + (v - 26) <=? 90)) with false
      by (symmetry; apply andb_false_iff; right; apply N.leb_gt; lia).
    rewrite (proj2 (N.leb_le 97 _)), (proj2 (N.leb_le _ 122)) by lia.
    cbn [andb]. f_equal. lia.
  - replace ((65 <=? 48 + (v - 52)) && (48 + (v - 52) <=? 90)) with false
      by (symmetry; apply andb_false_iff; left; apply N.leb_gt; lia).
    replace ((97 <=? 48 + (v - 52)) && (48 + (v - 52) <=? 122)) with false
      by (symmetry; apply andb_false_iff; left; apply N.leb_gt; lia).
    rewrite (proj2 (N.leb_le 48 _)), (proj2 (N.leb_le _ 57)) by lia.
    cbn [andb]. f_equal. lia.
  - subst v. reflexivity.
  - assert (v = 63) by lia. subst v. reflexivity.
Qed.

Lemma digit_not_pad (v : N) : (digit v =? pad) = false.
Proof.
  unfold digit, pad. apply N.eqb_neq. split_tests.
Qed.

Lemma digit_small (v : N) : digit v < 256.
Proof. unfold digit. split_tests; lia. Qed.

Lemma values_digit (v : N) (s : list N) :
  v < 64 -> values (digit v :: s) = v :: values s.
Proof.
  intro H. cbn [values]. cbv zeta.
  rewrite (N.mod_small _ _ (digit_small v)).
  now rewrite digit_not_pad, value_digit.
Qed.

Lemma values_pad (s : list N) : values (pad :: s) = [].
Proof. reflexivity. Qed.

(** Decoding undoes encoding. *)
Lemma base64_decode_encode (bs : list byte) : decode (encode bs) = bs.
Proof.
  unfold decode.
  remember (List.length bs) as n eqn:Hn.
  revert bs Hn. induction n as [n IH] using lt_wf_ind. intros bs Hn.
  destruct bs as [|a [|b [|c r]]]; [reflexivity| | |].
  - cbn [encode]. pose proof (BytesFacts.to_N_lt a).
    set (x := Byte.to_N a) in *.
    rewrite !values_digit by dlia. rewrite values_pad. cbn [pack].
    f_equal. rewrite <- (BytesFacts.of_N_to_N a). fold x. f_equal. dlia.
  - cbn [encode]. pose proof (BytesFacts.to_N_lt a).
    pose proof (BytesFacts.to_N_lt b).
    set (x := Byte.to_N a) in *. set (y := Byte.to_N b) in *.
    rewrite !values_digit by dlia. rewrite values_pad. cbn [pack].
    rewrite <- (BytesFacts.of_N_to_N a), <- (BytesFacts.of_N_to_N b).
    fold x y. repeat f_equal; dlia.
  - cbn [encode]. pose proof (BytesFacts.to_N_lt a).
    pose proof (BytesFacts.to_N_lt b). pose proof (BytesFacts.to_N_lt c).
    set (x := Byte.to_N a) in *. set (y := Byte.to_N b) in *.
    set (z := Byte.to_N c) in *.
    rewrite !values_digit by dlia. cbn [pack].
    rewrite (IH (List.length r)); [|subst; simpl; lia|reflexivity].
    rewrite <- (BytesFacts.of_N_to_N a), <- (BytesFacts.of_N_to_N b),
      <- (BytesFacts.of_N_to_N c).
    fold x y z. repeat f_equal; dlia.
Qed.

(** The characters of an encoding need no escape in a JSON string. *)
Lemma digit_plain (v : N) : Json.plain (digit v).
Proof.
  unfold Json.plain, Json.quote_mark, Json.backslash, digit.
  split_tests; lia.
Qed.

Lemma encode_plain (bs : list byte) : Forall Json.plain (encode bs).
Proof.
  remember (List.length bs) as n eqn:Hn.
  revert bs Hn. induction n as [n IH] using lt_wf_ind. intros bs Hn.
  assert (P : Json.plain pad)
    by (unfold Json.plain, Json.quote_mark, Json.backslash, pad; lia).
  destruct bs as [|a [|b [|c r]]]; cbn [encode];
    repeat (constructor; try apply digit_plain; try exact P).
  apply (IH (List.length r)); subst; simpl; lia.
Qed.

End Base64Facts.

(** ** JSON *)

Module JsonFacts.

Import Json.

Lemma plain_tests (c : N) :
  plain c ->
  (c =? quote_mark) = false /\ (c =? backslash) = false /\ (c <? 32) = false
  /\ Utf8.is_high c = false /\ Utf8.is_low c = false.
Proof.
  unfold plain, Utf8.is_high, Utf8.is_low. intros (H1 & H2 & H3 & H4).
  repeat split.
  - now apply N.eqb_neq.
  - now apply N.eqb_neq.
  - apply N.ltb_ge. lia.
  - apply andb_false_iff. left. apply N.leb_gt. lia.
  - apply andb_false_iff. left. apply N.leb_gt. lia.
Qed.

Lemma quote_body_plain (s : list N) : Forall plain s -> quote_body s = s.
Proof.
  induction 1 as [|c r Hc Hr IH]; [reflexivity|].
  destruct (plain_tests c Hc) as (E1 & E2 & E3 & E4 & E5).
  cbn [quote_body]. rewrite E1, E2, E3, E4, E5, IH. reflexivity.
Qed.

Lemma string_body_plain (s rest : list N) :
  Forall plain s -> string_body (s ++ quote_mark :: rest) = Some (s, rest).
Proof.
  induction 1 as [|c r Hc Hr IH]; [reflexivity|].
  destruct (plain_tests c Hc) as (E1 & E2 & E3 & _).
  cbn [app string_body]. rewrite E1, E2, E3, IH. reflexivity.
Qed.

Lemma parse_value_string (s rest : list N) (f : nat) :
  Forall plain s ->
  parse_value (S f) (quote_mark :: s ++ quote_mark :: rest)
  = Some (String s, rest).
Proof.
  intro H. pose proof (string_body_plain s rest H) as E.
  set (tail := s ++ quote_mark :: rest) in *. clearbody tail.
  simpl. rewrite E. reflexivity.
Qed.

Lemma parse_value_object (r : list N) (f : nat) :
  parse_value (S f) (123 :: quote_mark :: r)
  = match parse_members f (quote_mark :: r) with
    | Some (ms, rest) => Some (Object ms, rest)
    | None => None
    end.
Proof. reflexivity. Qed.

Lemma parse_members_more (k r1 r2 : list N) (v : value) (f : nat) :
  Forall plain k ->
  parse_value f r1 = Some (v, 44 :: r2) ->
  parse_members (S f) (quote_mark :: k ++ quote_mark :: 58 :: r1)
  = match parse_members f r2 with
    | Some (ms, rest) => Some ((k, v) :: ms, rest)
    | None => None
    end.
Proof.
  intros H E. pose proof (string_body_plain k (58 :: r1) H) as B.
  set (tail := k ++ quote_mark :: 58 :: r1) in *. clearbody tail.
  simpl. rewrite B. simpl. rewrite E. reflexivity.
Qed.

Lemma parse_members_last (k r1 r2 : list N) (v : value) (f : nat) :
  Forall plain k ->
  parse_value f r1 = Some (v, 125 :: r2) ->
  parse_members (S f) (quote_mark :: k ++ quote_mark :: 58 :: r1)
  = Some ([(k, v)], r2).
Proof.
  intros H E. pose proof (string_body_plain k (58 :: r1) H) as B.
  set (tail := k ++ quote_mark :: 58 :: r1) in *. clearbody tail.
  simpl. rewrite B. simpl. rewrite E. reflexivity.
Qed.

Ltac plain_literal :=
  cbv [lit list_ascii_of_string map cipher_text];
  repeat (apply Forall_cons;
          [unfold plain, quote_mark, backslash; cbn; lia|]);
  apply Forall_nil.

Lemma lit_plain_salt : Forall plain (lit "salt").
Proof. plain_literal. Qed.

(** The text of an envelope reads back as the envelope. *)
Lemma parse_value_envelope (a b c d : list byte) (k : nat) :
  parse_value (8 + k)
    (stringify (Encryption.envelope a b c d aes_256_gcm 100000))
  = Some (Encryption.envelope a b c d aes_256_gcm 100000, []).
Proof.
  unfold Encryption.envelope. cbn [stringify].
  unfold quote.
  rewrite !quote_body_plain
    by (first [apply Base64Facts.encode_plain | plain_literal]).
  repeat (rewrite <- ?app_assoc, <- ?app_comm_cons).
  cbn [app Nat.add].
  rewrite parse_value_object.
  do 4 (erewrite parse_members_more;
        [|plain_literal|apply parse_value_string, Base64Facts.encode_plain]).
  erewrite parse_members_more;
    [|plain_literal|apply parse_value_string; plain_literal].
  erewrite parse_members_last; [reflexivity|plain_literal|reflexivity].
Qed.

(** Fuel: the parser is given more than eight steps as soon as the text
    has three characters. *)
Lemma parse_with_fuel (text : list N) (v : value) :
  (3 <= List.length text)%nat ->
  (forall k, parse_value (8 + k) text = Some (v, [])) ->
  parse text = Some v.
Proof.
  intros L H. unfold parse.
  replace (2 * List.length text + 2)%nat
    with (8 + (2 * List.length text + 2 - 8))%nat by lia.
  rewrite H. reflexivity.
Qed.

Lemma stringify_object_length (ms : list (list N * value)) :
  ms <> [] -> (3 <= List.length (stringify (Object ms)))%nat.
Proof.
  intro H. destruct ms as [|[k v] r]; [contradiction|].
  cbn [stringify]. cbn [List.length]. rewrite length_app.
  cbn [List.length].
  destruct r; unfold quote; cbn [app List.length]; lia.
Qed.

Lemma parse_envelope (a b c d : list byte) :
  parse (stringify (Encryption.envelope a b c d aes_256_gcm 100000))
  = Some (Encryption.envelope a b c d aes_256_gcm 100000).
Proof.
  apply parse_with_fuel.
  - apply stringify_object_length. discriminate.
  - intro k. apply parse_value_envelope.
Qed.

End JsonFacts.

(** ** JSON: the fuel of the parser is enough *)

Module JsonFuel.

Import Json.

Lemma skip_ws_length (s : list N) :
  (List.length (skip_ws s) <= List.length s)%nat.
Proof.
  induction s as [|c r IH]; [reflexivity|].
  cbn [skip_ws]. destruct (is_ws c); cbn [List.length]; lia.
Qed.

Lemma string_body_shorter (s t rest : list N) :
  string_body s = Some (t, rest) -> (List.length rest < List.length s)%nat.
Proof.
  remember (List.length s) as n eqn:Hn. revert s t rest Hn.
  induction n as [n IH] using lt_wf_ind. intros s t rest Hn H.
  destruct s as [|c r]; [discriminate|]. cbn [string_body] in H.
  destruct (c =? quote_mark).
  { injection H as _ <-. subst. cbn. lia. }
  destruct (c =? backslash).
  { destruct r as [|e r1]; [discriminate|].
    destruct (e =? 117).
    - destruct r1 as [|h1 [|h2 [|h3 [|h4 r2]]]]; try discriminate.
      destruct (hex4 h1 h2 h3 h4); [|discriminate].
      destruct (string_body r2) as [[t' rest']|] eqn:E; [|discriminate].
      injection H as _ <-.
      apply (IH (List.length r2)) in E; subst; cbn [List.length] in *; lia.
    - destruct (simple_escape e); [|discriminate].
      destruct (string_body r1) as [[t' rest']|] eqn:E; [|discriminate].
      injection H as _ <-.
      apply (IH (List.length r1)) in E; subst; cbn [List.length] in *; lia. }
  destruct (c <? 32); [discriminate|].
  destruct (string_body r) as [[t' rest']|] eqn:E; [|discriminate].
  injection H as _ <-.
  apply (IH (List.length r)) in E; subst; cbn [List.length] in *; lia.
Qed.

Lemma digits_length (s : list N) :
  (List.length (snd (digits s)) <= List.length s)%nat.
Proof.
  induction s as [|c r IH]; [reflexivity|].
  cbn [digits]. destruct (is_digit c); [|reflexivity].
  destruct (digits r) as [d rest]. cbn [snd List.length] in *. lia.
Qed.

Lemma int_part_shorter (s i rest : list N) :
  int_part s = Some (i, rest) -> (List.length rest < List.length s)%nat.
Proof.
  destruct s as [|c r]; [discriminate|]. cbn [int_part].
  destruct (c =? 48).
  - intro H. injection H as _ <-. cbn. lia.
  - destruct (is_digit c); [|discriminate].
    pose proof (digits_length r) as L. destruct (digits r) as [d rest'].
    intro H. injection H as _ <-. cbn [snd List.length] in *. lia.
Qed.

Lemma frac_part_length (s f rest : list N) :
  frac_part s = Some (f, rest) -> (List.length rest <= List.length s)%nat.
Proof.
  destruct s as [|c r]; cbn [frac_part].
  - intro H. injection H as _ <-. reflexivity.
  - destruct (c =? 46).
    + pose proof (digits_length r) as L. destruct (digits r) as [[|d0 d] rest'];
        [discriminate|].
      intro H. injection H as _ <-. cbn [snd List.length] in *. lia.
    + intro H. injection H as _ <-. reflexivity.
Qed.

Lemma exp_part_length (s e rest : list N) :
  exp_part s = Some (e, rest) -> (List.length rest <= List.length s)%nat.
Proof.
  destruct s as [|c r]; cbn [exp_part].
  - intro H. injection H as _ <-. reflexivity.
  - destruct ((c =? 101) || (c =? 69)).
    + destruct r as [|g r'].
      * cbn [digits]. discriminate.
      * destruct ((g =? 43) || (g =? 45)).
        -- pose proof (digits_length r') as L.
           destruct (digits r') as [[|d0 d] rest']; [discriminate|].
           intro H. injection H as _ <-. cbn [snd List.length] in *. lia.
        -- pose proof (digits_length (g :: r')) as L.
           destruct (digits (g :: r')) as [[|d0 d] rest']; [discriminate|].
           intro H. injection H as _ <-. cbn [snd List.length] in *. lia.
    + intro H. injection H as _ <-. reflexivity.
Qed.

Lemma number_shorter (s lexeme rest : list N) :
  number s = Some (lexeme, rest) -> (List.length rest < List.length s)%nat.
Proof.
  unfold number. intro H.
  assert (M : exists minus s1,
             (List.length s1 <= List.length s)%nat
             /\ match int_part s1 with
                | Some (i, s2) =>
                    match frac_part s2 with
                    | Some (f, s3) =>
                        match exp_part s3 with
                        | Some (e, s4) => Some (minus ++ i ++ f ++ e, s4)
                        | None => None
                        end
                    | None => None
                    end
                | None => None
                end = Some (lexeme, rest)).
  { destruct s as [|c r].
    - exists [], []. split; [reflexivity|exact H].
    - destruct (c =? 45).
      + exists [c], r. split; [cbn; lia|exact H].
      + exists [], (c :: r). split; [reflexivity|exact H]. }
  clear H. destruct M as (minus & s1 & L & H).
  destruct (int_part s1) as [[i s2]|] eqn:E1; [|discriminate].
  destruct (frac_part s2) as [[f s3]|] eqn:E2; [|discriminate].
  destruct (exp_part s3) as [[e s4]|] eqn:E3; [|discriminate].
  injection H as _ <-.
  apply int_part_shorter in E1. apply frac_part_length in E2.
  apply exp_part_length in E3. lia.
Qed.

Lemma expect_length (w s rest : list N) :
  expect w s = Some rest -> (List.length rest <= List.length s)%nat.
Proof.
  revert s. induction w as [|a w IH]; intros s H.
  - cbn in H. injection H as <-. reflexivity.
  - destruct s as [|b s']; [discriminate|]. cbn [expect] in H.
    destruct (a =? b); [|discriminate]. apply IH in H. cbn. lia.
Qed.


Lemma parse_value_step (f : nat) (s : list N) :
  parse_value (S f) s =
      match skip_ws s with
      | [] => None
      | c :: r =>
          if c =? 123 then
            match skip_ws r with
            | d :: r' =>
                if d =? 125 then Some (Object [], r')
                else
                  match parse_members f (d :: r') with
                  | Some (ms, rest) => Some (Object ms, rest)
                  | None => None
                  end
            | [] => None
            end
          else if c =? 91 then
            match skip_ws r with
            | d :: r' =>
                if d =? 93 then Some (Array [], r')
                else
                  match parse_elements f (d :: r') with
                  | Some (vs, rest) => Some (Array vs, rest)
                  | None => None
                  end
            | [] => None
            end
          else if c =? quote_mark then
            match string_body r with
            | Some (t, rest) => Some (String t, rest)
            | None => None
            end
          else if c =? 116 then
            option_map (fun rest => (Bool true, rest)) (expect (lit "rue") r)
          else if c =? 102 then
            option_map (fun rest => (Bool false, rest)) (expect (lit "alse") r)
          else if c =? 110 then
            option_map (fun rest => (Null, rest)) (expect (lit "ull") r)
          else
            match number (c :: r) with
            | Some (lexeme, rest) => Some (Number lexeme, rest)
            | None => None
            end
      end.
Proof. reflexivity. Qed.

Lemma parse_members_step (f : nat) (s : list N) :
  parse_members (S f) s =
      match skip_ws s with
      | c :: r =>
          if c =? quote_mark then
            match string_body r with
            | Some (k, r1) =>
                match skip_ws r1 with
                | colon :: r2 =>
                    if colon =? 58 then
                      match parse_value f r2 with
                      | Some (v, r3) =>
                          match skip_ws r3 with
                          | sep :: r4 =>
                              if sep =? 44 then
                                match parse_members f r4 with
                                | Some (ms, rest) => Some ((k, v) :: ms, rest)
                                | None => None
                                end
                              else if sep =? 125 then Some ([(k, v)], r4)
                              else None
                          | [] => None
                          end
                      | None => None
                      end
                    else None
                | [] => None
                end
            | None => None
            end
          else None
      | [] => None
      end.
Proof. reflexivity. Qed.

Lemma parse_elements_step (f : nat) (s : list N) :
  parse_elements (S f) s =
      match parse_value f s with
      | Some (v, r1) =>
          match skip_ws r1 with
          | sep :: r2 =>
              if sep =? 44 then
                match parse_elements f r2 with
                | Some (vs, rest) => Some (v :: vs, rest)
                | None => None
                end
              else if sep =? 93 then Some ([v], r2)
              else None
          | [] => None
          end
      | None => None
      end.
Proof. reflexivity. Qed.

(** Follows the tests of a hypothesis [_ = Some _] about one step of a
    parser into the goal, which takes the same step with more fuel; [up]
    turns a nested call into the call with more fuel. *)
Ltac follow up :=
  repeat match goal with
    | H : None = Some _ |- _ => discriminate H
    | H : Some _ = Some _ |- _ => exact H
    | H : option_map _ ?x = Some _ |- _ =>
        destruct x eqn:?; cbn [option_map] in H |- *
    | H : match ?x with _ => _ end = Some _ |- _ =>
        lazymatch x with
        | parse_value _ _ =>
            let E := fresh "E" in
            destruct x as [[? ?]|] eqn:E; [up E; rewrite E|discriminate H]
        | parse_members _ _ =>
            let E := fresh "E" in
            destruct x as [[? ?]|] eqn:E; [up E; rewrite E|discriminate H]
        | parse_elements _ _ =>
            let E := fresh "E" in
            destruct x as [[? ?]|] eqn:E; [up E; rewrite E|discriminate H]
        | _ => destruct x eqn:?
        end
    end.

(** More fuel never changes a result. *)
Lemma fuel_step (f : nat) :
  (forall s r, parse_value f s = Some r -> parse_value (S f) s = Some r)
  /\ (forall s r, parse_members f s = Some r -> parse_members (S f) s = Some r)
  /\ (forall s r, parse_elements f s = Some r ->
                  parse_elements (S f) s = Some r).
Proof.
  induction f as [|f (IHv & IHm & IHe)].
  - repeat split; intros s r H; discriminate H.
  - repeat split; intros s r H.
    + rewrite parse_value_step in H. rewrite parse_value_step.
      follow ltac:(fun E => first [apply IHv in E | apply IHm in E
                                  | apply IHe in E]).
    + rewrite parse_members_step in H. rewrite parse_members_step.
      follow ltac:(fun E => first [apply IHv in E | apply IHm in E
                                  | apply IHe in E]).
    + rewrite parse_elements_step in H. rewrite parse_elements_step.
      follow ltac:(fun E => first [apply IHv in E | apply IHm in E
                                  | apply IHe in E]).
Qed.

Lemma fuel_value (f g : nat) (s : list N) (r : value * list N) :
  (f <= g)%nat -> parse_value f s = Some r -> parse_value g s = Some r.
Proof.
  induction 1 as [|g L IH]; [auto|].
  intro H. apply (proj1 (fuel_step g)). auto.
Qed.

Lemma fuel_members (f g : nat) (s : list N)
      (r : list (list N * value) * list N) :
  (f <= g)%nat -> parse_members f s = Some r -> parse_members g s = Some r.
Proof.
  induction 1 as [|g L IH]; [auto|].
  intro H. apply (proj1 (proj2 (fuel_step g))). auto.
Qed.

Lemma fuel_elements (f g : nat) (s : list N) (r : list value * list N) :
  (f <= g)%nat -> parse_elements f s = Some r -> parse_elements g s = Some r.
Proof.
  induction 1 as [|g L IH]; [auto|].
  intro H. apply (proj2 (proj2 (fuel_step g))). auto.
Qed.

(** Takes a hypothesis about one step of a parser apart, keeping an
    equation for every test met on the way. *)
Ltac take_apart H :=
  repeat match type of H with
    | None = Some _ => discriminate H
    | option_map _ ?x = Some _ =>
        let E := fresh "E" in destruct x eqn:E; cbn [option_map] in H
    | match ?x with _ => _ end = Some _ =>
        let E := fresh "E" in destruct x eqn:E
    end;
  injection H as ? ?; subst.

(** What each equation says about lengths. *)
Ltac measure IHv IHm IHe :=
  repeat match goal with
    | E : skip_ws ?s = _ |- _ =>
        let L := fresh "L" in
        pose proof (skip_ws_length s) as L; rewrite E in L; revert E
    | E : string_body _ = Some _ |- _ =>
        let L := fresh "L" in
        pose proof (string_body_shorter _ _ _ E) as L; revert E
    | E : number _ = Some _ |- _ =>
        let L := fresh "L" in
        pose proof (number_shorter _ _ _ E) as L; revert E
    | E : expect _ _ = Some _ |- _ =>
        let L := fresh "L" in
        pose proof (expect_length _ _ _ E) as L; revert E
    | E : parse_value _ _ = Some _ |- _ =>
        let L := fresh "L" in
        pose proof (proj1 (IHv _ _ _ E)) as L; revert E
    | E : parse_members _ _ = Some _ |- _ =>
        let L := fresh "L" in
        pose proof (proj1 (IHm _ _ _ E)) as L; revert E
    | E : parse_elements _ _ = Some _ |- _ =>
        let L := fresh "L" in
        pose proof (proj1 (IHe _ _ _ E)) as L; revert E
    end;
  intros; cbn [List.length] in *.

(** Replays the equations in a goal that takes the same step with the
    fuel [g]. *)
Ltac replay IHv IHm IHe g :=
  repeat match goal with
    | E : parse_value _ ?x = Some _ |- context [parse_value g ?x] =>
        let B := fresh "B" in
        pose proof (proj2 (IHv _ _ _ E)) as B; cbn [List.length] in B;
        match type of B with
        | parse_value ?k _ = _ => rewrite (fuel_value k g _ _ ltac:(lia) B)
        end
    | E : parse_members _ ?x = Some _ |- context [parse_members g ?x] =>
        let B := fresh "B" in
        pose proof (proj2 (IHm _ _ _ E)) as B; cbn [List.length] in B;
        match type of B with
        | parse_members ?k _ = _ => rewrite (fuel_members k g _ _ ltac:(lia) B)
        end
    | E : parse_elements _ ?x = Some _ |- context [parse_elements g ?x] =>
        let B := fresh "B" in
        pose proof (proj2 (IHe _ _ _ E)) as B; cbn [List.length] in B;
        match type of B with
        | parse_elements ?k _ = _ => rewrite (fuel_elements k g _ _ ltac:(lia) B)
        end
    | E : ?x = _ |- context [?x] => rewrite E
    end;
  try reflexivity.

(** A result is reached with fuel in proportion to the text it reads, and
    it reads some text. *)
Lemma fuel_bound (f : nat) :
  (forall s v rest,
      parse_value f s = Some (v, rest) ->
      (List.length rest < List.length s)%nat
      /\ parse_value (2 * (List.length s - List.length rest)) s
         = Some (v, rest))
  /\ (forall s ms rest,
         parse_members f s = Some (ms, rest) ->
         (List.length rest < List.length s)%nat
         /\ parse_members (2 * (List.length s - List.length rest) + 1) s
            = Some (ms, rest))
  /\ (forall s vs rest,
         parse_elements f s = Some (vs, rest) ->
         (List.length rest < List.length s)%nat
         /\ parse_elements (2 * (List.length s - List.length rest) + 1) s
            = Some (vs, rest)).
Proof.
  induction f as [|f (IHv & IHm & IHe)].
  - repeat split; discriminate.
  - split; [|split].
    + intros s v rest H. rewrite parse_value_step in H.
      take_apart H; measure IHv IHm IHe; (split; [lia|]);
        match goal with
        | |- parse_value ?n _ = _ =>
            replace n with (S (n - 1)) by lia;
            rewrite parse_value_step; replay IHv IHm IHe (n - 1)%nat
        end.
    + intros s ms rest H. rewrite parse_members_step in H.
      take_apart H; measure IHv IHm IHe; (split; [lia|]);
        match goal with
        | |- parse_members ?n _ = _ =>
            replace n with (S (n - 1)) by lia;
            rewrite parse_members_step; replay IHv IHm IHe (n - 1)%nat
        end.
    + intros s vs rest H. rewrite parse_elements_step in H.
      take_apart H; measure IHv IHm IHe; (split; [lia|]);
        match goal with
        | |- parse_elements ?n _ = _ =>
            replace n with (S (n - 1)) by lia;
            rewrite parse_elements_step; replay IHv IHm IHe (n - 1)%nat
        end.
Qed.

(** The fuel [parse] gives is enough: whatever a run of the parser with any
    fuel reads as a whole text, [parse] reads too. In particular [parse]
    fails only on texts that no amount of fuel makes a value of. *)
Theorem parse_complete (f : nat) (text : list N) (v : value) (rest : list N) :
  parse_value f text = Some (v, rest) -> skip_ws rest = [] ->
  parse text = Some v.
Proof.
  intros H W. unfold parse.
  destruct (proj1 (fuel_bound f) _ _ _ H) as [L E].
  rewrite (fuel_value (2 * (List.length text - List.length rest))
             (2 * List.length text + 2) _ _ ltac:(lia) E).
  now rewrite W.
Qed.

End JsonFuel.

(** ** Known answers

    The primitives against published test vectors and against OpenSSL. *)

Module KnownAnswers.

Import Terms.

(** FIPS 180-4, the one-block message [abc]. *)
Example sha256_abc :
  Bytes.to_num (Sha256.hash (ascii_bytes "abc"))
  = 0xba7816bf8f01cfea414140de5dae2223b00361a396177a9cb410ff61f20015ad.
Proof. vm_compute. reflexivity. Qed.

Example hmac_sha256_fox :
  Bytes.to_num
    (Hmac.hmac (ascii_bytes "key")
               (ascii_bytes "The quick brown fox jumps over the lazy dog"))
  = 0xf7bc83f430538424b13298e6aa6fb143ef4d59a14946175997479dbc2d1a3cd8.
Proof. vm_compute. reflexivity. Qed.

(** PBKDF2-HMAC-SHA-256 of [password] and [salt], two iterations. *)
Example pbkdf2_two_iterations :
  Bytes.to_num
    (Pbkdf2.derive (ascii_bytes "password") (ascii_bytes "salt") 2 32)
  = 0xae4d0c95af6b46d32d0adff928f06dd02a303f8ef3c251dfd6e2d85a95474c43.
Proof. vm_compute. reflexivity. Qed.

(** FIPS 197, appendix C.3. *)
Example aes256_block :
  Bytes.to_num
    (Aes.encrypt counting_key
                 (Bytes.of_num 16 0x00112233445566778899aabbccddeeff))
  = 0x8ea2b7ca516745bfeafc49904b496089.
Proof. vm_compute. reflexivity. Qed.

(** [aes-256-gcm] with a sixteen-byte nonce: the tag of the empty message
    and the first two blocks of key stream, as OpenSSL gives them. *)
Example gcm_empty_tag :
  Bytes.to_num (Gcm.tag counting_key counting_iv [])
  = 0x1fe22185668c52bcacfdff70749c67b9.
Proof. vm_compute. reflexivity. Qed.

Example gcm_key_stream :
  Bytes.to_num (Gcm.crypt counting_key counting_iv (Bytes.zeros 32))
  = 0x676ca07639e44a289dffdb2955a42cb354b36ba1678dd343443e4dd58ef9ccca.
Proof. vm_compute. reflexivity. Qed.

End KnownAnswers.

(** ** Lengths of digests, keys, blocks and tags *)

Module CryptoFacts.

Lemma flat_map_constant_length {A B : Type} (f : A -> list B) (n : nat)
      (l : list A) :
  (forall a, List.length (f a) = n) ->
  List.length (flat_map f l) = (List.length l * n)%nat.
Proof.
  intro H. induction l as [|a l IH]; [reflexivity|].
  cbn [flat_map List.length]. rewrite length_app, H, IH. lia.
Qed.

Lemma sha256_length (msg : list byte) : List.length (Sha256.hash msg) = 32%nat.
Proof.
  unfold Sha256.hash, Sha256.digest_bytes.
  rewrite flat_map_constant_length with (n := 4%nat); [reflexivity|].
  intro a. apply BytesFacts.of_num_length.
Qed.

Lemma hmac_length (key msg : list byte) :
  List.length (Hmac.hmac key msg) = 32%nat.
Proof. apply sha256_length. Qed.

Lemma pbkdf2_block_length (password salt : list byte) (c i : N) :
  List.length (Pbkdf2.block password salt c i) = 32%nat.
Proof.
  unfold Pbkdf2.block.
  set (u1 := Hmac.hmac password (salt ++ Bytes.of_num 4 i)).
  assert (I : List.length (fst (N.iter (c - 1) (Pbkdf2.step password) (u1, u1)))
              = 32%nat
              /\ List.length (snd (N.iter (c - 1) (Pbkdf2.step password) (u1, u1)))
                 = 32%nat).
  { apply N.iter_invariant.
    - intros [u t] [_ Ht]. cbn [fst snd] in *. unfold Pbkdf2.step.
      cbn [fst snd]. rewrite BytesFacts.xor_with_length, Ht.
      rewrite !hmac_length. split; reflexivity.
    - subst u1. cbn [fst snd]. rewrite hmac_length. split; reflexivity. }
  apply I.
Qed.

(** The key asked of PBKDF2 has the length asked for, here 32 bytes. *)
Lemma pbkdf2_key_length (password salt : list byte) (c : N) :
  List.length (Pbkdf2.derive_key password salt c 32) = 32%nat.
Proof.
  rewrite Pbkdf2.derive_key_eq. unfold Pbkdf2.derive, Pbkdf2.hash_length.
  change ((32 + 32 - 1) / 32)%nat with 1%nat.
  cbn [seq flat_map]. rewrite app_nil_r.
  rewrite firstn_all2; rewrite pbkdf2_block_length; [reflexivity|lia].
Qed.

Lemma aes_block_length (key block : list byte) :
  List.length (Aes.encrypt key block) = 16%nat.
Proof.
  unfold Aes.encrypt, Aes.add_round_key.
  rewrite !length_map. reflexivity.
Qed.

Lemma keystream_length (key : list byte) (icb : N) (n : nat) :
  List.length (Gcm.keystream key icb n) = (n * 16)%nat.
Proof.
  unfold Gcm.keystream.
  rewrite flat_map_constant_length with (n := 16%nat).
  - now rewrite length_seq.
  - intro a. apply aes_block_length.
Qed.

Lemma keystream_covers (key : list byte) (icb : N) (data : list byte) :
  (List.length data
   <= List.length (Gcm.keystream key icb (Gcm.block_count data)))%nat.
Proof.
  rewrite keystream_length. unfold Gcm.block_count.
  pose proof (Nat.div_mod (List.length data + 15) 16 ltac:(discriminate)).
  pose proof (Nat.mod_upper_bound (List.length data + 15) 16
                ltac:(discriminate)).
  lia.
Qed.

Lemma gctr_length (key : list byte) (icb : N) (data : list byte) :
  List.length (Gcm.gctr key icb data) = List.length data.
Proof.
  unfold Gcm.gctr. rewrite BytesFacts.xor_with_length.
  pose proof (keystream_covers key icb data). lia.
Qed.

(** The ciphertext is as long as the plaintext. *)
Lemma crypt_length (key iv data : list byte) :
  List.length (Gcm.crypt key iv data) = List.length data.
Proof. apply gctr_length. Qed.

(** Counter mode is its own inverse. *)
Lemma gctr_involutive (key : list byte) (icb : N) (data : list byte) :
  Gcm.gctr key icb (Gcm.gctr key icb data) = data.
Proof.
  unfold Gcm.gctr at 1.
  replace (Gcm.block_count (Gcm.gctr key icb data))
    with (Gcm.block_count data)
    by (unfold Gcm.block_count; now rewrite gctr_length).
  unfold Gcm.gctr. apply BytesFacts.xor_with_cancel, keystream_covers.
Qed.

Lemma crypt_involutive (key iv data : list byte) :
  Gcm.crypt key iv (Gcm.crypt key iv data) = data.
Proof. apply gctr_involutive. Qed.

Lemma tag_length (key iv ciphertext : list byte) :
  List.length (Gcm.tag key iv ciphertext) = 16%nat.
Proof.
  unfold Gcm.tag. rewrite gctr_length. apply BytesFacts.of_num_length.
Qed.

(** HMAC sees its key through the padded block only. *)
Lemma hmac_block_key (k1 k2 msg : list byte) :
  Hmac.block_key k1 = Hmac.block_key k2 -> Hmac.hmac k1 msg = Hmac.hmac k2 msg.
Proof. intro H. unfold Hmac.hmac. now rewrite H. Qed.

Lemma iter_pointwise {A : Type} (f g : A -> A) (n : N) (a : A) :
  (forall x, f x = g x) -> N.iter n f a = N.iter n g a.
Proof.
  intro H. induction n as [|n IH] using N.peano_ind; [reflexivity|].
  rewrite !N.iter_succ, IH. apply H.
Qed.

(** Passwords with the same padded block derive the same keys. *)
Lemma pbkdf2_block_key (p1 p2 salt : list byte) (c : N) (n : nat) :
  Hmac.block_key p1 = Hmac.block_key p2 ->
  Pbkdf2.derive_key p1 salt c n = Pbkdf2.derive_key p2 salt c n.
Proof.
  intro H. rewrite !Pbkdf2.derive_key_eq. unfold Pbkdf2.derive. f_equal.
  apply flat_map_ext. intro i. unfold Pbkdf2.block.
  rewrite (hmac_block_key p1 p2) by exact H. f_equal.
  apply iter_pointwise. intros [u t]. unfold Pbkdf2.step.
  now rewrite (hmac_block_key p1 p2) by exact H.
Qed.

End CryptoFacts.

(** From here on the primitives are used through the lemmas above only. *)
Global Opaque Sha256.hash Hmac.hmac Pbkdf2.derive Pbkdf2.derive_key Aes.encrypt
  Gcm.crypt Gcm.tag.

(** ** [encryption.js], function by function *)

Module EncryptionFacts.

Import Encryption.
Import Terms.

(** Unfolds the monad and the platform's objects. *)
Ltac run :=
  change (128 <? 16)%nat with false;
  cbv beta iota zeta delta
      [bind ret throw unmodelled emit try_catch
       Node.createCipheriv Node.createDecipheriv Node.decipher_setAuthTag
       Node.cipher_update Node.cipher_final Node.cipher_getAuthTag
       Node.decipher_update Node.decipher_final
       Node.c_fed Node.c_key Node.c_iv
       Node.d_fed Node.d_key Node.d_iv Node.d_tag bytes_of
       keyLength ivLength tagLength saltLength pbkdf2Iterations
       pbkdf2Digest algorithm ENCRYPTION_CONFIG];
  cbn [Nat.eqb orb negb app List.length skipn].

Lemma fresh_length (w : world) (skip n : nat) :
  List.length (fresh w skip n) = n.
Proof. unfold fresh. now rewrite length_map, length_seq. Qed.

Lemma key_of_length (password : list N) (salt : list byte) :
  List.length (key_of password salt) = 32%nat.
Proof. apply CryptoFacts.pbkdf2_key_length. Qed.

Lemma after_after (w : world) (n m : nat) (e1 e2 : list event) :
  after (after w n e1) m e2 = after w (n + m) (e1 ++ e2).
Proof.
  unfold after. cbn [entropy drawn trace].
  now rewrite Nat.add_assoc, app_assoc.
Qed.

Lemma fresh_after (w : world) (n k m : nat) (events : list event) :
  fresh (after w n events) k m = fresh w (n + k) m.
Proof.
  unfold fresh, after. cbn [entropy drawn]. now rewrite Nat.add_assoc.
Qed.

Lemma missing_or_not_length (n : nat) (b : list byte) :
  missing_or_not (Z.of_nat n) (Some b) = negb (List.length b =? n)%nat.
Proof.
  unfold missing_or_not, byte_length. f_equal.
  destruct (Nat.eqb_spec (List.length b) n) as [->|H].
  - apply Z.eqb_refl.
  - apply Z.eqb_neq. lia.
Qed.

Lemma randomBytes_16 (w : world) :
  Node.randomBytes 16 w = (Returned (fresh w 0 16), after w 16 [RandomBytes 16]).
Proof. unfold fresh. rewrite Nat.add_0_r. reflexivity. Qed.

Lemma randomBytes_32 (w : world) :
  Node.randomBytes 32 w = (Returned (fresh w 0 32), after w 32 [RandomBytes 32]).
Proof. unfold fresh. rewrite Nat.add_0_r. reflexivity. Qed.

Lemma deriveKeyFromPassword_given (password : list N) (salt : list byte)
      (w : world) :
  deriveKeyFromPassword password (Some salt) w
  = (Returned (mk_derived (key_of password salt) salt),
     after w 0 [derivation password salt]).
Proof.
  unfold after. rewrite Nat.add_0_r. reflexivity.
Qed.

Lemma deriveKeyFromPassword_fresh (password : list N) (w : world) :
  deriveKeyFromPassword password None w
  = (Returned (mk_derived (key_of password (fresh w 0 32)) (fresh w 0 32)),
     after w 32 [RandomBytes 32; derivation password (fresh w 0 32)]).
Proof.
  unfold deriveKeyFromPassword. run. rewrite randomBytes_32.
  unfold Node.pbkdf2. run.
  unfold after. cbn [entropy drawn trace]. rewrite <- app_assoc. reflexivity.
Qed.

Lemma encryptData_bad_key (data : payload_data) (key iv : option (list byte))
      (w : world) :
  missing_or_not 32 key = true ->
  encryptData data key iv w = (Threw (Text "Key must be 32 bytes"), w).
Proof.
  intro H. unfold encryptData.
  change (keyLength ENCRYPTION_CONFIG) with 32%Z. rewrite H. reflexivity.
Qed.

Lemma encryptData_given_iv (data : payload_data) (key iv : list byte)
      (w : world) :
  List.length key = 32%nat -> (1 <= List.length iv <= 128)%nat ->
  encryptData data (Some key) (Some iv) w
  = (Returned (sealed_with key iv (data_bytes data)),
     after w 0 [CipherCreated aes_256_gcm key iv]).
Proof.
  intros Hk [L1 L2]. unfold encryptData.
  change (keyLength ENCRYPTION_CONFIG) with (Z.of_nat 32).
  rewrite missing_or_not_length, Hk. run. rewrite Hk.
  replace (List.length iv =? 0)%nat with false
    by (symmetry; apply Nat.eqb_neq; lia).
  replace (128 <? List.length iv)%nat with false
    by (symmetry; apply Nat.ltb_ge; lia).
  run.
  rewrite app_nil_r. unfold after. rewrite Nat.add_0_r. reflexivity.
Qed.

Lemma encryptData_refused_iv (data : payload_data) (key iv : list byte)
      (w : world) :
  List.length key = 32%nat ->
  (List.length iv = 0 \/ 128 < List.length iv)%nat ->
  encryptData data (Some key) (Some iv) w
  = (Threw (Raised Error_invalid_iv),
     after w 0 [CipherCreated aes_256_gcm key iv]).
Proof.
  intros Hk L. unfold encryptData.
  change (keyLength ENCRYPTION_CONFIG) with (Z.of_nat 32).
  rewrite missing_or_not_length, Hk. run. rewrite Hk.
  replace ((List.length iv =? 0) || (128 <? List.length iv))%nat with true
    by (symmetry; apply orb_true_iff;
        destruct L; [left; apply Nat.eqb_eq|right; apply Nat.ltb_lt]; lia).
  run. unfold after. rewrite Nat.add_0_r. reflexivity.
Qed.

Lemma encryptData_fresh_iv (data : payload_data) (key : list byte)
      (w : world) :
  List.length key = 32%nat ->
  encryptData data (Some key) None w
  = (Returned (sealed_with key (fresh w 0 16) (data_bytes data)),
     after w 16 [RandomBytes 16; CipherCreated aes_256_gcm key (fresh w 0 16)]).
Proof.
  intros Hk. unfold encryptData.
  change (keyLength ENCRYPTION_CONFIG) with (Z.of_nat 32).
  rewrite missing_or_not_length, Hk. run. rewrite randomBytes_16.
  rewrite Hk, fresh_length. run.
  rewrite app_nil_r. unfold after. cbn [entropy drawn trace].
  rewrite <- app_assoc. reflexivity.
Qed.

Lemma decryptData_checked (ciphertext key iv tag : list byte) (w : world) :
  List.length key = 32%nat -> List.length iv = 16%nat ->
  List.length tag = 16%nat ->
  decryptData ciphertext (Some key) (Some iv) (Some tag) w
  = (opened_with key iv tag ciphertext,
     after w 0 [DecipherCreated aes_256_gcm key iv]).
Proof.
  intros Hk Hi Ht. unfold decryptData.
  change (keyLength ENCRYPTION_CONFIG) with (Z.of_nat 32).
  change (ivLength ENCRYPTION_CONFIG) with (Z.of_nat 16).
  change (tagLength ENCRYPTION_CONFIG) with (Z.of_nat 16).
  rewrite !missing_or_not_length, Hk, Hi, Ht. run.
  rewrite Hk, Hi, Ht. change (Node.valid_tag_length 16) with true. run.
  rewrite firstn_all2 by (rewrite CryptoFacts.tag_length; lia).
  unfold opened_with, after. rewrite Nat.add_0_r.
  destruct (Bytes.equal _ tag); [rewrite app_nil_r|]; reflexivity.
Qed.

(** The three guards of [decryptData], in the order of the source. *)
Lemma decryptData_guards (ciphertext : list byte)
      (key iv tag : option (list byte)) (w : world) :
  missing_or_not 32 key = true \/ missing_or_not 16 iv = true
  \/ missing_or_not 16 tag = true ->
  exists text,
    decryptData ciphertext key iv tag w = (Threw (Text text), w)
    /\ In text ["Key must be 32 bytes"; "IV must be 16 bytes";
                "Tag must be 16 bytes"]%string.
Proof.
  intro H. unfold decryptData.
  change (keyLength ENCRYPTION_CONFIG) with 32%Z.
  change (ivLength ENCRYPTION_CONFIG) with 16%Z.
  change (tagLength ENCRYPTION_CONFIG) with 16%Z.
  destruct (missing_or_not 32 key).
  { eexists. split; [reflexivity|]. cbn. auto. }
  destruct (missing_or_not 16 iv).
  { eexists. split; [reflexivity|]. cbn. auto. }
  destruct (missing_or_not 16 tag).
  { eexists. split; [reflexivity|]. cbn. auto. }
  destruct H as [H|[H|H]]; discriminate.
Qed.

Lemma try_catch_rethrow {A : Type} (prefix : string) (body : M A) (w : world) :
  try_catch body (fun error => throw (Prefixed prefix error)) w
  = (rethrow prefix (fst (body w)), snd (body w)).
Proof.
  unfold try_catch, throw. destruct (body w) as [[a|m|] w']; reflexivity.
Qed.

Lemma encryptWithPassword_run (data : payload_data) (password : list N)
      (w : world) :
  let key := key_of password (salt_in w) in
  let e := sealed_with key (iv_in w) (data_bytes data) in
  encryptWithPassword data password w
  = (Returned (mk_sealed (e_ciphertext e) (e_iv e) (e_tag e) (salt_in w)
                         aes_256_gcm),
     after w 48 (sealing_trace password w)).
Proof.
  intros key e. unfold encryptWithPassword, try_catch, bind.
  rewrite deriveKeyFromPassword_fresh. cbv beta iota. cbn [dk_key dk_salt].
  rewrite encryptData_fresh_iv by apply key_of_length. cbv beta iota.
  unfold ret. rewrite after_after, fresh_after. reflexivity.
Qed.

Lemma encryptCSVData_run (csvData password : list N) (w : world) :
  encryptCSVData csvData password w
  = (Returned (mk_export (sealed_text csvData password w) aes_256_gcm 100000),
     after w 48 (sealing_trace password w)).
Proof.
  unfold encryptCSVData, try_catch, bind.
  rewrite encryptWithPassword_run. reflexivity.
Qed.

Lemma decryptWithPassword_run (ciphertext : list byte) (password : list N)
      (salt iv tag : list byte) (w : world) :
  List.length iv = 16%nat -> List.length tag = 16%nat ->
  decryptWithPassword ciphertext password salt iv tag w
  = (rethrow "Decryption failed: "
       (opened_with (key_of password salt) iv tag ciphertext),
     after w 0 [derivation password salt;
                DecipherCreated aes_256_gcm (key_of password salt) iv]).
Proof.
  intros Hi Ht. unfold decryptWithPassword, try_catch, bind.
  rewrite deriveKeyFromPassword_given. cbv beta iota. cbn [dk_key].
  rewrite decryptData_checked by (assumption || apply key_of_length).
  rewrite after_after. cbn [Nat.add app].
  destruct (opened_with _ _ _ _); reflexivity.
Qed.

Lemma read_field_run (data : Json.value) (name : string) (w : world) :
  bind (Node.property data (lit name)) Node.Buffer_from_base64 w
  = (read_field data name, w).
Proof.
  unfold bind, Node.property, read_field, buffer_of.
  destruct data as [| | | | |members]; reflexivity.
Qed.

(** [decryptCSVData], step by step. *)
Lemma decryptCSVData_run (payload password : list N) (w : world) :
  decryptCSVData payload password w
  = match Json.parse payload with
    | None =>
        (Threw (Prefixed "CSV decryption failed: " (Raised SyntaxError_json)), w)
    | Some data =>
        match read_fields data with
        | Returned f =>
            let r := decryptWithPassword (f_ciphertext f) password (f_salt f)
                                         (f_iv f) (f_tag f) w in
            (rethrow "CSV decryption failed: " (fst r), snd r)
        | Threw m => (Threw (Prefixed "CSV decryption failed: " m), w)
        | Unmodelled => (Unmodelled, w)
        end
    end.
Proof.
  unfold decryptCSVData, try_catch. unfold bind at 1. unfold JSON_parse.
  destruct (Json.parse payload) as [data|]; [|reflexivity].
  unfold ret, read_fields.
  unfold bind at 1. rewrite (read_field_run data "ciphertext").
  destruct (read_field data "ciphertext") as [c|m|]; [|reflexivity..].
  unfold bind at 1. rewrite (read_field_run data "salt").
  destruct (read_field data "salt") as [s|m|]; [|reflexivity..].
  unfold bind at 1. rewrite (read_field_run data "iv").
  destruct (read_field data "iv") as [i|m|]; [|reflexivity..].
  unfold bind at 1. rewrite (read_field_run data "tag").
  destruct (read_field data "tag") as [t|m|]; [|reflexivity..].
  cbn [f_ciphertext f_salt f_iv f_tag].
  unfold bind.
  destruct (decryptWithPassword c password s i t w) as [[a|m|] w'];
    reflexivity.
Qed.

End EncryptionFacts.

(** ** Sealing and opening *)

Module Workflow.

Import Encryption EncryptionFacts.
Import Terms.

Lemma verdict_rethrown (key iv tag ciphertext : list byte) :
  rethrow "CSV decryption failed: "
    (rethrow "Decryption failed: " (opened_with key iv tag ciphertext))
  = verdict key iv tag ciphertext.
Proof.
  unfold opened_with, verdict.
  destruct (Bytes.equal _ tag); reflexivity.
Qed.

Lemma read_fields_envelope (salt iv tag ciphertext : list byte)
      (alg : cipher_name) (iterations : Z) :
  read_fields (envelope salt iv tag ciphertext alg iterations)
  = Returned (mk_fields ciphertext salt iv tag).
Proof.
  unfold read_fields, read_field, envelope.
  cbn [Json.member].
  repeat match goal with
         | |- context [units_eqb (lit ?a) (lit ?b)] =>
             let v := eval vm_compute in (units_eqb (lit a) (lit b)) in
             change (units_eqb (lit a) (lit b)) with v
         end.
  unfold buffer_of. cbn [Node.buffer_from].
  rewrite !Base64Facts.base64_decode_encode. reflexivity.
Qed.

(** Opening the text of an envelope whose nonce and tag have sixteen
    bytes. *)
Lemma open_envelope (salt iv tag ciphertext : list byte) (password : list N)
      (w : world) :
  List.length iv = 16%nat -> List.length tag = 16%nat ->
  decryptCSVData
    (Json.stringify (envelope salt iv tag ciphertext aes_256_gcm 100000))
    password w
  = (verdict (key_of password salt) iv tag ciphertext,
     after w 0 [derivation password salt;
                DecipherCreated aes_256_gcm (key_of password salt) iv]).
Proof.
  intros Hi Ht. rewrite decryptCSVData_run, JsonFacts.parse_envelope.
  rewrite read_fields_envelope. cbn [f_ciphertext f_salt f_iv f_tag].
  rewrite decryptWithPassword_run by assumption. cbn [fst snd].
  now rewrite verdict_rethrown.
Qed.

(** Sealing under [W1] and opening with [W2]: the keys meet at the tag. *)
Lemma seal_then_open_run (csvData W1 W2 : list N) (w : world) :
  let salt := salt_in w in
  let iv := iv_in w in
  let ciphertext := Gcm.crypt (key_of W1 salt) iv (Utf8.encode csvData) in
  fst (seal_then_open csvData W1 W2 w)
  = verdict (key_of W2 salt) iv (Gcm.tag (key_of W1 salt) iv ciphertext)
            ciphertext.
Proof.
  intros salt iv ciphertext. unfold seal_then_open, bind.
  rewrite encryptCSVData_run. cbn [payload]. unfold sealed_text.
  cbn [e_iv e_tag e_ciphertext sealed_with].
  rewrite open_envelope.
  - reflexivity.
  - apply fresh_length.
  - apply CryptoFacts.tag_length.
Qed.

Lemma verdict_same_key (key iv plaintext : list byte) :
  let ciphertext := Gcm.crypt key iv plaintext in
  verdict key iv (Gcm.tag key iv ciphertext) ciphertext
  = Returned (Utf8.decode plaintext).
Proof.
  intro ciphertext. unfold verdict.
  rewrite BytesFacts.equal_refl. subst ciphertext.
  now rewrite CryptoFacts.crypt_involutive.
Qed.

(** With the password it was sealed under, a text opens to its UTF-8
    reading. *)
Lemma seal_then_open_same (csvData password : list N) (w : world) :
  fst (seal_then_open csvData password password w)
  = Returned (Utf8.decode (Utf8.encode csvData)).
Proof.
  rewrite seal_then_open_run. apply verdict_same_key.
Qed.

(** C1 (as amended). Round trip: for every plaintext string [P] that is
    well formed (no unpaired surrogate), every password [W] and every state
    of the random generator, sealing [P] under [W] with [encryptCSVData] and
    opening the resulting text with [W] by [decryptCSVData] returns exactly
    [P]. *)
Theorem round_trip (P W : list N) (w : world) :
  Utf8.well_formed P = true ->
  fst (seal_then_open P W W w) = Returned P.
Proof.
  intro H. rewrite seal_then_open_same.
  f_equal. apply Utf8Facts.utf8_decode_encode. exact H.
Qed.

Lemma round_trip_witness :
  fst (seal_then_open (lit "city,postal_code") (lit "SecurePassword123")
                      (lit "SecurePassword123") initial_world)
  = Returned (lit "city,postal_code").
Proof. apply round_trip. reflexivity. Defined.

(** C1, as stated, fails on a plaintext that holds an unpaired surrogate:
    [Buffer.from(data, 'utf-8')] writes U+FFFD in its place, so the text
    that comes back differs from the text sealed. *)
Lemma round_trip_counterexample :
  fst (seal_then_open [0xD800] (lit "SecurePassword123")
                      (lit "SecurePassword123") initial_world)
  = Returned [0xFFFD]
  /\ [0xFFFD] <> [0xD800].
Proof.
  split; [|discriminate].
  rewrite seal_then_open_same. reflexivity.
Qed.

(** A text opens under every password that derives the key it was sealed
    with. *)
Lemma same_key_opens (csvData W1 W2 : list N) (w : world) :
  key_of W2 (salt_in w) = key_of W1 (salt_in w) ->
  fst (seal_then_open csvData W1 W2 w)
  = Returned (Utf8.decode (Utf8.encode csvData)).
Proof.
  intro H. rewrite seal_then_open_run, H. apply verdict_same_key.
Qed.

(** HMAC fills a short key with zero bytes, so a password and the same
    password followed by NUL characters derive the same key. *)
Lemma padded_password_key (W : list N) (salt : list byte) :
  Forall (fun c => c < 0x80) W -> (List.length W < 64)%nat ->
  key_of (W ++ [0]) salt = key_of W salt.
Proof.
  intros A L. unfold key_of. apply CryptoFacts.pbkdf2_block_key.
  assert (E : forall t, Forall (fun c => c < 0x80) t ->
                        Utf8.encode t = map Bytes.of_N t).
  { induction 1 as [|c r Hc Hr IH]; [reflexivity|].
    cbn [Utf8.encode map]. apply N.ltb_lt in Hc. now rewrite Hc, IH. }
  rewrite (E W A), (E (W ++ [0])).
  2:{ apply Forall_app. split; [exact A|].
      apply Forall_cons; [reflexivity|apply Forall_nil]. }
  rewrite map_app. cbn [map].
  set (p := map Bytes.of_N W).
  assert (Lp : List.length p = List.length W) by apply length_map.
  unfold Hmac.block_key, Hmac.block_size.
  rewrite length_app. cbn [List.length].
  replace (64 <? List.length p + 1)%nat with false
    by (symmetry; apply Nat.ltb_ge; lia).
  replace (64 <? List.length p)%nat with false
    by (symmetry; apply Nat.ltb_ge; lia).
  rewrite length_app, <- app_assoc. cbn [List.length app]. f_equal.
  replace (64 - List.length p)%nat with (S (64 - (List.length p + 1)))%nat
    by lia.
  reflexivity.
Qed.

(** C3 (as amended). Wrong password: for every plaintext [P] and passwords
    [W1] and [W2], opening the text sealed under [W1] with [W2] returns no
    plaintext and fails with the authentication error, unless the tag stored
    in the envelope also verifies under the key derived from [W2] and the
    stored salt; only then is the ciphertext, deciphered under that key,
    returned. *)
Theorem wrong_password (P W1 W2 : list N) (w : world) :
  let salt := salt_in w in
  let iv := iv_in w in
  let ciphertext := Gcm.crypt (key_of W1 salt) iv (Utf8.encode P) in
  let stored_tag := Gcm.tag (key_of W1 salt) iv ciphertext in
  fst (seal_then_open P W1 W2 w)
  = if Bytes.equal (Gcm.tag (key_of W2 salt) iv ciphertext) stored_tag
    then Returned (Utf8.decode (Gcm.crypt (key_of W2 salt) iv ciphertext))
    else Threw authentication_failure.
Proof.
  intros salt iv ciphertext stored_tag.
  rewrite seal_then_open_run. fold salt iv ciphertext stored_tag.
  unfold verdict. reflexivity.
Qed.

(** C3, as stated, fails: two distinct passwords can derive one key. The
    text sealed under a password opens under that password followed by a
    NUL character. *)
Lemma wrong_password_counterexample :
  lit "SecurePassword123" ++ [0] <> lit "SecurePassword123"
  /\ fst (seal_then_open (lit "city,postal_code") (lit "SecurePassword123")
                         (lit "SecurePassword123" ++ [0]) initial_world)
     = Returned (lit "city,postal_code").
Proof.
  split; [discriminate|].
  rewrite same_key_opens.
  - reflexivity.
  - apply padded_password_key.
    + cbv [lit list_ascii_of_string map].
      repeat (apply Forall_cons; [reflexivity|]). apply Forall_nil.
    + cbn. lia.
Qed.

(** A changed tag is always rejected. *)
Lemma tampered_tag_rejected (salt iv tag tag' ciphertext : list byte)
      (password : list N) (w : world) :
  List.length iv = 16%nat -> List.length tag' = 16%nat ->
  Gcm.tag (key_of password salt) iv ciphertext = tag -> tag' <> tag ->
  fst (decryptCSVData
         (Json.stringify (envelope salt iv tag' ciphertext aes_256_gcm 100000))
         password w)
  = Threw authentication_failure.
Proof.
  intros Hi Ht E D. rewrite open_envelope by assumption. cbn [fst].
  unfold verdict. rewrite E.
  rewrite BytesFacts.equal_neq by (intro; apply D; congruence). reflexivity.
Qed.

End Workflow.

(** ** The envelope on the way in *)

Module Envelope.

Import Encryption EncryptionFacts Workflow.
Import Terms.

(** With a key of the right length, a nonce or a tag of another length
    stops [decryptData] before the decipher is created. *)
Lemma decryptData_bad_iv (ciphertext key iv : list byte)
      (tag : option (list byte)) (w : world) :
  List.length key = 32%nat -> List.length iv <> 16%nat ->
  decryptData ciphertext (Some key) (Some iv) tag w
  = (Threw (Text "IV must be 16 bytes"), w).
Proof.
  intros Hk Hi. unfold decryptData.
  change (keyLength ENCRYPTION_CONFIG) with (Z.of_nat 32).
  change (ivLength ENCRYPTION_CONFIG) with (Z.of_nat 16).
  rewrite !missing_or_not_length, Hk. cbn [Nat.eqb negb].
  apply Nat.eqb_neq in Hi. rewrite Hi. reflexivity.
Qed.

Lemma decryptData_bad_tag (ciphertext key iv tag : list byte) (w : world) :
  List.length key = 32%nat -> List.length iv = 16%nat ->
  List.length tag <> 16%nat ->
  decryptData ciphertext (Some key) (Some iv) (Some tag) w
  = (Threw (Text "Tag must be 16 bytes"), w).
Proof.
  intros Hk Hi Ht. unfold decryptData.
  change (keyLength ENCRYPTION_CONFIG) with (Z.of_nat 32).
  change (ivLength ENCRYPTION_CONFIG) with (Z.of_nat 16).
  change (tagLength ENCRYPTION_CONFIG) with (Z.of_nat 16).
  rewrite !missing_or_not_length, Hk, Hi. cbn [Nat.eqb negb].
  apply Nat.eqb_neq in Ht. rewrite Ht. reflexivity.
Qed.

Lemma decryptWithPassword_bad_iv (ciphertext : list byte) (password : list N)
      (salt iv tag : list byte) (w : world) :
  List.length iv <> 16%nat ->
  decryptWithPassword ciphertext password salt iv tag w
  = (Threw (Prefixed "Decryption failed: " (Text "IV must be 16 bytes")),
     after w 0 [derivation password salt]).
Proof.
  intro H. unfold decryptWithPassword, try_catch, bind.
  rewrite deriveKeyFromPassword_given. cbv beta iota. cbn [dk_key].
  rewrite decryptData_bad_iv by (exact H || apply key_of_length).
  reflexivity.
Qed.

Lemma decryptWithPassword_bad_tag (ciphertext : list byte) (password : list N)
      (salt iv tag : list byte) (w : world) :
  List.length iv = 16%nat -> List.length tag <> 16%nat ->
  decryptWithPassword ciphertext password salt iv tag w
  = (Threw (Prefixed "Decryption failed: " (Text "Tag must be 16 bytes")),
     after w 0 [derivation password salt]).
Proof.
  intros Hi Ht. unfold decryptWithPassword, try_catch, bind.
  rewrite deriveKeyFromPassword_given. cbv beta iota. cbn [dk_key].
  rewrite decryptData_bad_tag by (assumption || apply key_of_length).
  reflexivity.
Qed.

(** What [decryptWithPassword] asks of the [crypto] module: one key
    derivation, then at most one decipher. *)
Lemma decryptWithPassword_trace (ciphertext : list byte) (password : list N)
      (salt iv tag : list byte) (w : world) :
  exists rest,
    trace (snd (decryptWithPassword ciphertext password salt iv tag w))
    = trace w ++ derivation password salt :: rest
    /\ Forall (fun e => exists key nonce,
                   e = DecipherCreated aes_256_gcm key nonce) rest.
Proof.
  destruct (Nat.eq_dec (List.length iv) 16) as [Hi|Hi];
    [destruct (Nat.eq_dec (List.length tag) 16) as [Ht|Ht]|].
  - rewrite decryptWithPassword_run by assumption. cbn [snd after trace].
    eexists. split; [reflexivity|].
    apply Forall_cons; [eauto|apply Forall_nil].
  - rewrite decryptWithPassword_bad_tag by assumption.
    cbn [snd after trace]. exists []. split; [reflexivity|apply Forall_nil].
  - rewrite decryptWithPassword_bad_iv by assumption.
    cbn [snd after trace]. exists []. split; [reflexivity|apply Forall_nil].
Qed.

(** C4 (as amended). [decryptCSVData] derives the key from the password
    and the salt stored in the envelope with the fixed iteration count
    100000 of [ENCRYPTION_CONFIG] (key length 32, SHA-256), whatever
    iteration count the envelope records: for every text that parses and
    whose four byte fields can be read, the only key derivation of the run
    is [pbkdf2(password, stored salt, 100000, 32, 'sha256')], followed by
    nothing but the creation of the decipher. *)
Theorem stored_iterations_ignored (payload W : list N) (w : world)
        (data : Json.value) (f : fields) :
  Json.parse payload = Some data ->
  read_fields data = Returned f ->
  exists rest,
    trace (snd (decryptCSVData payload W w))
    = trace w ++ Pbkdf2Call (Utf8.encode W) (f_salt f) 100000 32 sha256 :: rest
    /\ Forall (fun e => exists key nonce,
                   e = DecipherCreated aes_256_gcm key nonce) rest.
Proof.
  intros Hp Hf. rewrite decryptCSVData_run, Hp, Hf. cbv zeta. cbn [snd].
  apply decryptWithPassword_trace.
Qed.

Lemma one_iteration_parsed :
  Json.parse (Json.stringify one_iteration) = Some one_iteration.
Proof. vm_compute. reflexivity. Qed.

Lemma stored_iterations_ignored_witness :
  exists rest,
    trace (snd (decryptCSVData (Json.stringify one_iteration)
                               (lit "SecurePassword123") initial_world))
    = trace initial_world
      ++ Pbkdf2Call (Utf8.encode (lit "SecurePassword123"))
                    (f_salt (mk_fields [] (Bytes.zeros 32) (Bytes.zeros 16)
                                       (Bytes.zeros 16)))
                    100000 32 sha256 :: rest
    /\ Forall (fun e => exists key nonce,
                   e = DecipherCreated aes_256_gcm key nonce) rest.
Proof.
  apply stored_iterations_ignored with (data := one_iteration).
  - exact one_iteration_parsed.
  - apply read_fields_envelope.
Defined.

Lemma stored_iterations_ignored_helper :
  exists rest,
    trace (snd (decryptCSVData (Json.stringify one_iteration)
                               (lit "SecurePassword123") initial_world))
    = Pbkdf2Call (Utf8.encode (lit "SecurePassword123")) (Bytes.zeros 32)
                 100000 32 sha256 :: rest.
Proof.
  rewrite decryptCSVData_run, one_iteration_parsed.
  unfold one_iteration. rewrite read_fields_envelope. cbv zeta. cbn [snd].
  destruct (decryptWithPassword_trace [] (lit "SecurePassword123")
              (Bytes.zeros 32) (Bytes.zeros 16) (Bytes.zeros 16)
              initial_world) as (rest & E & _).
  exists rest. exact E.
Qed.

(** C4, as stated, fails: for an envelope whose [iterations] field is 1,
    the key is still derived with 100000 iterations. *)
Lemma stored_iterations_counterexample :
  Json.member (lit "iterations")
    (match one_iteration with Json.Object ms => ms | _ => [] end)
  = Some (Json.Number (lit "1"))
  /\ exists rest,
      trace (snd (decryptCSVData (Json.stringify one_iteration)
                                 (lit "SecurePassword123") initial_world))
      = Pbkdf2Call (Utf8.encode (lit "SecurePassword123")) (Bytes.zeros 32)
                   100000 32 sha256 :: rest.
Proof.
  split; [reflexivity|].
  destruct stored_iterations_ignored_helper as [rest E]. exists rest. exact E.
Qed.

(** *** Malformed envelopes *)

Lemma refused_throws (x : option Json.value) :
  is_text x = false -> is_refused x = true ->
  buffer_of x = Threw (Raised TypeError_buffer_argument).
Proof.
  destruct x as [[| | | | |]|]; cbn; try discriminate; reflexivity.
Qed.

Lemma text_returns (x : option Json.value) :
  is_text x = true -> exists b, buffer_of x = Returned b.
Proof.
  destruct x as [[| | |s| |]|]; cbn; try discriminate. eauto.
Qed.

Lemma read_fields_malformed (ms : list (list N * Json.value)) :
  first_other_refused ms byte_fields = true ->
  read_fields (Json.Object ms) = Threw (Raised TypeError_buffer_argument).
Proof.
  unfold read_fields, read_field, byte_fields. cbn [first_other_refused].
  repeat match goal with
    | |- (if is_text ?x then _ else _) = true -> _ =>
        let T := fresh "T" in
        destruct (is_text x) eqn:T;
          [destruct (text_returns x T) as [? ->]
          |intro R; now rewrite (refused_throws x T R)]
    end.
  discriminate.
Qed.

Lemma read_fields_all_text (ms : list (list N * Json.value)) :
  all_text ms = true -> exists f, read_fields (Json.Object ms) = Returned f.
Proof.
  unfold all_text, byte_fields, read_fields, read_field. cbn [forallb].
  rewrite !andb_true_iff. intros (C & S & I & T & _).
  destruct (text_returns _ C) as [c ->], (text_returns _ S) as [s ->],
           (text_returns _ I) as [i ->], (text_returns _ T) as [t ->].
  eauto.
Qed.

(** C5 (as amended). Format rejection: for every envelope text that is
    not JSON, or is JSON but not an object, or is an object in which the
    first of the fields [ciphertext], [salt], [iv], [tag] - the order in
    which they are read - that is not a string is missing or is [null], a
    boolean or a number, [decryptCSVData] fails: it throws, with the
    message [CSV decryption failed: ] followed by the platform's syntax or
    type error, which is not the message of an authentication failure, and
    it does so before any key derivation or decryption - the world is left
    as it was, no call to [crypto] made. An object whose four byte fields
    are strings is never rejected that early, whatever the strings hold:
    the key is derived from the password and what the [salt] string
    decodes to. *)
Theorem malformed_rejected (payload W : list N) (w : world) :
  (malformed payload = true ->
   exists e,
     decryptCSVData payload W w
     = (Threw (Prefixed "CSV decryption failed: " (Raised e)), w)
     /\ In e [SyntaxError_json; TypeError_null_property;
              TypeError_buffer_argument])
  /\ (forall ms,
         Json.parse payload = Some (Json.Object ms) -> all_text ms = true ->
         exists salt rest,
           Json.member (lit "salt") ms = Some (Json.String salt)
           /\ trace (snd (decryptCSVData payload W w))
              = trace w
                ++ Pbkdf2Call (Utf8.encode W) (Base64.decode salt) 100000 32
                              sha256 :: rest).
Proof.
  split.
  - unfold malformed. intro H. rewrite decryptCSVData_run.
    destruct (Json.parse payload) as [data|].
    + destruct data as [|b|lexeme|s|items|ms].
      * exists TypeError_null_property. split; [reflexivity|]. cbn. auto.
      * exists TypeError_buffer_argument. split; [reflexivity|]. cbn. auto.
      * exists TypeError_buffer_argument. split; [reflexivity|]. cbn. auto.
      * exists TypeError_buffer_argument. split; [reflexivity|]. cbn. auto.
      * exists TypeError_buffer_argument. split; [reflexivity|]. cbn. auto.
      * rewrite (read_fields_malformed ms H).
        exists TypeError_buffer_argument. split; [reflexivity|]. cbn. auto.
    + exists SyntaxError_json. split; [reflexivity|]. cbn. auto.
  - intros ms P A. rewrite decryptCSVData_run, P.
    destruct (read_fields_all_text ms A) as [f F].
    assert (S : exists salt,
               Json.member (lit "salt") ms = Some (Json.String salt)
               /\ f_salt f = Base64.decode salt).
    { revert F. unfold read_fields, read_field.
      unfold all_text, byte_fields in A. cbn [forallb] in A.
      rewrite !andb_true_iff in A. destruct A as (C & S & I & T & _).
      destruct (text_returns _ C) as [c ->].
      destruct (Json.member (lit "salt") ms) as [[| | |salt| |]|];
        try discriminate.
      cbn [buffer_of Node.buffer_from].
      destruct (text_returns _ I) as [i ->], (text_returns _ T) as [t ->].
      intro F. injection F as <-. eauto. }
    destruct S as (salt & M & D). rewrite F. cbv zeta. cbn [snd].
    destruct (decryptWithPassword_trace (f_ciphertext f) W (f_salt f)
                (f_iv f) (f_tag f) w) as (rest & E & _).
    exists salt, rest. split; [exact M|]. rewrite E, D. reflexivity.
Qed.

Lemma malformed_rejected_witness :
  exists e,
    decryptCSVData (Json.stringify salt_only) (lit "SecurePassword123")
                   initial_world
    = (Threw (Prefixed "CSV decryption failed: " (Raised e)), initial_world)
    /\ In e [SyntaxError_json; TypeError_null_property;
             TypeError_buffer_argument].
Proof.
  apply (proj1 (malformed_rejected (Json.stringify salt_only)
                                   (lit "SecurePassword123") initial_world)).
  vm_compute. reflexivity.
Defined.

Lemma bad_base64_parsed :
  Json.parse (Json.stringify bad_base64) = Some bad_base64.
Proof. vm_compute. reflexivity. Qed.

Lemma bad_base64_fields :
  read_fields bad_base64
  = Returned (mk_fields [x00; x00; x00] [x00; x00; x00] [] [x00; x00; x00]).
Proof. vm_compute. reflexivity. Qed.

(** C5, as stated, fails on a byte field that is not valid base64:
    [Buffer.from] skips what it cannot decode, the key is derived, and only
    then [decryptData] stops at the length of the nonce, with the same
    [Decryption failed: ] prefix an authentication failure has. *)
Lemma malformed_counterexample :
  Base64.value 64 = None
  /\ decryptCSVData (Json.stringify bad_base64) (lit "SecurePassword123")
                    initial_world
     = (Threw (Prefixed "CSV decryption failed: "
                 (Prefixed "Decryption failed: " (Text "IV must be 16 bytes"))),
        mk_world (entropy initial_world) 0
          [Pbkdf2Call (Utf8.encode (lit "SecurePassword123")) [x00; x00; x00]
                      100000 32 sha256]).
Proof.
  split; [reflexivity|].
  rewrite decryptCSVData_run, bad_base64_parsed, bad_base64_fields.
  cbv zeta. cbn [f_ciphertext f_salt f_iv f_tag].
  rewrite decryptWithPassword_bad_iv by (cbn; discriminate).
  reflexivity.
Qed.

End Envelope.

(** ** The two units on their own *)

Module Units.

Import Encryption EncryptionFacts.
Import Terms.

(** C6 (as amended). [deriveKeyFromPassword] takes neither a key length nor
    an iteration count - both are the positive constants 32 and 100000 of
    [ENCRYPTION_CONFIG] - and checks no salt length: for every password and
    every salt supplied, of any length, it signals no failure and returns
    the 32-byte key PBKDF2 derives from them together with that salt; with
    no salt supplied it does the same with 32 fresh random bytes. *)
Theorem derivation_never_fails (password : list N)
        (salt : option (list byte)) (w : world) :
  let used := match salt with
              | Some s => s
              | None => fresh w 0 32
              end in
  fst (deriveKeyFromPassword password salt w)
  = Returned (mk_derived (key_of password used) used)
  /\ key_of password used
     = Pbkdf2.derive (Utf8.encode password) used 100000 32
  /\ List.length (key_of password used) = 32%nat
  /\ (salt = None -> List.length used = 32%nat)
  /\ (keyLength ENCRYPTION_CONFIG = 32 /\
      pbkdf2Iterations ENCRYPTION_CONFIG = 100000)%Z.
Proof.
  intro used. split; [|split; [|split; [|split]]].
  - destruct salt as [s|]; subst used.
    + now rewrite deriveKeyFromPassword_given.
    + now rewrite deriveKeyFromPassword_fresh.
  - apply Pbkdf2.derive_key_eq.
  - apply key_of_length.
  - intros ->. subst used. apply fresh_length.
  - split; reflexivity.
Qed.

(** C6, as stated, fails: a salt of one byte, not 32, raises no failure. *)
Lemma derivation_counterexample :
  List.length [x2a] <> 32%nat
  /\ fst (deriveKeyFromPassword (lit "SecurePassword123") (Some [x2a])
                                initial_world)
     = Returned (mk_derived (key_of (lit "SecurePassword123") [x2a]) [x2a]).
Proof.
  split; [discriminate|].
  rewrite deriveKeyFromPassword_given. reflexivity.
Qed.

(** C7 (as amended). For every plaintext (a string, taken in UTF-8, or a
    buffer) and every 32-byte key, [encryptData] called without a nonce, or
    with a nonce of 1 to 128 bytes, returns a ciphertext of exactly as many
    bytes as the plaintext and, in a field of its own, a tag of 16 bytes,
    together with the nonce used - the one given, or 16 fresh random bytes.
    Called with an empty nonce, or one of more than 128 bytes, it returns
    nothing: it throws the platform's error for an invalid nonce. *)
Theorem ciphertext_and_tag (data : payload_data) (key : list byte)
        (iv : option (list byte)) (w : world) :
  List.length key = 32%nat ->
  (match iv with
   | Some nonce => (1 <= List.length nonce <= 128)%nat
   | None => True
   end ->
   exists e w',
     encryptData data (Some key) iv w = (Returned e, w')
     /\ List.length (e_ciphertext e) = List.length (data_bytes data)
     /\ List.length (e_tag e) = 16%nat
     /\ e_algorithm e = aes_256_gcm
     /\ e_iv e = match iv with
                 | Some nonce => nonce
                 | None => fresh w 0 16
                 end)
  /\ (forall nonce,
         iv = Some nonce ->
         (List.length nonce = 0 \/ 128 < List.length nonce)%nat ->
         fst (encryptData data (Some key) iv w)
         = Threw (Raised Error_invalid_iv)).
Proof.
  intros Hk. split.
  - intro Hiv. destruct iv as [iv|].
    + rewrite encryptData_given_iv by assumption.
      do 2 eexists. split; [reflexivity|].
      cbn [sealed_with e_ciphertext e_tag e_iv e_algorithm].
      rewrite CryptoFacts.crypt_length, CryptoFacts.tag_length. auto.
    + rewrite encryptData_fresh_iv by assumption.
      do 2 eexists. split; [reflexivity|].
      cbn [sealed_with e_ciphertext e_tag e_iv e_algorithm].
      rewrite CryptoFacts.crypt_length, CryptoFacts.tag_length. auto.
  - intros nonce -> L. now rewrite encryptData_refused_iv.
Qed.

Lemma ciphertext_and_tag_witness :
  exists e w',
    encryptData (StringData (lit "city,postal_code"))
                (Some (Bytes.zeros 32)) None initial_world
    = (Returned e, w')
    /\ List.length (e_ciphertext e)
       = List.length (data_bytes (StringData (lit "city,postal_code")))
    /\ List.length (e_tag e) = 16%nat
    /\ e_algorithm e = aes_256_gcm
    /\ e_iv e = fresh initial_world 0 16.
Proof.
  apply (proj1 (ciphertext_and_tag (StringData (lit "city,postal_code"))
                                   (Bytes.zeros 32) None initial_world
                                   eq_refl)).
  exact I.
Defined.

(** C7, as stated, fails for a key of 32 bytes and a nonce of 129 bytes:
    [encryptData] hands the nonce to [createCipheriv] as it is, which
    refuses it, and nothing is produced. *)
Lemma ciphertext_and_tag_counterexample :
  List.length (Bytes.zeros 32) = 32%nat
  /\ fst (encryptData (StringData (lit "city,postal_code"))
                      (Some (Bytes.zeros 32)) (Some (Bytes.zeros 129))
                      initial_world)
     = Threw (Raised Error_invalid_iv).
Proof.
  split; [reflexivity|].
  rewrite encryptData_refused_iv; [reflexivity|reflexivity|].
  right. rewrite BytesFacts.zeros_length. lia.
Qed.

(** C8. Key derivation is deterministic: two calls of
    [deriveKeyFromPassword] with the same password and the same salt, in
    whatever states of the world, return the same key - of 32 bytes - and
    the salt they were given. *)
Theorem derivation_deterministic (password : list N) (salt : list byte)
        (w1 w2 : world) :
  fst (deriveKeyFromPassword password (Some salt) w1)
  = fst (deriveKeyFromPassword password (Some salt) w2)
  /\ exists key,
      fst (deriveKeyFromPassword password (Some salt) w1)
      = Returned (mk_derived key salt)
      /\ List.length key = 32%nat.
Proof.
  rewrite !deriveKeyFromPassword_given. cbn [fst]. split; [reflexivity|].
  exists (key_of password salt). split; [reflexivity|apply key_of_length].
Qed.

Lemma decryptData_bad_key (ciphertext key : list byte)
      (iv tag : option (list byte)) (w : world) :
  List.length key <> 32%nat ->
  decryptData ciphertext (Some key) iv tag w
  = (Threw (Text "Key must be 32 bytes"), w).
Proof.
  intro Hk. unfold decryptData.
  change (keyLength ENCRYPTION_CONFIG) with (Z.of_nat 32).
  rewrite missing_or_not_length.
  apply Nat.eqb_neq in Hk. rewrite Hk. reflexivity.
Qed.

(** C10. The cipher unit checks the lengths of its buffers before any
    cryptographic work. [decryptData] throws, leaving the world as it was
    (no decipher created, nothing decrypted), whenever the key is not of 32
    bytes, the nonce not of 16 bytes or the tag not of 16 bytes - with the
    message of the first of these checks that fails - and also when one of
    the three is missing; [encryptData] throws, the same way, whenever the
    key is not of 32 bytes or is missing. With a key of 32 bytes, a nonce
    of 16 and a tag of 16, [decryptData] does not end in one of these
    errors and creates its decipher; with a key of 32 bytes, neither does
    [encryptData]. *)
Theorem length_guards (ciphertext key iv tag : list byte)
        (data : payload_data) (nonce : option (list byte)) (w : world) :
  (List.length key <> 32%nat \/ List.length iv <> 16%nat
   \/ List.length tag <> 16%nat ->
   decryptData ciphertext (Some key) (Some iv) (Some tag) w
   = (Threw
        (Text (if negb (List.length key =? 32)%nat then "Key must be 32 bytes"
               else if negb (List.length iv =? 16)%nat
                    then "IV must be 16 bytes"
                    else "Tag must be 16 bytes")),
      w))
  /\ decryptData ciphertext None (Some iv) (Some tag) w
     = (Threw (Text "Key must be 32 bytes"), w)
  /\ (List.length key = 32%nat ->
      decryptData ciphertext (Some key) None (Some tag) w
      = (Threw (Text "IV must be 16 bytes"), w))
  /\ (List.length key = 32%nat -> List.length iv = 16%nat ->
      decryptData ciphertext (Some key) (Some iv) None w
      = (Threw (Text "Tag must be 16 bytes"), w))
  /\ (List.length key <> 32%nat ->
      encryptData data (Some key) nonce w
      = (Threw (Text "Key must be 32 bytes"), w))
  /\ encryptData data None nonce w = (Threw (Text "Key must be 32 bytes"), w)
  /\ (List.length key = 32%nat -> List.length iv = 16%nat ->
      List.length tag = 16%nat ->
      (forall text,
          fst (decryptData ciphertext (Some key) (Some iv) (Some tag) w)
          <> Threw (Text text))
      /\ trace (snd (decryptData ciphertext (Some key) (Some iv) (Some tag) w))
         = trace w ++ [DecipherCreated aes_256_gcm key iv])
  /\ (List.length key = 32%nat ->
      forall text,
        fst (encryptData data (Some key) nonce w) <> Threw (Text text)).
Proof.
  split; [|split; [|split; [|split; [|split; [|split; [|split]]]]]].
  - intro H. destruct (List.length key =? 32)%nat eqn:Ek; cbn [negb].
    + apply Nat.eqb_eq in Ek.
      destruct (List.length iv =? 16)%nat eqn:Ei; cbn [negb].
      * apply Nat.eqb_eq in Ei. apply Envelope.decryptData_bad_tag; lia.
      * apply Nat.eqb_neq in Ei. now apply Envelope.decryptData_bad_iv.
    + apply Nat.eqb_neq in Ek. now apply decryptData_bad_key.
  - reflexivity.
  - intro Hk. unfold decryptData.
    change (keyLength ENCRYPTION_CONFIG) with (Z.of_nat 32).
    rewrite missing_or_not_length, Hk. reflexivity.
  - intros Hk Hi. unfold decryptData.
    change (keyLength ENCRYPTION_CONFIG) with (Z.of_nat 32).
    change (ivLength ENCRYPTION_CONFIG) with (Z.of_nat 16).
    rewrite !missing_or_not_length, Hk, Hi. reflexivity.
  - intro Hk. apply encryptData_bad_key.
    change 32%Z with (Z.of_nat 32). rewrite missing_or_not_length.
    apply Nat.eqb_neq in Hk. now rewrite Hk.
  - reflexivity.
  - intros Hk Hi Ht. rewrite decryptData_checked by assumption.
    cbn [fst snd after trace]. split; [|reflexivity].
    intro text. unfold opened_with. destruct (Bytes.equal _ tag); discriminate.
  - intros Hk text. destruct nonce as [n|].
    + destruct (Nat.eq_dec (List.length n) 0) as [Z|Z];
        [|destruct (Nat.le_gt_cases (List.length n) 128) as [L|L]].
      * rewrite encryptData_refused_iv by auto. discriminate.
      * rewrite encryptData_given_iv by (assumption || lia). discriminate.
      * rewrite encryptData_refused_iv by auto. discriminate.
    + rewrite encryptData_fresh_iv by assumption. discriminate.
Qed.

Lemma length_guards_witness :
  decryptData [x00] (Some (Bytes.zeros 32)) (Some (Bytes.zeros 16))
              (Some (Bytes.zeros 15)) initial_world
  = (Threw
       (Text (if negb (List.length (Bytes.zeros 32) =? 32)%nat
              then "Key must be 32 bytes"
              else if negb (List.length (Bytes.zeros 16) =? 16)%nat
                   then "IV must be 16 bytes"
                   else "Tag must be 16 bytes")),
     initial_world).
Proof.
  apply (proj1 (length_guards [x00] (Bytes.zeros 32) (Bytes.zeros 16)
                              (Bytes.zeros 15) (BufferData []) None
                              initial_world)).
  right. right. discriminate.
Defined.

End Units.

(** ** The CSV export *)

Module ServerFacts.

Import Server.
Import Terms.

Lemma entry_ignores_cvv (data : billing) (v field : list N) :
  entry (with_cvv data v) field = entry data field.
Proof.
  unfold entry, lookup, fieldMap. cbn [find].
  repeat match goal with
         | |- context [units_eqb field (lit ?k)] =>
             destruct (units_eqb field (lit k)); [reflexivity|]
         end.
  reflexivity.
Qed.

Lemma entries_ignore_cvv (data : billing) (v : list N)
      (fields : list (list N)) :
  entries (with_cvv data v) fields = entries data fields.
Proof.
  induction fields as [|f r IH]; [reflexivity|].
  cbn [entries]. now rewrite entry_ignores_cvv, IH.
Qed.

(** The stored CVV never reaches the export: whatever its value, and
    whatever fields are selected, the CSV is the same. *)
Lemma cvv_never_exported (data : billing) (v : list N)
      (fields : list (list N)) :
  buildCSVData (with_cvv data v) fields = buildCSVData data fields.
Proof.
  unfold buildCSVData. now rewrite entries_ignore_cvv.
Qed.

(** The [cvv] field is written as three stars. *)
Lemma cvv_masked (data : billing) :
  buildCSVData data [lit "cvv"] = Returned (lit "cvv" ++ 10 :: lit "***").
Proof. reflexivity. Qed.

(** A name that neither [fieldMap] nor [Object.prototype] defines gives an
    empty entry. *)
Lemma unknown_field_empty (data : billing) (field : list N) :
  find field (fieldMap data) = None ->
  find field Object_prototype = None ->
  entry data field = Returned (StringCell []).
Proof.
  intros H1 H2. unfold entry, lookup. now rewrite H1, H2.
Qed.

(** C9, at its failing input. For a selected field named [__proto__],
    [fieldMap[field]] is the prototype object, which is truthy and not a
    function: [buildCSVData] throws instead of writing an empty value, and
    the export route answers 500. For [constructor] the entry is not empty
    either. *)
Theorem inherited_field_not_empty :
  buildCSVData mockBillingData [lit "__proto__"]
  = Threw (Raised TypeError_not_a_function)
  /\ fst (export_encrypted_csv (lit "SecurePassword123") [lit "__proto__"]
                               initial_world)
     = Returned (Status500 "Failed to encrypt CSV data")
  /\ buildCSVData mockBillingData [lit "constructor"]
     = Returned (lit "constructor" ++ 10 :: lit "[object Object]").
Proof.
  split; [reflexivity|]. split; [|reflexivity].
  unfold export_encrypted_csv, try_catch, bind, lift.
  replace (buildCSVData mockBillingData [lit "__proto__"])
    with (@Threw (list N) (Raised TypeError_not_a_function))
    by reflexivity.
  reflexivity.
Qed.

End ServerFacts.

(** ** The workflow as a whole: what sealing and opening always do *)

Module Sealing.

Import Encryption EncryptionFacts.
Import Terms.

(** [decryptWithPassword] on any five arguments: the key is derived first,
    then the two lengths are checked, then the tag. *)
Lemma decryptWithPassword_outcome (ciphertext : list byte) (password : list N)
      (salt iv tag : list byte) (w : world) :
  decryptWithPassword ciphertext password salt iv tag w
  = if negb (List.length iv =? 16)%nat
    then (Threw (Prefixed "Decryption failed: " (Text "IV must be 16 bytes")),
          after w 0 [derivation password salt])
    else if negb (List.length tag =? 16)%nat
    then (Threw (Prefixed "Decryption failed: " (Text "Tag must be 16 bytes")),
          after w 0 [derivation password salt])
    else (rethrow "Decryption failed: "
            (opened_with (key_of password salt) iv tag ciphertext),
          after w 0 [derivation password salt;
                     DecipherCreated aes_256_gcm (key_of password salt) iv]).
Proof.
  destruct (List.length iv =? 16)%nat eqn:Ei; cbn [negb].
  - apply Nat.eqb_eq in Ei.
    destruct (List.length tag =? 16)%nat eqn:Et; cbn [negb].
    + apply Nat.eqb_eq in Et. now apply decryptWithPassword_run.
    + apply Nat.eqb_neq in Et. now apply Envelope.decryptWithPassword_bad_tag.
  - apply Nat.eqb_neq in Ei. now apply Envelope.decryptWithPassword_bad_iv.
Qed.

Lemma elements_throws (l : list Json.value) (m : message) :
  Node.elements l = Threw m -> m = Raised TypeError_to_primitive.
Proof.
  induction l as [|v r IH]; cbn [Node.elements]; [discriminate|].
  destruct (Node.unprintable v); [intro H; now injection H|].
  destruct (Node.elements r); try discriminate.
  intro H. injection H as <-. now apply IH.
Qed.

Lemma buffer_of_throws (x : option Json.value) (m : message) :
  buffer_of x = Threw m ->
  In m [Raised TypeError_buffer_argument; Raised TypeError_not_a_function;
        Raised TypeError_to_primitive].
Proof.
  assert (O : forall ms,
             Node.from_object ms = Threw m ->
             In m [Raised TypeError_buffer_argument;
                   Raised TypeError_not_a_function;
                   Raised TypeError_to_primitive]).
  { intro ms. unfold Node.from_object.
    repeat match goal with
      | |- context [match ?x with _ => _ end] => destruct x
      | |- Node.elements _ = _ -> _ =>
          let H := fresh in intro H; apply elements_throws in H; subst;
                            cbn; auto
      | |- Threw _ = Threw _ -> _ =>
          let H := fresh in intro H; injection H as <-; cbn; auto
      | |- _ = _ -> _ => discriminate
      end. }
  unfold buffer_of, Node.buffer_from.
  destruct x as [[| | |s|items|ms]|];
    try (intro H; injection H as <-; cbn; auto; fail);
    try discriminate.
  - intro H. apply elements_throws in H. subst. cbn. auto.
  - destruct (Json.member (lit "valueOf") ms) as [v|]; [|apply O].
    destruct (Node.truthy v); [intro H; injection H as <-; cbn; auto|].
    destruct v; try apply O. discriminate.
Qed.

Lemma read_fields_throws (data : Json.value) (m : message) :
  read_fields data = Threw m ->
  In m [Raised TypeError_null_property; Raised TypeError_buffer_argument;
        Raised TypeError_not_a_function; Raised TypeError_to_primitive].
Proof.
  assert (B : forall x, buffer_of x = Threw m ->
                        In m [Raised TypeError_null_property;
                              Raised TypeError_buffer_argument;
                              Raised TypeError_not_a_function;
                              Raised TypeError_to_primitive])
    by (intros x H; right; now apply (buffer_of_throws x)).
  unfold read_fields, read_field.
  destruct data as [|b|lexeme|s|items|ms];
    try (intro H; injection H as <-; cbn; auto; fail).
  repeat match goal with
    | |- context [buffer_of ?x] =>
        let E := fresh "E" in
        destruct (buffer_of x) eqn:E;
          [|intro H; injection H as <-; now apply (B x)|discriminate]
    end.
  discriminate.
Qed.

Lemma elements_described (l : list Json.value) :
  Node.elements l <> Unmodelled.
Proof.
  induction l as [|v r IH]; cbn [Node.elements]; [discriminate|].
  destruct (Node.unprintable v); [discriminate|].
  destruct (Node.elements r); [discriminate|discriminate|contradiction].
Qed.

Lemma buffer_of_unmodelled (x : option Json.value) :
  buffer_of x = Unmodelled -> oversized x = true.
Proof.
  assert (O : forall ms,
             Node.from_object ms = Unmodelled ->
             oversized (Some (Json.Object ms)) = true).
  { intro ms. unfold Node.from_object, oversized.
    destruct (Json.member (lit "length") ms) as [[| |lexeme| | |]|];
      try discriminate.
    - destruct (Double.not_positive _); [discriminate|].
      destruct (Double.below 4096 _); [|reflexivity].
      destruct (Double.decimal_literal lexeme); try discriminate.
      intro H. now apply elements_described in H.
    - destruct (Json.member (lit "type") ms) as [[| | |t| |]|];
        try discriminate.
      destruct (Json.member (lit "data") ms) as [[| | | |items|]|];
        try discriminate.
      destruct (units_eqb t (lit "Buffer")); [|discriminate].
      intro H. now apply elements_described in H. }
  unfold buffer_of, Node.buffer_from.
  destruct x as [[| | |s|items|ms]|]; try discriminate.
  - intro H. now apply elements_described in H.
  - destruct (Json.member (lit "valueOf") ms) as [v|]; [|apply O].
    destruct (Node.truthy v); [discriminate|].
    destruct v; try apply O. discriminate.
Qed.

Lemma read_fields_unmodelled (data : Json.value) :
  read_fields data = Unmodelled ->
  exists ms name,
    data = Json.Object ms /\ In name byte_fields
    /\ oversized (Json.member (lit name) ms) = true.
Proof.
  unfold read_fields, read_field.
  destruct data as [|b|lexeme|s|items|ms]; try discriminate.
  intro H. exists ms.
  repeat match type of H with
    | context [buffer_of ?x] =>
        let E := fresh "E" in
        destruct (buffer_of x) eqn:E;
          [|discriminate
           |apply buffer_of_unmodelled in E; eexists;
            split; [reflexivity|]; split; [|exact E]; cbn; auto]
    end.
  discriminate.
Qed.

Lemma fields_of_envelope (salt iv tag ciphertext : list byte) :
  fields_of (Json.stringify
               (envelope salt iv tag ciphertext aes_256_gcm 100000))
  = Some (mk_fields ciphertext salt iv tag).
Proof.
  unfold fields_of.
  now rewrite JsonFacts.parse_envelope, Workflow.read_fields_envelope.
Qed.

(** X1. Sealing never fails: for every text, every password and every
    state of the generator, [encryptCSVData] returns a payload with the
    metadata [aes-256-gcm] and 100000, having drawn exactly 48 random bytes
    and made four calls to [crypto], in this order: 32 random bytes for the
    salt, the key derivation, 16 random bytes for the nonce, the creation
    of the cipher under a 32-byte key. *)
Theorem seal_never_fails (csvData password : list N) (w : world) :
  exists text key,
    encryptCSVData csvData password w
    = (Returned (mk_export text aes_256_gcm 100000),
       mk_world (entropy w) (drawn w + 48)
         (trace w
          ++ [RandomBytes 32;
              Pbkdf2Call (Utf8.encode password) (fresh w 0 32) 100000 32
                         sha256;
              RandomBytes 16;
              CipherCreated aes_256_gcm key (fresh w 32 16)]))
    /\ List.length key = 32%nat.
Proof.
  exists (sealed_text csvData password w), (key_of password (salt_in w)).
  rewrite encryptCSVData_run. split; [reflexivity|apply key_of_length].
Qed.

(** What [encryptCSVData] returns, read back field by field. *)
Lemma sealed_text_fields (csvData password : list N) (w : world) :
  let key := key_of password (salt_in w) in
  let ciphertext := Gcm.crypt key (iv_in w) (Utf8.encode csvData) in
  fields_of (sealed_text csvData password w)
  = Some (mk_fields ciphertext (salt_in w) (iv_in w)
                    (Gcm.tag key (iv_in w) ciphertext)).
Proof. intros key ciphertext. apply fields_of_envelope. Qed.

(** X2. The envelope on the wire: the payload of [encryptCSVData] is the
    text of a JSON object with the six members [salt], [iv], [tag],
    [ciphertext], [algorithm] and [iterations], in this order; [algorithm]
    is the string [aes-256-gcm] and [iterations] the number 100000; and the
    base64 fields decode, as [decryptCSVData] decodes them, to the 32 bytes
    of salt and the 16 bytes of nonce that were drawn, a tag of 16 bytes and
    a ciphertext as long as the UTF-8 form of the text. *)
Theorem envelope_fields (csvData password : list N) (w : world) :
  exists e ms f,
    fst (encryptCSVData csvData password w) = Returned e
    /\ Json.parse (payload e) = Some (Json.Object ms)
    /\ map fst ms = [lit "salt"; lit "iv"; lit "tag"; lit "ciphertext";
                     lit "algorithm"; lit "iterations"]
    /\ Json.member (lit "algorithm") ms = Some (Json.String (lit "aes-256-gcm"))
    /\ Json.member (lit "iterations") ms = Some (Json.Number (lit "100000"))
    /\ read_fields (Json.Object ms) = Returned f
    /\ f_salt f = fresh w 0 32 /\ List.length (f_salt f) = 32%nat
    /\ f_iv f = fresh w 32 16 /\ List.length (f_iv f) = 16%nat
    /\ List.length (f_tag f) = 16%nat
    /\ List.length (f_ciphertext f) = List.length (Utf8.encode csvData).
Proof.
  rewrite encryptCSVData_run. cbn [fst payload]. unfold sealed_text.
  cbv zeta. unfold sealed_with. cbn [e_iv e_tag e_ciphertext].
  eexists. eexists. eexists.
  split; [reflexivity|].
  split; [apply JsonFacts.parse_envelope|].
  split; [reflexivity|]. split; [reflexivity|]. split; [reflexivity|].
  split; [apply Workflow.read_fields_envelope|].
  cbn [f_salt f_iv f_tag f_ciphertext].
  split; [reflexivity|]. split; [apply fresh_length|].
  split; [reflexivity|]. split; [apply fresh_length|].
  split; [apply CryptoFacts.tag_length|apply CryptoFacts.crypt_length].
Qed.

Lemma digit_printable (v : N) : printable (Base64.digit v) = true.
Proof.
  unfold printable, Base64.digit.
  split_tests; apply andb_true_iff; split; apply N.leb_le; lia.
Qed.

Lemma encode_printable (bs : list byte) :
  Forall (fun c => printable c = true) (Base64.encode bs).
Proof.
  remember (List.length bs) as n eqn:Hn.
  revert bs Hn. induction n as [n IH] using lt_wf_ind. intros bs Hn.
  destruct bs as [|a [|b [|c r]]]; cbn [Base64.encode];
    repeat (constructor; try apply digit_printable; try reflexivity).
  apply (IH (List.length r)); subst; simpl; lia.
Qed.

(** Splits a statement about every character of a text built with [++]
    and [::]. *)
Ltac every_character :=
  repeat first
    [ apply Forall_nil
    | apply Forall_cons; [reflexivity|]
    | apply encode_printable
    | apply Forall_app; split
    | progress cbv [lit list_ascii_of_string map cipher_text decimal] ].

(** X3. The payload is printable ASCII: every character of the text
    [encryptCSVData] returns lies between the space and the tilde, so the
    envelope passes unchanged through any channel that carries text. *)
Theorem envelope_printable (csvData password : list N) (w : world) :
  exists e,
    fst (encryptCSVData csvData password w) = Returned e
    /\ Forall (fun c => printable c = true) (payload e).
Proof.
  rewrite encryptCSVData_run. cbn [fst]. eexists. split; [reflexivity|].
  cbn [payload]. unfold sealed_text, envelope. cbv zeta.
  cbn [Json.stringify]. unfold Json.quote.
  rewrite !JsonFacts.quote_body_plain
    by (first [apply Base64Facts.encode_plain | JsonFacts.plain_literal]).
  every_character.
Qed.

Lemma two_seals_run (c1 p1 c2 p2 : list N) (w : world) :
  exists e1 w1 e2 f1 f2,
    encryptCSVData c1 p1 w = (Returned e1, w1)
    /\ fst (encryptCSVData c2 p2 w1) = Returned e2
    /\ fields_of (payload e1) = Some f1
    /\ fields_of (payload e2) = Some f2
    /\ f_salt f1 = fresh w 0 32 /\ f_iv f1 = fresh w 32 16
    /\ f_salt f2 = fresh w 48 32 /\ f_iv f2 = fresh w 80 16.
Proof.
  do 5 eexists.
  split; [apply encryptCSVData_run|].
  split; [rewrite encryptCSVData_run; reflexivity|].
  cbn [payload].
  split; [apply sealed_text_fields|].
  split; [apply sealed_text_fields|].
  cbn [f_salt f_iv]. unfold salt_in, iv_in.
  rewrite !fresh_after. cbn [Nat.add].
  repeat split; reflexivity.
Qed.

(** X4. Fresh salt and nonce at every call: of two calls of
    [encryptCSVData] made one after the other, the first takes its salt and
    its nonce from the next 48 bytes of the generator and the second from
    the 48 bytes after those; no byte of the generator serves twice. *)
Theorem successive_seals_fresh (c1 p1 c2 p2 : list N) (w : world) :
  exists e1 w1 e2 f1 f2,
    encryptCSVData c1 p1 w = (Returned e1, w1)
    /\ fst (encryptCSVData c2 p2 w1) = Returned e2
    /\ fields_of (payload e1) = Some f1
    /\ fields_of (payload e2) = Some f2
    /\ f_salt f1 = fresh w 0 32 /\ f_iv f1 = fresh w 32 16
    /\ f_salt f2 = fresh w 48 32 /\ f_iv f2 = fresh w 80 16.
Proof.
  do 5 eexists.
  split; [apply encryptCSVData_run|].
  split; [rewrite encryptCSVData_run; reflexivity|].
  cbn [payload].
  split; [apply sealed_text_fields|].
  split; [apply sealed_text_fields|].
  cbn [f_salt f_iv]. unfold salt_in, iv_in.
  rewrite !fresh_after. cbn [Nat.add].
  repeat split; reflexivity.
Qed.

(** X5. Opening draws nothing: whatever the text and the password,
    [decryptCSVData] leaves the random generator where it was, and the
    calls it makes to [crypto] are key derivations and creations of a
    decipher only. *)
Theorem open_draws_nothing (text password : list N) (w : world) :
  let w' := snd (decryptCSVData text password w) in
  entropy w' = entropy w /\ drawn w' = drawn w
  /\ exists events,
      trace w' = trace w ++ events
      /\ Forall (fun e => draws_or_enciphers e = false) events.
Proof.
  cbv zeta. rewrite decryptCSVData_run.
  assert (same : entropy w = entropy w /\ drawn w = drawn w
                 /\ exists events,
                     trace w = trace w ++ events
                     /\ Forall (fun e => draws_or_enciphers e = false) events).
  { split; [reflexivity|]. split; [reflexivity|]. exists [].
    split; [now rewrite app_nil_r|apply Forall_nil]. }
  destruct (Json.parse text) as [data|]; [|exact same].
  destruct (read_fields data) as [f|m|]; try exact same.
  cbv zeta. cbn [snd]. rewrite decryptWithPassword_outcome.
  destruct (negb (List.length (f_iv f) =? 16)%nat);
    [|destruct (negb (List.length (f_tag f) =? 16)%nat)];
    cbn [snd after entropy drawn trace];
    (split; [reflexivity|]; split; [lia|]; eexists; split; [reflexivity|]);
    repeat (apply Forall_cons; [reflexivity|]); apply Forall_nil.
Qed.

(** The text sealed under a password opens under it, in any world. *)
Lemma sealed_text_opens (csvData password : list N) (w w' : world) :
  fst (decryptCSVData (sealed_text csvData password w) password w')
  = Returned (Utf8.decode (Utf8.encode csvData)).
Proof.
  unfold sealed_text. cbv zeta. unfold sealed_with.
  cbn [e_iv e_tag e_ciphertext].
  rewrite Workflow.open_envelope
    by (first [apply fresh_length | apply CryptoFacts.tag_length]).
  cbn [fst]. apply Workflow.verdict_same_key.
Qed.

(** X6. Verify, then release: whatever the text given to
    [decryptCSVData], a plaintext is returned only if the text parses, its
    four byte fields can be read, nonce and tag have 16 bytes, and the tag
    recomputed over the stored ciphertext under the key derived from the
    password and the stored salt equals the stored tag; the plaintext is
    then the UTF-8 reading of the deciphered bytes. *)
Theorem released_only_if_verified (text password plaintext : list N)
        (w : world) :
  fst (decryptCSVData text password w) = Returned plaintext ->
  exists f,
    fields_of text = Some f
    /\ List.length (f_iv f) = 16%nat /\ List.length (f_tag f) = 16%nat
    /\ Gcm.tag (key_of password (f_salt f)) (f_iv f) (f_ciphertext f)
       = f_tag f
    /\ plaintext
       = Utf8.decode (Gcm.crypt (key_of password (f_salt f)) (f_iv f)
                                (f_ciphertext f)).
Proof.
  rewrite decryptCSVData_run. unfold fields_of.
  destruct (Json.parse text) as [data|]; [|discriminate].
  destruct (read_fields data) as [f|m|]; try discriminate.
  cbv zeta. cbn [fst]. rewrite decryptWithPassword_outcome.
  destruct (List.length (f_iv f) =? 16)%nat eqn:Ei; cbn [negb fst rethrow];
    [|discriminate].
  destruct (List.length (f_tag f) =? 16)%nat eqn:Et; cbn [negb fst rethrow];
    [|discriminate].
  apply Nat.eqb_eq in Ei, Et. unfold opened_with.
  destruct (Bytes.equal _ _) eqn:Q; cbn [rethrow]; [|discriminate].
  intro H. injection H as <-. apply BytesFacts.equal_eq in Q.
  exists f. auto.
Qed.

Lemma released_only_if_verified_witness :
  exists f,
    fields_of (sealed_text (lit "city,postal_code") (lit "SecurePassword123")
                           initial_world)
    = Some f
    /\ List.length (f_iv f) = 16%nat /\ List.length (f_tag f) = 16%nat
    /\ Gcm.tag (key_of (lit "SecurePassword123") (f_salt f)) (f_iv f)
               (f_ciphertext f)
       = f_tag f
    /\ Utf8.decode (Utf8.encode (lit "city,postal_code"))
       = Utf8.decode (Gcm.crypt (key_of (lit "SecurePassword123") (f_salt f))
                                (f_iv f) (f_ciphertext f)).
Proof.
  apply (released_only_if_verified _ _ _ initial_world).
  apply sealed_text_opens.
Defined.

Lemma open_errors_listed (text password : list N) (w : world) (m : message) :
  fst (decryptCSVData text password w) = Threw m ->
  exists cause,
    m = Prefixed "CSV decryption failed: " cause
    /\ In cause
         [Raised SyntaxError_json;
          Raised TypeError_null_property;
          Raised TypeError_buffer_argument;
          Raised TypeError_not_a_function;
          Raised TypeError_to_primitive;
          Prefixed "Decryption failed: " (Text "IV must be 16 bytes");
          Prefixed "Decryption failed: " (Text "Tag must be 16 bytes");
          Prefixed "Decryption failed: " (Raised Error_unable_to_authenticate)].
Proof.
  rewrite decryptCSVData_run.
  destruct (Json.parse text) as [data|].
  - destruct (read_fields data) as [f|m'|] eqn:R; cbn [fst].
    + cbv zeta. cbn [fst]. rewrite decryptWithPassword_outcome.
      destruct (negb (List.length (f_iv f) =? 16)%nat);
        [|destruct (negb (List.length (f_tag f) =? 16)%nat)];
        cbn [fst rethrow].
      * intro H. injection H as <-. eexists. split; [reflexivity|].
        cbn. auto 12.
      * intro H. injection H as <-. eexists. split; [reflexivity|].
        cbn. auto 12.
      * unfold opened_with. destruct (Bytes.equal _ _); cbn [rethrow];
          [discriminate|].
        intro H. injection H as <-. eexists. split; [reflexivity|].
        cbn. auto 12.
    + intro H. injection H as <-. eexists. split; [reflexivity|].
      pose proof (read_fields_throws _ _ R) as I. cbn in I |- *. tauto.
    + discriminate.
  - cbn [fst]. intro H. injection H as <-. eexists. split; [reflexivity|].
    cbn. auto.
Qed.

(** X7. The errors of opening: when [decryptCSVData] throws, it throws one
    of eight messages and no other, each after [CSV decryption failed: ] -
    the syntax error of [JSON.parse], the four type errors of reading a
    field, the two length checks of nonce and tag, and the failure of
    authentication; the key check of [decryptData] never fires, nor does
    any check of the platform's on key, nonce or tag. One kind of text is
    left aside, the only one for which the outcome is not described: a JSON
    object in which one of the four fields is itself an object with a
    [length] of 4096 or more, which [Buffer.from] reads outside its pool,
    as the memory allows. *)
Theorem open_errors (text password : list N) (w : world) :
  (forall m,
     fst (decryptCSVData text password w) = Threw m ->
     exists cause,
       m = Prefixed "CSV decryption failed: " cause
       /\ In cause
            [Raised SyntaxError_json;
             Raised TypeError_null_property;
             Raised TypeError_buffer_argument;
             Raised TypeError_not_a_function;
             Raised TypeError_to_primitive;
             Prefixed "Decryption failed: " (Text "IV must be 16 bytes");
             Prefixed "Decryption failed: " (Text "Tag must be 16 bytes");
             Prefixed "Decryption failed: "
                      (Raised Error_unable_to_authenticate)])
  /\ (fst (decryptCSVData text password w) = Unmodelled ->
      exists ms name,
        Json.parse text = Some (Json.Object ms) /\ In name byte_fields
        /\ oversized (Json.member (lit name) ms) = true).
Proof.
  split; [intro m; apply open_errors_listed|].
  rewrite decryptCSVData_run.
  destruct (Json.parse text) as [data|]; [|discriminate].
  destruct (read_fields data) as [f|m'|] eqn:R; cbn [fst].
  - cbv zeta. cbn [fst]. rewrite decryptWithPassword_outcome.
    destruct (negb (List.length (f_iv f) =? 16)%nat);
      [|destruct (negb (List.length (f_tag f) =? 16)%nat)];
      cbn [fst rethrow]; try discriminate.
    unfold opened_with. destruct (Bytes.equal _ _); discriminate.
  - discriminate.
  - intros _. destruct (read_fields_unmodelled data R) as (ms & name & -> & I & O).
    exists ms, name. auto.
Qed.

Lemma open_errors_witness :
  exists cause,
    Prefixed "CSV decryption failed: " (Raised SyntaxError_json)
    = Prefixed "CSV decryption failed: " cause
    /\ In cause
         [Raised SyntaxError_json;
          Raised TypeError_null_property;
          Raised TypeError_buffer_argument;
          Raised TypeError_not_a_function;
          Raised TypeError_to_primitive;
          Prefixed "Decryption failed: " (Text "IV must be 16 bytes");
          Prefixed "Decryption failed: " (Text "Tag must be 16 bytes");
          Prefixed "Decryption failed: " (Raised Error_unable_to_authenticate)].
Proof.
  apply (proj1 (open_errors (lit "{salt}") (lit "SecurePassword123")
                            initial_world)).
  reflexivity.
Defined.

Lemma flip_bit_length (i : nat) (bs : list byte) :
  List.length (flip_bit i bs) = List.length bs.
Proof.
  revert i. induction bs as [|b r IH]; intro i; [reflexivity|].
  cbn [flip_bit]. destruct (i <? 8)%nat; cbn [List.length]; [reflexivity|].
  now rewrite IH.
Qed.

Lemma xor_changes (b : byte) (m : N) :
  0 < m -> m < 256 -> Bytes.xor b (Bytes.of_N m) <> b.
Proof.
  intros P L E.
  assert (T : Byte.to_N (Bytes.xor b (Bytes.of_N m)) = Byte.to_N b)
    by now rewrite E.
  unfold Bytes.xor in T.
  rewrite (BytesFacts.to_N_of_N m L) in T.
  rewrite BytesFacts.to_N_of_N in T
    by (apply BytesFacts.lxor_lt_256; [apply BytesFacts.to_N_lt|exact L]).
  assert (Z : N.lxor (Byte.to_N b) (N.lxor (Byte.to_N b) m) = m)
    by now rewrite <- N.lxor_assoc, N.lxor_nilpotent, N.lxor_0_l.
  rewrite T, N.lxor_nilpotent in Z. lia.
Qed.

Lemma flip_bit_changes (i : nat) (bs : list byte) :
  (i < 8 * List.length bs)%nat -> flip_bit i bs <> bs.
Proof.
  revert i. induction bs as [|b r IH]; intros i L; cbn [List.length] in L;
    [lia|].
  cbn [flip_bit]. destruct (i <? 8)%nat eqn:E.
  - apply Nat.ltb_lt in E. intro H. injection H as H.
    revert H. apply xor_changes.
    + apply N.neq_0_lt_0, N.pow_nonzero. lia.
    + change 256 with (2 ^ 8). apply N.pow_lt_mono_r; lia.
  - apply Nat.ltb_ge in E. intro H. injection H as H.
    revert H. apply IH. lia.
Qed.

(** X8. A changed tag is always caught: flip any one of the 128 bits of
    the tag of an envelope [encryptCSVData] produced, leave the rest as it
    is, and [decryptCSVData] with the same password fails with the
    authentication error, whenever it is called; no plaintext comes back. *)
Theorem flipped_tag_rejected (csvData password : list N) (i : nat)
        (w w' : world) :
  (i < 128)%nat ->
  exists e f,
    fst (encryptCSVData csvData password w) = Returned e
    /\ fields_of (payload e) = Some f
    /\ fst (decryptCSVData
              (Json.stringify
                 (envelope (f_salt f) (f_iv f) (flip_bit i (f_tag f))
                           (f_ciphertext f) aes_256_gcm 100000))
              password w')
       = Threw authentication_failure.
Proof.
  intro L. do 2 eexists.
  split; [rewrite encryptCSVData_run; reflexivity|].
  cbn [payload]. split; [apply sealed_text_fields|].
  cbn [f_salt f_iv f_tag f_ciphertext].
  eapply Workflow.tampered_tag_rejected.
  - apply fresh_length.
  - rewrite flip_bit_length. apply CryptoFacts.tag_length.
  - reflexivity.
  - apply flip_bit_changes. rewrite CryptoFacts.tag_length. exact L.
Qed.

Lemma flipped_tag_rejected_witness :
  exists e f,
    fst (encryptCSVData (lit "city,postal_code") (lit "SecurePassword123")
                        initial_world)
    = Returned e
    /\ fields_of (payload e) = Some f
    /\ fst (decryptCSVData
              (Json.stringify
                 (envelope (f_salt f) (f_iv f) (flip_bit 0 (f_tag f))
                           (f_ciphertext f) aes_256_gcm 100000))
              (lit "SecurePassword123") initial_world)
       = Threw authentication_failure.
Proof. apply flipped_tag_rejected. lia. Defined.

Lemma fresh_split (w : world) (k n m : nat) :
  fresh w k (n + m) = fresh w k n ++ fresh w (k + n) m.
Proof.
  unfold fresh. now rewrite seq_app, map_app, Nat.add_assoc.
Qed.

(** X9. Two seals differ: when the generator does not repeat itself -
    the 48 bytes it gives to the second call are not those it gave to the
    first - two calls of [encryptCSVData] made one after the other return
    different payloads, even for the same text and the same password. *)
Theorem successive_seals_differ (c1 p1 c2 p2 : list N) (w : world) :
  fresh w 0 48 <> fresh w 48 48 ->
  exists e1 w1 e2,
    encryptCSVData c1 p1 w = (Returned e1, w1)
    /\ fst (encryptCSVData c2 p2 w1) = Returned e2
    /\ payload e1 <> payload e2.
Proof.
  intro D.
  destruct (two_seals_run c1 p1 c2 p2 w)
    as (e1 & w1 & e2 & f1 & f2 & E1 & E2 & F1 & F2 & S1 & I1 & S2 & I2).
  exists e1, w1, e2. split; [exact E1|]. split; [exact E2|].
  intro Q. rewrite Q, F2 in F1. injection F1 as <-.
  apply D.
  change (fresh w 0 48) with (fresh w 0 (32 + 16)).
  change (fresh w 48 48) with (fresh w 48 (32 + 16)).
  rewrite !fresh_split. cbn [Nat.add]. congruence.
Qed.

Lemma successive_seals_differ_witness :
  exists e1 w1 e2,
    encryptCSVData (lit "city,postal_code") (lit "SecurePassword123")
                   initial_world
    = (Returned e1, w1)
    /\ fst (encryptCSVData (lit "city,postal_code") (lit "SecurePassword123")
                           w1)
       = Returned e2
    /\ payload e1 <> payload e2.
Proof.
  apply successive_seals_differ. intro H.
  apply (f_equal (hd x00)) in H. vm_compute in H. discriminate H.
Defined.

(** X10. Only four members are read: two texts from which
    [decryptCSVData] reads the same ciphertext, salt, nonce and tag are
    opened alike, with the same result and the same calls - whatever they
    record as [algorithm] or [iterations], whatever other members they
    hold, in whatever order. *)
Theorem only_four_members_read (text1 text2 password : list N) (w : world)
        (f : fields) :
  fields_of text1 = Some f -> fields_of text2 = Some f ->
  decryptCSVData text1 password w = decryptCSVData text2 password w.
Proof.
  unfold fields_of. rewrite !decryptCSVData_run.
  destruct (Json.parse text1) as [d1|]; [|discriminate].
  destruct (Json.parse text2) as [d2|]; [|discriminate].
  destruct (read_fields d1) as [f1| |]; try discriminate.
  destruct (read_fields d2) as [f2| |]; try discriminate.
  intros H1 H2. injection H1 as ->. injection H2 as ->. reflexivity.
Qed.

Lemma one_iteration_fields :
  fields_of (Json.stringify one_iteration)
  = Some (mk_fields [] (Bytes.zeros 32) (Bytes.zeros 16) (Bytes.zeros 16)).
Proof. vm_compute. reflexivity. Qed.

Lemma relabelled_fields :
  fields_of (Json.stringify relabelled)
  = Some (mk_fields [] (Bytes.zeros 32) (Bytes.zeros 16) (Bytes.zeros 16)).
Proof. vm_compute. reflexivity. Qed.

Lemma only_four_members_read_witness :
  decryptCSVData (Json.stringify one_iteration) (lit "SecurePassword123")
                 initial_world
  = decryptCSVData (Json.stringify relabelled) (lit "SecurePassword123")
                   initial_world.
Proof.
  apply (only_four_members_read _ _ _ _ _ one_iteration_fields
                                relabelled_fields).
Defined.

(** X11. The password counts by its bytes: a text sealed under one
    password opens under every password with the same UTF-8 form - and an
    unpaired surrogate has the form of U+FFFD, whichever it is. *)
Theorem same_bytes_open (csvData W1 W2 : list N) (w : world) :
  Utf8.encode W1 = Utf8.encode W2 ->
  fst (seal_then_open csvData W1 W2 w)
  = Returned (Utf8.decode (Utf8.encode csvData)).
Proof.
  intro E. apply Workflow.same_key_opens. unfold key_of. now rewrite E.
Qed.

Lemma same_bytes_open_witness :
  0xD83D :: lit "ecurePassword" <> 0xFFFD :: lit "ecurePassword"
  /\ fst (seal_then_open (lit "city,postal_code")
                         (0xD83D :: lit "ecurePassword")
                         (0xFFFD :: lit "ecurePassword") initial_world)
     = Returned (Utf8.decode (Utf8.encode (lit "city,postal_code"))).
Proof.
  split; [discriminate|]. apply same_bytes_open. vm_compute. reflexivity.
Defined.

End Sealing.

(** ** The cipher unit and the password generator *)

Module CipherUnit.

Import Encryption EncryptionFacts.
Import Terms.

(** X12. Round trip of the cipher unit: for every key of 32 bytes and
    every well-formed string, [encryptData] with no nonce given draws 16
    random bytes as nonce, and [decryptData] applied to the ciphertext, the
    nonce and the tag it returned, under the same key, gives the string
    back. *)
Theorem cipher_round_trip (s : list N) (key : list byte) (w : world) :
  List.length key = 32%nat -> Utf8.well_formed s = true ->
  exists e w',
    encryptData (StringData s) (Some key) None w = (Returned e, w')
    /\ e_iv e = fresh w 0 16
    /\ fst (decryptData (e_ciphertext e) (Some key) (Some (e_iv e))
                        (Some (e_tag e)) w')
       = Returned s.
Proof.
  intros K F. do 2 eexists.
  split; [now apply encryptData_fresh_iv|].
  unfold sealed_with. cbn [e_iv e_tag e_ciphertext data_bytes].
  split; [reflexivity|].
  rewrite decryptData_checked
    by (first [exact K | apply fresh_length | apply CryptoFacts.tag_length]).
  cbn [fst]. unfold opened_with.
  rewrite BytesFacts.equal_refl, CryptoFacts.crypt_involutive.
  now rewrite Utf8Facts.utf8_decode_encode.
Qed.

Lemma cipher_round_trip_witness :
  exists e w',
    encryptData (StringData (lit "city,postal_code")) (Some counting_key)
                None initial_world
    = (Returned e, w')
    /\ e_iv e = fresh initial_world 0 16
    /\ fst (decryptData (e_ciphertext e) (Some counting_key) (Some (e_iv e))
                        (Some (e_tag e)) w')
       = Returned (lit "city,postal_code").
Proof. apply cipher_round_trip; reflexivity. Defined.

(** X13. The two halves disagree on the nonce: [encryptData] accepts a
    supplied nonce of any length the cipher takes (1 to 128 bytes; 12 is
    the usual one for GCM), but [decryptData] refuses everything except 16
    bytes. What [encryptData] produced under a supplied nonce of another
    length cannot be opened by [decryptData]: it throws
    [IV must be 16 bytes] before any decryption. *)
Theorem nonce_length_asymmetry (data : payload_data) (key iv : list byte)
        (w : world) :
  List.length key = 32%nat ->
  (1 <= List.length iv <= 128)%nat -> List.length iv <> 16%nat ->
  exists e w',
    encryptData data (Some key) (Some iv) w = (Returned e, w')
    /\ e_iv e = iv
    /\ List.length (e_ciphertext e) = List.length (data_bytes data)
    /\ decryptData (e_ciphertext e) (Some key) (Some (e_iv e))
                   (Some (e_tag e)) w'
       = (Threw (Text "IV must be 16 bytes"), w').
Proof.
  intros K L D. do 2 eexists.
  split; [now apply encryptData_given_iv|].
  unfold sealed_with. cbn [e_iv e_tag e_ciphertext].
  split; [reflexivity|]. split; [apply CryptoFacts.crypt_length|].
  now apply Envelope.decryptData_bad_iv.
Qed.

Lemma nonce_length_asymmetry_witness :
  exists e w',
    encryptData (StringData (lit "city,postal_code")) (Some counting_key)
                (Some (Bytes.zeros 12)) initial_world
    = (Returned e, w')
    /\ e_iv e = Bytes.zeros 12
    /\ List.length (e_ciphertext e)
       = List.length (data_bytes (StringData (lit "city,postal_code")))
    /\ decryptData (e_ciphertext e) (Some counting_key) (Some (e_iv e))
                   (Some (e_tag e)) w'
       = (Threw (Text "IV must be 16 bytes"), w').
Proof.
  apply nonce_length_asymmetry; [reflexivity|cbn; lia|cbn; lia].
Defined.

Lemma randomBytes_run (n : Z) (w : world) :
  (0 <= n <= 2147483647)%Z ->
  Node.randomBytes n w
  = (Returned (fresh w 0 (Z.to_nat n)), after w (Z.to_nat n) [RandomBytes n]).
Proof.
  intro R. unfold Node.randomBytes, fresh, after.
  replace ((n <? 0) || (2147483647 <? n))%Z with false
    by (symmetry; apply orb_false_iff; split; apply Z.ltb_ge; lia).
  cbn [trace entropy drawn]. now rewrite Nat.add_0_r.
Qed.

Lemma hex_digit_is_hex (v : N) : v < 16 -> is_hex (Hex.digit v) = true.
Proof.
  intro L. unfold is_hex, Hex.digit.
  destruct (v <? 10) eqn:E; to_props.
  - apply orb_true_iff. left. apply andb_true_iff. split; apply N.leb_le; lia.
  - apply orb_true_iff. right. apply andb_true_iff. split; apply N.leb_le; lia.
Qed.

Lemma hex_encode_shape (bs : list byte) :
  List.length (Hex.encode bs) = (2 * List.length bs)%nat
  /\ Forall (fun c => is_hex c = true) (Hex.encode bs).
Proof.
  induction bs as [|b r [L F]]; [split; [reflexivity|apply Forall_nil]|].
  cbn [Hex.encode List.length]. split; [rewrite L; lia|].
  pose proof (BytesFacts.to_N_lt b).
  repeat (apply Forall_cons; [apply hex_digit_is_hex; dlia|]). exact F.
Qed.

Lemma hex_digit_value (v : N) :
  v < 16 -> Json.hex_value (Hex.digit v) = Some v.
Proof.
  intro L. unfold Json.hex_value, Hex.digit.
  destruct (v <? 10) eqn:E; to_props.
  - replace ((48 <=? 48 + v) && (48 + v <=? 57)) with true
      by (symmetry; apply andb_true_iff; split; apply N.leb_le; lia).
    f_equal. lia.
  - replace ((48 <=? 87 + v) && (87 + v <=? 57)) with false
      by (symmetry; apply andb_false_iff; right; apply N.leb_gt; lia).
    replace ((97 <=? 87 + v) && (87 + v <=? 102)) with true
      by (symmetry; apply andb_true_iff; split; apply N.leb_le; lia).
    f_equal. lia.
Qed.

Lemma hex_encode_injective (a b : list byte) :
  Hex.encode a = Hex.encode b -> a = b.
Proof.
  revert b. induction a as [|x a IH]; intros [|y b] H; cbn [Hex.encode] in H;
    try discriminate; [reflexivity|].
  injection H as H1 H2 H3. f_equal; [|now apply IH].
  pose proof (BytesFacts.to_N_lt x) as Lx.
  pose proof (BytesFacts.to_N_lt y) as Ly.
  apply (f_equal Json.hex_value) in H1, H2.
  rewrite !hex_digit_value in H1, H2 by dlia.
  injection H1 as H1. injection H2 as H2.
  apply BytesFacts.to_N_inj. dlia.
Qed.

Lemma toString_hex_run (b : list byte) (w : world) :
  (2 * N.of_nat (List.length b) <= Node.max_string_length)%N ->
  Node.toString_hex b w = (Returned (Hex.encode b), w).
Proof.
  intro L. unfold Node.toString_hex.
  replace (Node.max_string_length <? 2 * N.of_nat (List.length b))%N
    with false by (symmetry; apply N.ltb_ge; exact L).
  reflexivity.
Qed.

(** X14. The generated password: for every whole length from 0 to
    268435444, half the longest string of the platform (32 when none is
    given), [generateSecurePassword] draws that many random bytes and
    returns them in hexadecimal: a string of twice the length, made of the
    characters [0-9] and [a-f] only. *)
Theorem generated_password_shape (length : option Z) (w : world) :
  let n := match length with None => 32%Z | Some n => n end in
  (0 <= n <= 268435444)%Z ->
  exists password,
    generateSecurePassword length w
    = (Returned password, after w (Z.to_nat n) [RandomBytes n])
    /\ password = Hex.encode (fresh w 0 (Z.to_nat n))
    /\ List.length password = (2 * Z.to_nat n)%nat
    /\ Forall (fun c => is_hex c = true) password.
Proof.
  intros n R. eexists.
  split.
  { unfold generateSecurePassword, bind. fold n.
    rewrite (randomBytes_run n w) by lia.
    apply toString_hex_run. rewrite fresh_length.
    unfold Node.max_string_length. lia. }
  split; [reflexivity|].
  destruct (hex_encode_shape (fresh w 0 (Z.to_nat n))) as [L F].
  split; [|exact F]. now rewrite L, fresh_length.
Qed.

Lemma generated_password_shape_witness :
  exists password,
    generateSecurePassword None initial_world
    = (Returned password, after initial_world (Z.to_nat 32) [RandomBytes 32])
    /\ password = Hex.encode (fresh initial_world 0 (Z.to_nat 32))
    /\ List.length password = (2 * Z.to_nat 32)%nat
    /\ Forall (fun c => is_hex c = true) password.
Proof. apply (generated_password_shape None initial_world). lia. Defined.

(** X15. A length out of range: for a negative whole length, or one above
    2^31 - 1, [generateSecurePassword] throws the range error of
    [crypto.randomBytes] and draws nothing. *)
Theorem generated_password_range (n : Z) (w : world) :
  (n < 0 \/ 2147483647 < n)%Z ->
  fst (generateSecurePassword (Some n) w)
  = Threw (Raised RangeError_out_of_range)
  /\ drawn (snd (generateSecurePassword (Some n) w)) = drawn w.
Proof.
  intro R. unfold generateSecurePassword, bind, Node.randomBytes.
  replace ((n <? 0) || (2147483647 <? n))%Z with true
    by (symmetry; apply orb_true_iff;
        destruct R; [left; apply Z.ltb_lt|right; apply Z.ltb_lt]; lia).
  split; reflexivity.
Qed.

Lemma generated_password_range_witness :
  fst (generateSecurePassword (Some (-1)%Z) initial_world)
  = Threw (Raised RangeError_out_of_range)
  /\ drawn (snd (generateSecurePassword (Some (-1)%Z) initial_world))
     = drawn initial_world.
Proof. apply generated_password_range. lia. Defined.

(** X16. Nothing of the randomness is lost: two runs of
    [generateSecurePassword] with the same length return the same password
    only if the generator gave them the same bytes. *)
Theorem generated_password_injective (length : option Z) (w1 w2 : world)
        (password : list N) :
  let n := match length with None => 32%Z | Some n => n end in
  fst (generateSecurePassword length w1) = Returned password ->
  fst (generateSecurePassword length w2) = Returned password ->
  fresh w1 0 (Z.to_nat n) = fresh w2 0 (Z.to_nat n).
Proof.
  intros n.
  assert (R : forall w p,
             fst (generateSecurePassword length w) = Returned p ->
             p = Hex.encode (fresh w 0 (Z.to_nat n))).
  { intros w p. unfold generateSecurePassword, bind, Node.randomBytes.
    fold n. destruct ((n <? 0) || (2147483647 <? n))%Z; [discriminate|].
    unfold Node.toString_hex, fresh. rewrite Nat.add_0_r.
    match goal with |- context [N.ltb ?a ?b] => destruct (N.ltb a b) end;
      [discriminate|].
    cbn [fst ret]. intro H. now injection H as <-. }
  intros H1 H2. apply R in H1, H2. apply hex_encode_injective. congruence.
Qed.

Lemma generated_password_injective_witness :
  fresh initial_world 0 (Z.to_nat 32) = fresh initial_world 0 (Z.to_nat 32).
Proof.
  apply (generated_password_injective None initial_world initial_world
           (Hex.encode (fresh initial_world 0 32))); reflexivity.
Defined.

End CipherUnit.

(** ** The routes of the server *)

Module Routes.

Import Encryption EncryptionFacts.
Import Server Terms.

Lemma units_eqb_eq (x y : list N) : units_eqb x y = true <-> x = y.
Proof.
  revert y. induction x as [|a x IH]; intros [|b y]; cbn [units_eqb];
    try (split; [discriminate|discriminate]); [tauto|].
  rewrite andb_true_iff, N.eqb_eq, IH. split.
  - intros [-> ->]. reflexivity.
  - intro H. now injection H.
Qed.

Lemma units_eqb_refl (x : list N) : units_eqb x x = true.
Proof. now apply units_eqb_eq. Qed.

Lemma units_eqb_neq (x y : list N) : x <> y -> units_eqb x y = false.
Proof.
  intro H. destruct (units_eqb x y) eqn:E; [|reflexivity].
  now apply units_eqb_eq in E.
Qed.

(** X17. The export route checks before it works, given a string and an
    array of strings: a password of fewer
    than eight characters is answered with status 400 and
    [Password must be at least 8 characters], and an empty selection of
    fields (under a password long enough) with status 400 and
    [At least one field must be selected for export]; in both cases no CSV
    is built, no random byte drawn and no call made to [crypto]. *)
Theorem export_checks_first (password : list N) (fields : list (list N))
        (w : world) :
  (List.length password < 8)%nat \/ fields = [] ->
  export_encrypted_csv password fields w
  = (Returned
       (Status400
          (if (List.length password <? 8)%nat
           then "Password must be at least 8 characters"
           else "At least one field must be selected for export")),
     w).
Proof.
  intro H. unfold export_encrypted_csv, try_catch.
  destruct (List.length password <? 8)%nat eqn:E.
  - now rewrite orb_true_r.
  - apply Nat.ltb_ge in E. destruct H as [H| ->]; [lia|].
    rewrite units_eqb_neq by (destruct password; [cbn in E; lia|discriminate]).
    reflexivity.
Qed.

Lemma export_checks_first_witness :
  export_encrypted_csv (lit "short") [lit "city"] initial_world
  = (Returned
       (Status400
          (if (List.length (lit "short") <? 8)%nat
           then "Password must be at least 8 characters"
           else "At least one field must be selected for export")),
     initial_world).
Proof. apply export_checks_first. left. cbn. lia. Defined.

Lemma sealed_text_not_empty (csvData password : list N) (w : world) :
  units_eqb (sealed_text csvData password w) [] = false.
Proof. reflexivity. Qed.

(** X18. Through both routes and back: when the password has at least
    eight characters, some field is selected and the CSV built for the
    selection is a well-formed string, the export route answers with an
    encrypted payload and the metadata [aes-256-gcm], 100000, and the
    decrypt route, given that payload and the same password at any later
    time, answers with exactly the CSV that [buildCSVData] built. *)
Theorem export_then_decrypt (password : list N) (fields : list (list N))
        (csv : list N) (w later : world) :
  (8 <= List.length password)%nat -> fields <> [] ->
  buildCSVData mockBillingData fields = Returned csv ->
  Utf8.well_formed csv = true ->
  exists text w',
    export_encrypted_csv password fields w
    = (Returned (Exported text aes_256_gcm 100000), w')
    /\ fst (decrypt_csv text password later) = Returned (Decrypted csv).
Proof.
  intros L F B U.
  assert (P : units_eqb password [] = false)
    by (destruct password; [cbn in L; lia|reflexivity]).
  exists (sealed_text csv password w), (after w 48 (sealing_trace password w)).
  split.
  - unfold export_encrypted_csv, try_catch, bind, lift. rewrite P, B.
    replace (List.length password <? 8)%nat with false
      by (symmetry; apply Nat.ltb_ge; lia).
    replace (List.length fields =? 0)%nat with false
      by (symmetry; apply Nat.eqb_neq; destruct fields;
          [contradiction|discriminate]).
    cbn [orb]. rewrite encryptCSVData_run. reflexivity.
  - unfold decrypt_csv, try_catch, bind.
    rewrite sealed_text_not_empty, P. cbn [orb].
    pose proof (Sealing.sealed_text_opens csv password w later) as O.
    destruct (decryptCSVData (sealed_text csv password w) password later)
      as [o w''].
    cbn [fst] in O. subst o.
    rewrite Utf8Facts.utf8_decode_encode by exact U. reflexivity.
Qed.

Lemma export_then_decrypt_witness :
  exists text w',
    export_encrypted_csv (lit "SecurePassword123")
                         [lit "city"; lit "postal_code"] initial_world
    = (Returned (Exported text aes_256_gcm 100000), w')
    /\ fst (decrypt_csv text (lit "SecurePassword123") initial_world)
       = Returned (Decrypted (lit "city,postal_code" ++ 10
                                :: lit "San Francisco,94105")).
Proof.
  apply export_then_decrypt;
    [cbn; lia|discriminate|reflexivity|reflexivity].
Defined.

(** X19. The answers of the decrypt route, given two strings: 400 with
    [Payload and password are required] when one of the two is the empty
    string; otherwise the plaintext when [decryptCSVData] returns one, and
    for every error [decryptCSVData] throws - syntax, type, length or
    authentication - one and the same 400 with
    [Decryption failed - invalid password or corrupted data]. The route
    never answers 500 and lets no exception out; where the outcome of
    [decryptCSVData] is not described, neither is the answer. *)
Theorem decrypt_route_answers (text password : list N) (w : world) :
  let answer := fst (decrypt_csv text password w) in
  ((text = [] \/ password = [])
   /\ answer = Returned (Status400 "Payload and password are required"))
  \/ (text <> [] /\ password <> []
      /\ ((exists data,
              fst (decryptCSVData text password w) = Returned data
              /\ answer = Returned (Decrypted data))
          \/ ((exists m, fst (decryptCSVData text password w) = Threw m)
              /\ answer
                 = Returned
                     (Status400
                        "Decryption failed - invalid password or corrupted data"))
          \/ (fst (decryptCSVData text password w) = Unmodelled
              /\ answer = Unmodelled))).
Proof.
  cbv zeta. unfold decrypt_csv, try_catch, bind.
  destruct (units_eqb text []) eqn:T.
  { left. apply units_eqb_eq in T. auto. }
  destruct (units_eqb password []) eqn:P.
  { left. apply units_eqb_eq in P. auto. }
  right. cbn [orb].
  assert (text <> []) by (intros ->; discriminate).
  assert (password <> []) by (intros ->; discriminate).
  split; [assumption|]. split; [assumption|].
  destruct (decryptCSVData text password w) as [[data|m|] w']; cbn [fst ret].
  - left. eauto.
  - right. left. eauto.
  - right. right. auto.
Qed.

Lemma entries_outside_prototype (data : billing) (fields : list (list N)) :
  Forall (fun f => find f Object_prototype = None) fields ->
  exists vs,
    entries data fields = Returned vs
    /\ map to_string vs = map (cell_text data) fields.
Proof.
  induction 1 as [|f r Hf Hr (vs & E & T)]; [exists []; auto|].
  cbn [entries map]. unfold entry, lookup, cell_text at 1. rewrite Hf.
  destruct (find f (fieldMap data)) as [getter|]; rewrite E;
    eexists; (split; [reflexivity|]); cbn [map to_string]; now rewrite T.
Qed.

Lemma buildCSVData_joined (data : billing) (fields : list (list N)) :
  Forall (fun f => find f Object_prototype = None) fields ->
  buildCSVData data fields
  = Returned (join fields ++ 10 :: join (map (cell_text data) fields)).
Proof.
  intro H. unfold buildCSVData.
  destruct (entries_outside_prototype data fields H) as (vs & -> & ->).
  reflexivity.
Qed.



Lemma includes_In (c : N) (s : list N) : includes c s = true <-> In c s.
Proof.
  unfold includes. rewrite existsb_exists. split.
  - intros (x & I & E). apply N.eqb_eq in E. now subst.
  - intro I. exists c. split; [exact I|apply N.eqb_refl].
Qed.

Lemma double_quotes_injective (s t : list N) :
  double_quotes s = double_quotes t -> s = t.
Proof.
  revert t. induction s as [|c s IH]; intros [|d t]; cbn [double_quotes flat_map].
  - reflexivity.
  - destruct (d =? Json.quote_mark); discriminate.
  - destruct (c =? Json.quote_mark); discriminate.
  - destruct (c =? Json.quote_mark) eqn:C, (d =? Json.quote_mark) eqn:D;
      cbn [app]; intro H.
    + injection H as -> _ H. f_equal. now apply IH.
    + injection H as -> H. rewrite C in D. discriminate.
    + injection H as -> H. rewrite D in C. discriminate.
    + injection H as -> H. f_equal. now apply IH.
Qed.

(** X21. Quoting loses nothing: two values that [buildCSVData] writes as
    the same entry - quoted, with its quote marks doubled, when the value
    holds a comma or a quote mark, and as it is otherwise - are the same
    value. *)
Theorem escape_injective (s t : list N) :
  escape (StringCell s) = escape (StringCell t) -> s = t.
Proof.
  unfold escape.
  destruct (includes comma s || includes Json.quote_mark s) eqn:S,
           (includes comma t || includes Json.quote_mark t) eqn:T; intro H.
  - injection H as H. apply app_inj_tail in H. destruct H as [H _].
    now apply double_quotes_injective.
  - injection H as H. apply orb_false_iff in T. destruct T as [_ T].
    rewrite <- H in T. cbn in T. discriminate.
  - injection H as H. apply orb_false_iff in S. destruct S as [_ S].
    rewrite H in S. cbn in S. discriminate.
  - now injection H.
Qed.

Lemma escape_injective_witness : lit "a,b" = lit "a,b".
Proof. apply escape_injective. reflexivity. Defined.

End Routes.

(** ** The page: what the browser does with the answers *)

Module Page.

Import Encryption EncryptionFacts.
Import Server Terms.
Import Text Script.

Lemma occurrences_cons (c d : N) (s : list N) :
  occurrences c (d :: s)
  = ((if (c =? d)%N then 1 else 0) + occurrences c s)%nat.
Proof. unfold occurrences. cbn [filter]. now destruct (c =? d). Qed.

Lemma occurrences_app (c : N) (s t : list N) :
  occurrences c (s ++ t) = (occurrences c s + occurrences c t)%nat.
Proof. unfold occurrences. now rewrite filter_app, length_app. Qed.

Lemma occurrences_none (c : N) (s : list N) :
  occurrences c s = 0%nat <-> ~ In c s.
Proof.
  induction s as [|d s IH]; [cbn; tauto|].
  rewrite occurrences_cons. cbn [In].
  destruct (c =? d) eqn:E; to_props.
  - subst. split; [lia|tauto].
  - rewrite Nat.add_0_l, IH. split; [intros H [F|F]; [congruence|tauto]|tauto].
Qed.

Lemma split_length (sep : N) (s : list N) :
  List.length (split sep s) = S (occurrences sep s).
Proof.
  induction s as [|c s IH]; [reflexivity|].
  cbn [split]. rewrite occurrences_cons, (N.eqb_sym sep c).
  destruct (c =? sep).
  - cbn [List.length]. now rewrite IH.
  - destruct (split sep s) as [|piece pieces]; cbn [List.length] in *; lia.
Qed.

Lemma split_without (sep : N) (s : list N) :
  ~ In sep s -> split sep s = [s].
Proof.
  induction s as [|c s IH]; [reflexivity|]. cbn [In split]. intro H.
  destruct (c =? sep) eqn:E; to_props; [tauto|].
  rewrite IH by tauto. reflexivity.
Qed.

Lemma split_app (sep : N) (a b : list N) :
  ~ In sep a -> split sep (a ++ sep :: b) = a :: split sep b.
Proof.
  induction a as [|c a IH]; cbn [In app split]; intro H.
  - now rewrite N.eqb_refl.
  - destruct (c =? sep) eqn:E; to_props; [tauto|].
    rewrite IH by tauto. reflexivity.
Qed.

Lemma split_join (l : list (list N)) :
  l <> [] -> Forall (fun x => ~ In comma x) l -> split comma (join l) = l.
Proof.
  intros N F. induction F as [|x r Hx Hr IH]; [contradiction|].
  destruct r as [|y r]; cbn [join].
  - now apply split_without.
  - rewrite split_app by exact Hx. f_equal. apply IH. discriminate.
Qed.

Lemma join_occurrences (c : N) (l : list (list N)) :
  occurrences c (join l)
  = (list_sum (map (occurrences c) l)
     + (if (c =? comma)%N then List.length l - 1 else 0))%nat.
Proof.
  induction l as [|x r IH]; [cbn; now destruct (c =? comma)|].
  destruct r as [|y r].
  - cbn [join map list_sum fold_right List.length]. destruct (c =? comma); lia.
  - change (join (x :: y :: r)) with (x ++ comma :: join (y :: r)).
    rewrite occurrences_app, occurrences_cons, IH.
    cbn [map list_sum fold_right List.length]. destruct (c =? comma); lia.
Qed.

(** The two lines of a CSV whose header holds no line feed. *)
Lemma rows_of_two_lines (header row : list N) :
  ~ In line_feed header -> ~ In line_feed row ->
  rows (header ++ 10 :: row)
  = inr (split comma header, split comma row).
Proof.
  intros H R. unfold rows.
  change 10 with line_feed. rewrite split_app by exact H.
  now rewrite split_without by exact R.
Qed.

Lemma displayed_iff_line_feed (csvData : list N) :
  (exists html, displayDecryptedCSV csvData = inr html)
  <-> In line_feed csvData.
Proof.
  unfold displayDecryptedCSV, rows.
  pose proof (split_length line_feed csvData) as L.
  destruct (split line_feed csvData) as [|first [|second others]];
    cbn [List.length] in L.
  - lia.
  - split; [intros [html H]; discriminate|].
    intro I. assert (Z : occurrences line_feed csvData = 0%nat) by lia.
    apply occurrences_none in Z. contradiction.
  - split; [|eauto]. intros _.
    destruct (in_dec N.eq_dec line_feed csvData) as [I|I]; [exact I|].
    apply occurrences_none in I. lia.
Qed.

(** X22. When the table cannot be drawn: [displayDecryptedCSV] throws a
    [TypeError] exactly when the text holds no line feed - there is then no
    second line to split - and builds its table for every other text. *)
Theorem display_needs_two_lines (csvData : list N) :
  (exists html, displayDecryptedCSV csvData = inr html)
  <-> In line_feed csvData.
Proof.
  unfold displayDecryptedCSV, rows.
  pose proof (split_length line_feed csvData) as L.
  destruct (split line_feed csvData) as [|first [|second others]];
    cbn [List.length] in L.
  - lia.
  - split; [intros [html H]; discriminate|].
    intro I. assert (Z : occurrences line_feed csvData = 0%nat) by lia.
    apply occurrences_none in Z. contradiction.
  - split; [|eauto]. intros _.
    destruct (in_dec N.eq_dec line_feed csvData) as [I|I]; [exact I|].
    apply occurrences_none in I. lia.
Qed.

(** X23. What was exported can be shown: whatever the record and the
    selection, a CSV that [buildCSVData] returns is never one on which
    [displayDecryptedCSV] throws. *)
Theorem display_of_built (data : billing) (fields : list (list N))
        (csv : list N) :
  buildCSVData data fields = Returned csv ->
  exists html, displayDecryptedCSV csv = inr html.
Proof.
  unfold buildCSVData. destruct (entries data fields) as [vs|m|];
    try discriminate.
  intro H. injection H as <-. apply displayed_iff_line_feed.
  apply in_or_app. right. left. reflexivity.
Qed.

Lemma display_of_built_witness :
  exists html,
    displayDecryptedCSV (lit "city,postal_code" ++ 10
                           :: lit "San Francisco,94105")
    = inr html.
Proof.
  apply (display_of_built mockBillingData [lit "city"; lit "postal_code"]).
  reflexivity.
Defined.

Lemma join_without (c : N) (l : list (list N)) :
  c <> comma -> Forall (fun x => ~ In c x) l -> ~ In c (join l).
Proof.
  intros D F. apply occurrences_none. rewrite join_occurrences.
  replace (c =? comma) with false by (symmetry; now apply N.eqb_neq).
  rewrite Nat.add_0_r. induction F as [|x r Hx Hr IH]; [reflexivity|].
  cbn [map list_sum fold_right]. apply occurrences_none in Hx.
  unfold list_sum in IH. lia.
Qed.

(** X24. The table of an export: let the selection be non-empty and name
    no member of [Object.prototype], let no selected name hold a comma or a
    line feed, and let no entry written for it hold a line feed. Then
    [buildCSVData] returns a CSV from which [displayDecryptedCSV] reads -
    into its arrays [headers] and [values] - the selected names as its
    header cells, and a row of as many value cells as
    there are names plus one more for every comma in the entries: the two
    rows have the same number of cells only when no selected value holds a
    comma, since the quotes [buildCSVData] puts around such a value are not
    understood by the page. *)
Theorem table_of_export (data : billing) (fields : list (list N)) :
  fields <> [] ->
  Forall (fun f => find f Object_prototype = None) fields ->
  Forall (fun f => ~ In comma f /\ ~ In line_feed f) fields ->
  Forall (fun f => ~ In line_feed (cell_text data f)) fields ->
  exists csv headers values,
    buildCSVData data fields = Returned csv
    /\ rows csv = inr (headers, values)
    /\ headers = fields
    /\ List.length values
       = (List.length fields
          + list_sum (map (fun f => occurrences comma (cell_text data f))
                          fields))%nat.
Proof.
  intros N P F C.
  assert (D : line_feed <> comma) by discriminate.
  do 3 eexists. split; [now apply Routes.buildCSVData_joined|].
  split.
  { apply rows_of_two_lines.
    - apply join_without; [exact D|]. revert F. apply Forall_impl. tauto.
    - apply join_without; [exact D|]. apply Forall_map. exact C. }
  split.
  { apply split_join; [exact N|]. revert F. apply Forall_impl. tauto. }
  rewrite split_length, join_occurrences, N.eqb_refl, length_map, map_map.
  destruct fields; [contradiction|]. cbn [List.length]. lia.
Qed.

Lemma table_of_export_witness :
  exists csv headers values,
    buildCSVData mockBillingData [lit "city"; lit "postal_code"]
    = Returned csv
    /\ rows csv = inr (headers, values)
    /\ headers = [lit "city"; lit "postal_code"]
    /\ List.length values
       = (List.length [lit "city"; lit "postal_code"]
          + list_sum (map (fun f => occurrences comma
                                      (cell_text mockBillingData f))
                          [lit "city"; lit "postal_code"]))%nat.
Proof.
  apply table_of_export.
  - discriminate.
  - repeat (apply Forall_cons; [reflexivity|]). apply Forall_nil.
  - repeat (apply Forall_cons;
            [split; (apply occurrences_none; reflexivity)|]).
    apply Forall_nil.
  - repeat (apply Forall_cons; [apply occurrences_none; reflexivity|]).
    apply Forall_nil.
Defined.

(** X25. The table shows what was selected: when, moreover, no entry
    written holds a comma, the header cells [displayDecryptedCSV] reads are
    the selected names and the value cells are the entries [buildCSVData]
    wrote for them, one for one and in the same order. *)
Theorem table_shows_selection (data : billing) (fields : list (list N)) :
  fields <> [] ->
  Forall (fun f => find f Object_prototype = None) fields ->
  Forall (fun f => ~ In comma f /\ ~ In line_feed f) fields ->
  Forall (fun f => ~ In comma (cell_text data f)
                   /\ ~ In line_feed (cell_text data f)) fields ->
  exists csv,
    buildCSVData data fields = Returned csv
    /\ rows csv = inr (fields, map (cell_text data) fields).
Proof.
  intros N P F C.
  assert (D : line_feed <> comma) by discriminate.
  eexists. split; [now apply Routes.buildCSVData_joined|].
  rewrite rows_of_two_lines.
  - rewrite !split_join; [reflexivity| | | |].
    + destruct fields; [contradiction|discriminate].
    + apply Forall_map. revert C. apply Forall_impl. tauto.
    + exact N.
    + revert F. apply Forall_impl. tauto.
  - apply join_without; [exact D|]. revert F. apply Forall_impl. tauto.
  - apply join_without; [exact D|]. apply Forall_map.
    revert C. apply Forall_impl. tauto.
Qed.

Lemma table_shows_selection_witness :
  exists csv,
    buildCSVData mockBillingData [lit "city"; lit "postal_code"]
    = Returned csv
    /\ rows csv
       = inr ([lit "city"; lit "postal_code"],
              map (cell_text mockBillingData)
                  [lit "city"; lit "postal_code"]).
Proof.
  apply table_shows_selection.
  - discriminate.
  - repeat (apply Forall_cons; [reflexivity|]). apply Forall_nil.
  - repeat (apply Forall_cons;
            [split; (apply occurrences_none; reflexivity)|]).
    apply Forall_nil.
  - repeat (apply Forall_cons;
            [split; (apply occurrences_none; reflexivity)|]).
    apply Forall_nil.
Defined.

Lemma hex_value_digit (v : N) :
  v < 16 -> Json.hex_value (Json.hex_digit v) = Some v.
Proof. exact (CipherUnit.hex_digit_value v). Qed.

(** [JSON.parse] reads an escape [\uXXXX] as the code unit it was written
    for. *)
Lemma string_body_u_escape (c : N) (r : list N) :
  c < 0x10000 ->
  Json.string_body (Json.u_escape c ++ r)
  = match Json.string_body r with
    | Some (t, rest) => Some (c :: t, rest)
    | None => None
    end.
Proof.
  intro L. unfold Json.u_escape. cbn [app Json.string_body].
  change (Json.backslash =? Json.quote_mark) with false.
  change (Json.backslash =? Json.backslash) with true.
  change (117 =? 117) with true. cbv iota.
  unfold Json.hex4. rewrite !hex_value_digit by dlia.
  replace (c / 4096 mod 16 * 4096 + c / 256 mod 16 * 256 + c / 16 mod 16 * 16
           + c mod 16) with c by dlia.
  reflexivity.
Qed.

Lemma string_body_keep (c : N) (r : list N) :
  (c =? Json.quote_mark) = false -> (c =? Json.backslash) = false ->
  (c <? 32) = false ->
  Json.string_body (c :: r)
  = match Json.string_body r with
    | Some (t, rest) => Some (c :: t, rest)
    | None => None
    end.
Proof. intros Q B C. cbn [Json.string_body]. now rewrite Q, B, C. Qed.

Lemma surrogate_kept (c : N) :
  Utf8.is_high c = true \/ Utf8.is_low c = true ->
  (c =? Json.quote_mark) = false /\ (c =? Json.backslash) = false
  /\ (c <? 32) = false /\ c < 0x10000.
Proof.
  unfold Json.quote_mark, Json.backslash. intros [H|H]; to_props;
    (split; [apply N.eqb_neq; lia|]); (split; [apply N.eqb_neq; lia|]);
    (split; [apply N.ltb_ge; lia|lia]).
Qed.

(** What [JSON.stringify] writes between the quotes of a string,
    [JSON.parse] reads back as that string. *)
Lemma string_body_quote_body (s rest : list N) :
  Json.string_body (Json.quote_body s ++ Json.quote_mark :: rest)
  = Some (s, rest).
Proof.
  remember (List.length s) as n eqn:Hn.
  revert s Hn. induction n as [n IH] using lt_wf_ind. intros s Hn.
  destruct s as [|c r]; [cbn; reflexivity|].
  assert (R : forall t, (List.length t < n)%nat ->
                        Json.string_body
                          (Json.quote_body t ++ Json.quote_mark :: rest)
                        = Some (t, rest))
    by (intros t L; now apply (IH (List.length t))).
  assert (Lr : (List.length r < n)%nat) by (subst; cbn; lia).
  cbn [Json.quote_body].
  destruct (c =? Json.quote_mark) eqn:Q.
  { apply N.eqb_eq in Q. subst c. cbn [app Json.string_body].
    change (Json.backslash =? Json.quote_mark) with false.
    change (Json.backslash =? Json.backslash) with true.
    change (Json.quote_mark =? 117) with false. cbv iota.
    change (Json.simple_escape Json.quote_mark) with (Some Json.quote_mark).
    now rewrite (R r Lr). }
  destruct (c =? Json.backslash) eqn:B.
  { apply N.eqb_eq in B. subst c. cbn [app Json.string_body].
    change (Json.backslash =? Json.quote_mark) with false.
    change (Json.backslash =? Json.backslash) with true.
    change (Json.backslash =? 117) with false. cbv iota.
    change (Json.simple_escape Json.backslash) with (Some Json.backslash).
    now rewrite (R r Lr). }
  destruct (c <? 32) eqn:C.
  { apply N.ltb_lt in C. unfold Json.control_escape.
    destruct (c =? 8) eqn:E8;
      [|destruct (c =? 9) eqn:E9;
        [|destruct (c =? 10) eqn:E10;
          [|destruct (c =? 12) eqn:E12; [|destruct (c =? 13) eqn:E13]]]];
      to_props; subst;
      try (cbn [app Json.string_body];
           change (Json.backslash =? Json.quote_mark) with false;
           change (Json.backslash =? Json.backslash) with true;
           cbv iota; cbn; now rewrite (R r Lr)).
    rewrite <- app_assoc, string_body_u_escape by lia.
    now rewrite (R r Lr). }
  destruct (Utf8.is_high c) eqn:H.
  { destruct (surrogate_kept c (or_introl H)) as (_ & _ & _ & Lc).
    destruct r as [|d r'].
    - rewrite string_body_u_escape by exact Lc. cbn. reflexivity.
    - destruct (Utf8.is_low d) eqn:Ld.
      + destruct (surrogate_kept d (or_intror Ld)) as (Qd & Bd & Cd & _).
        cbn [app]. rewrite (string_body_keep c) by assumption.
        rewrite (string_body_keep d) by assumption.
        rewrite (R r') by (subst; cbn; lia). reflexivity.
      + rewrite <- app_assoc, string_body_u_escape by exact Lc.
        now rewrite (R (d :: r') Lr). }
  destruct (Utf8.is_low c) eqn:L.
  { destruct (surrogate_kept c (or_intror L)) as (_ & _ & _ & Lc).
    rewrite <- app_assoc, string_body_u_escape by exact Lc.
    now rewrite (R r Lr). }
  cbn [app]. rewrite (string_body_keep c) by assumption.
  now rewrite (R r Lr).
Qed.

Lemma parse_downloaded (text : list N) :
  Json.parse (downloadEncryptedCSV text) = Some (Json.String text).
Proof.
  unfold downloadEncryptedCSV, Json.parse. cbn [Json.stringify].
  unfold Json.quote.
  replace (2 * List.length (Json.quote_mark :: Json.quote_body text
                              ++ [Json.quote_mark]) + 2)%nat
    with (S (2 * List.length (Json.quote_body text ++ [Json.quote_mark]) + 3))
    by (cbn [List.length]; lia).
  cbn [Json.parse_value Json.skip_ws].
  change (Json.is_ws Json.quote_mark) with false. cbv iota.
  change (Json.quote_mark =? 123) with false.
  change (Json.quote_mark =? 91) with false.
  change (Json.quote_mark =? Json.quote_mark) with true. cbv iota.
  rewrite string_body_quote_body. reflexivity.
Qed.

(** X26. The file offered for download is a JSON string: for every
    payload, [JSON.parse] reads the text [downloadEncryptedCSV] writes as
    the payload itself, a string, whatever characters it holds - not as the
    envelope object the payload is the text of. *)
Theorem download_is_json_string (text : list N) :
  Json.parse (downloadEncryptedCSV text) = Some (Json.String text).
Proof.
  unfold downloadEncryptedCSV, Json.parse. cbn [Json.stringify].
  unfold Json.quote.
  replace (2 * List.length (Json.quote_mark :: Json.quote_body text
                              ++ [Json.quote_mark]) + 2)%nat
    with (S (2 * List.length (Json.quote_body text ++ [Json.quote_mark]) + 3))
    by (cbn [List.length]; lia).
  cbn [Json.parse_value Json.skip_ws].
  change (Json.is_ws Json.quote_mark) with false. cbv iota.
  change (Json.quote_mark =? 123) with false.
  change (Json.quote_mark =? 91) with false.
  change (Json.quote_mark =? Json.quote_mark) with true. cbv iota.
  rewrite string_body_quote_body. reflexivity.
Qed.

(** X27. The downloaded file does not open as it is: given the text
    [downloadEncryptedCSV] wrote - for whatever payload - and any non-empty
    password, the decrypt route answers 400 with
    [Decryption failed - invalid password or corrupted data], before any
    key is derived: the parsed text is a string, which has no [ciphertext]
    to read. *)
Theorem downloaded_file_rejected (text password : list N) (w : world) :
  password <> [] ->
  decrypt_csv (downloadEncryptedCSV text) password w
  = (Returned
       (Status400 "Decryption failed - invalid password or corrupted data"),
     w).
Proof.
  intro P. unfold decrypt_csv, try_catch, bind.
  rewrite (Routes.units_eqb_neq password []) by exact P.
  change (units_eqb (downloadEncryptedCSV text) []) with false.
  cbn [orb]. rewrite decryptCSVData_run, parse_downloaded.
  reflexivity.
Qed.

Lemma downloaded_file_rejected_witness :
  decrypt_csv
    (downloadEncryptedCSV
       (sealed_text (lit "city,postal_code") (lit "SecurePassword123")
                    initial_world))
    (lit "SecurePassword123") initial_world
  = (Returned
       (Status400 "Decryption failed - invalid password or corrupted data"),
     initial_world).
Proof. apply downloaded_file_rejected. discriminate. Defined.

End Page.

(** ** The selection of fields in the React component *)

Module Selection.

Import Component.

Lemma includes_field (field : list N) (prev : list (list N)) :
  existsb (units_eqb field) prev = true <-> In field prev.
Proof.
  rewrite existsb_exists. split.
  - intros (x & I & E). apply Routes.units_eqb_eq in E. now subst.
  - intro I. exists field. split; [exact I|apply Routes.units_eqb_refl].
Qed.

Lemma toggle_selected (field : list N) (prev : list (list N)) :
  In field prev ->
  toggleFieldSelection field prev
  = filter (fun f => negb (units_eqb f field)) prev.
Proof.
  intro I. unfold toggleFieldSelection.
  now rewrite (proj2 (includes_field field prev) I).
Qed.

Lemma toggle_unselected (field : list N) (prev : list (list N)) :
  ~ In field prev -> toggleFieldSelection field prev = prev ++ [field].
Proof.
  intro I. unfold toggleFieldSelection.
  destruct (existsb (units_eqb field) prev) eqn:E; [|reflexivity].
  now apply includes_field in E.
Qed.

Lemma In_without (field other : list N) (prev : list (list N)) :
  In other (filter (fun f => negb (units_eqb f field)) prev)
  <-> In other prev /\ other <> field.
Proof.
  rewrite filter_In, negb_true_iff. split; intros [I D]; split; try exact I.
  - intros ->. now rewrite Routes.units_eqb_refl in D.
  - now apply Routes.units_eqb_neq.
Qed.

(** X28. A click flips one field: [toggleFieldSelection] puts the field
    into the selection when it was not there and takes it out when it was,
    and every other field is selected after the click exactly when it was
    selected before. *)
Theorem toggle_flips_one (field : list N) (prev : list (list N)) :
  (In field (toggleFieldSelection field prev) <-> ~ In field prev)
  /\ (forall other,
         other <> field ->
         In other (toggleFieldSelection field prev) <-> In other prev).
Proof.
  destruct (in_dec (list_eq_dec N.eq_dec) field prev) as [I|I].
  - rewrite (toggle_selected _ _ I). split.
    + rewrite In_without. tauto.
    + intros other D. rewrite In_without. tauto.
  - rewrite (toggle_unselected _ _ I). split.
    + rewrite in_app_iff. cbn [In]. tauto.
    + intros other D. rewrite in_app_iff. cbn [In].
      split; [intros [H|[H|[]]]; [exact H|congruence]|tauto].
Qed.

Lemma toggle_keeps_distinct (field : list N) (prev : list (list N)) :
  NoDup prev -> NoDup (toggleFieldSelection field prev).
Proof.
  intro D. destruct (in_dec (list_eq_dec N.eq_dec) field prev) as [I|I].
  - rewrite (toggle_selected _ _ I). now apply NoDup_filter.
  - rewrite (toggle_unselected _ _ I).
    apply NoDup_app; [exact D|apply NoDup_cons; [tauto|apply NoDup_nil]|].
    intros x Hx [<-|[]]. contradiction.
Qed.

(** X29. No field is selected twice: the selection the component starts
    with holds four distinct names, and after any sequence of clicks the
    selection - the array sent as [fields] to the export route - still
    holds no name twice. *)
Theorem selection_never_repeats (clicks : list (list N)) :
  NoDup (fold_left (fun selected field => toggleFieldSelection field selected)
                   clicks selectedFields).
Proof.
  assert (D : NoDup selectedFields).
  { unfold selectedFields.
    repeat (apply NoDup_cons;
            [cbn [In]; intuition discriminate|]).
    apply NoDup_nil. }
  revert D. generalize selectedFields as selected.
  induction clicks as [|field clicks IH]; intros selected D; [exact D|].
  cbn [fold_left]. apply IH. now apply toggle_keeps_distinct.
Qed.

End Selection.
